(** * meme-ai-agent: the Twitter services, embedded and verified

    Shallow embedding of the two social-media services of the repository:

    - [TwitterService] (OAuth client, [twitter-api-v2]): content validation,
      [postTweet], the retry loops [postTweetWithRetry], [initializeWithRetry]
      and [tweet], and the mutable fields of the service object;
    - [AgentTwitterClientService] (scraper client, [agent-twitter-client]):
      the facade operations and the polling tick of [startStream].

    Asynchronous code is modelled in a state-and-exception monad over an
    explicit world: a virtual wall clock, a counter of platform calls, a
    counter of timers and the chronological log of observable events.  The
    third-party platform is an oracle passed as a parameter.  JavaScript
    numbers are modelled by [Z] (all quantities involved are integers well
    below 2^53). *)

From Stdlib Require Import ZArith List String Ascii Bool Lia DecimalString.
Import ListNotations.
Open Scope Z_scope.

(** ** JavaScript values shared by both services *)
Module Js.

(** A JavaScript string is a sequence of UTF-16 code units; [length] counts
    code units. *)
Definition jsstring := list Z.

Definition is_high_surrogate (u : Z) : bool := (0xD800 <=? u) && (u <=? 0xDBFF).
Definition is_low_surrogate (u : Z) : bool := (0xDC00 <=? u) && (u <=? 0xDFFF).

(** The code points a regular expression with the [u] flag iterates over:
    a high surrogate followed by a low surrogate is one code point, any
    other code unit stands for itself. *)
Fixpoint code_points (s : jsstring) : list Z :=
  match s with
  | [] => []
  | u :: rest =>
      match rest with
      | v :: rest' =>
          if is_high_surrogate u && is_low_surrogate v
          then (0x10000 + (u - 0xD800) * 0x400 + (v - 0xDC00)) :: code_points rest'
          else u :: code_points rest
      | [] => [u]
      end
  end.

(** [(s.match(/[lo-hi]/gu) || []).length] *)
Definition count_code_points_in (lo hi : Z) (s : jsstring) : Z :=
  Z.of_nat (List.length (filter (fun c => (lo <=? c) && (c <=? hi)) (code_points s))).

(** [(s.match(/c/g) || []).length] for a single BMP character [c] *)
Definition count_code_unit (c : Z) (s : jsstring) : Z :=
  Z.of_nat (List.length (filter (Z.eqb c) s)).

(** An ASCII literal as a JavaScript string. *)
Fixpoint lit (s : string) : jsstring :=
  match s with
  | EmptyString => []
  | String a rest => Z.of_N (N_of_ascii a) :: lit rest
  end.

(** Template-literal rendering of an integer. *)
Definition show (z : Z) : string := NilZero.string_of_int (Z.to_int z).

(** What a [catch] clause can receive.  [ApiResponseError] is the class of
    [twitter-api-v2]: [code] is the HTTP status, [rateLimit_reset] is
    [error.rateLimit?.reset] (seconds since the epoch, [None] when
    [rateLimit] or [reset] is undefined) and [rateLimitError] the field of
    that name; [ApiRequestError] and [ApiPartialResponseError] are its two
    sibling classes.  [Error] stands for every other [Error] object and
    [NonError] for a thrown value that is no [Error] and has no
    [message]. *)
Inductive Thrown : Type :=
| ApiResponseError (code : Z) (rateLimit_reset : option Z)
                   (rateLimitError : bool) (message : string)
| ApiRequestError (message : string)
| ApiPartialResponseError (message : string)
| Error (message : string)
| NonError.

(** [error instanceof Error] *)
Definition instanceof_Error (e : Thrown) : bool :=
  match e with
  | NonError => false
  | _ => true
  end.

(** [error.message], [None] for [undefined] *)
Definition message_of (e : Thrown) : option string :=
  match e with
  | ApiResponseError _ _ _ m | ApiRequestError m
  | ApiPartialResponseError m | Error m => Some m
  | NonError => None
  end.

(** Truthiness of an optional string: [undefined] and [''] are falsy. *)
Definition truthy_string (x : option string) : bool :=
  match x with
  | Some (String _ _) => true
  | _ => false
  end.

(** [x || dflt] on an optional string: the empty string is falsy. *)
Definition or_else (x : option string) (dflt : string) : string :=
  match x with
  | Some EmptyString | None => dflt
  | Some m => m
  end.

(** Outcome of a computation: a value, a thrown exception, or the
    exhaustion of the recursion budget of the model (never the outcome of an
    entry into the services, see [invoke_returns] and
    [agent_invoke_returns]). *)
Inductive Res (A : Type) : Type :=
| Ok (a : A)
| Throw (e : Thrown)
| OutOfFuel.
Arguments Ok {A} a.
Arguments Throw {A} e.
Arguments OutOfFuel {A}.

(** How a promise of the outside world settles. *)
Inductive Settled (A : Type) : Type :=
| Fulfilled (a : A)
| Rejected (e : Thrown).
Arguments Fulfilled {A} a.
Arguments Rejected {A} e.

Definition outcome {A} (s : Settled A) : Res A :=
  match s with
  | Fulfilled a => Ok a
  | Rejected e => Throw e
  end.

(** *** The monad of asynchronous methods

    A method is a transformer of a world [W] that ends with a value or a
    thrown exception; a rejected promise and a thrown exception are the same
    thing to the awaiting caller. *)

Definition M (W A : Type) : Type := W -> Res A * W.

Definition ret {W A} (a : A) : M W A := fun w => (Ok a, w).
Definition throw {W A} (e : Thrown) : M W A := fun w => (Throw e, w).
Definition out_of_fuel {W A} : M W A := fun w => (OutOfFuel, w).
Definition lift {W A} (r : Res A) : M W A := fun w => (r, w).

Definition bind {W A B} (m : M W A) (f : A -> M W B) : M W B :=
  fun w =>
    match m w with
    | (Ok a, w') => f a w'
    | (Throw e, w') => (Throw e, w')
    | (OutOfFuel, w') => (OutOfFuel, w')
    end.

(** [try { m } catch (error) { h error }] *)
Definition try_catch {W A} (m : M W A) (h : Thrown -> M W A) : M W A :=
  fun w =>
    match m w with
    | (Throw e, w') => h e w'
    | r => r
    end.

(** The settled outcome of a promise, as a value. *)
Definition settle {W A} (m : M W A) : M W (Res A) :=
  fun w => let '(r, w') := m w in (Ok r, w').

(** A call whose result is dropped. *)
Definition forget {W A} (m : M W A) : M W unit :=
  bind m (fun _ => ret tt).

(** A computation that ends with a value or an exception wherever it is
    started: the budget of the model is not what stops it. *)
Definition returns {W A} (m : M W A) : Prop :=
  forall w, fst (m w) <> OutOfFuel.

(** A computation that leaves an observation of the world as it is,
    whatever happens. *)
Definition preserves {W X A} (obs : W -> X) (m : M W A) : Prop :=
  forall w, obs (snd (m w)) = obs w.

(** A computation that leaves the observation as it is unless it returns
    normally. *)
Definition preserves_unless_ok {W X A} (obs : W -> X) (m : M W A) : Prop :=
  forall w, (exists a, fst (m w) = Ok a) \/ obs (snd (m w)) = obs w.

Declare Scope js_scope.
Delimit Scope js_scope with js.
Notation "x <- m ;; k" := (bind m (fun x => k))
  (at level 61, m at next level, right associativity) : js_scope.
Notation "m ;; k" := (bind m (fun _ => k))
  (at level 61, right associativity) : js_scope.

End Js.
Import Js.

(** ** TwitterService (OAuth client) *)
Module TwitterService.

(** *** Configuration

    Of [this.config], the settings the methods read; [baseUrl],
    [marketDataConfig] and [tokenAddresses] are read by none of them. *)

Record ContentRules := {
  maxEmojis : Z;
  maxHashtags : Z;
  minInterval : Z
}.

Record Config := {
  mockMode : bool;
  maxRetries : Z;
  retryDelay : Z;
  contentRules : ContentRules
}.

(** The configuration object handed to the constructor: the required
    credentials (the empty string stands for a missing or empty field, both
    falsy) and the optional settings. *)
Record RawConfig := {
  apiKey : string; apiSecret : string;
  accessToken : string; accessSecret : string;
  bearerToken : string;
  oauthClientId : string; oauthClientSecret : string;
  baseUrl : string;
  raw_mockMode : option bool;
  raw_maxRetries : option Z;
  raw_retryDelay : option Z;
  raw_maxEmojis : option Z;
  raw_maxHashtags : option Z;
  raw_minInterval : option Z
}.

(** [x ?? dflt] *)
Definition nullish {A} (x : option A) (dflt : A) : A :=
  match x with Some v => v | None => dflt end.

(** *** The world *)

Record Options := {
  mediaUrls : option (list string);
  replyToTweetId : option string
}.
Definition no_options : Options := {| mediaUrls := None; replyToTweetId := None |}.

Record TweetPayload := {
  text : jsstring;
  media_ids : option (list string);
  in_reply_to_tweet_id : option string
}.

(** [{ data: { id, text } }] *)
Record TweetResult := { data_id : string; data_text : jsstring }.

(** [{ data: { id, username } }] *)
Record User := { user_id : string; username : string }.

(** [{ data: { id, text, author_id } }], an item of the filtered stream *)
Record StreamTweet := { st_id : string; st_text : jsstring; st_author_id : string }.

(** [{ content, platform, author }], the request to the AI collaborator *)
Record AIRequest := { ai_content : jsstring; ai_platform : string; ai_author : string }.

Inductive RulesUpdate : Type :=
| DeleteRules (ids : list string)
| AddRule (value : string) (tag : string).

(** Calls that leave the service. *)
Inductive ExtCall : Type :=
| V2_tweet (p : TweetPayload)
| V1_uploadMedia (url : string)
| V2_me
| V2_streamRules
| V2_updateStreamRules (u : RulesUpdate)
| V2_searchStream
| AI_generateResponse (r : AIRequest)
| Data_formatForAI (token : string)
| Price_startMonitoring (token : string)
| Price_cleanup.

(** Observable events, each stamped with the clock at which it happens.
    Of the [elizaLogger] calls, the announcement of an attempt and the
    error reports are recorded; the remaining log calls affect neither
    control flow nor state and are left out. *)
Inductive Event : Type :=
| EvAttempt (t : Z) (n : Z) (of_ : Z)             (* info: attempt n/of_ *)
| EvCall (t : Z) (c : ExtCall)                    (* a platform call is issued *)
| EvSleep (t : Z) (ms : Z)                        (* this.delay(ms) *)
| EvTimer (t : Z) (ms : Z)                        (* setTimeout / setInterval armed *)
| EvError (t : Z) (label : string) (e : Thrown).  (* elizaLogger.error(label, e) *)

(** The mutable fields of the service object. *)
Record Fields := {
  userId : option string;
  isStreaming : bool;
  marketUpdateInterval : option nat;   (* handle of the interval timer *)
  tweetCount : Z;
  MONTHLY_TWEET_LIMIT : Z
}.

Record World := {
  now : Z;            (* Date.now() *)
  calls : nat;        (* platform calls issued so far *)
  timers : nat;       (* timers armed so far *)
  log : list Event;   (* chronological *)
  this : Fields
}.

(** The platform, the collaborators and the timer wheel.  The [k]-th
    external call, issued at time [t], takes [fst] milliseconds and has
    outcome [snd]; the [k]-th timer, armed at [t], fires [timer_lag k t]
    milliseconds late. *)
Record Env := {
  v2_tweet : nat -> Z -> TweetPayload -> nat * Settled TweetResult;
  v1_uploadMedia : nat -> Z -> string -> nat * Settled string;
  v2_me : nat -> Z -> nat * Settled User;
  v2_streamRules : nat -> Z -> nat * Settled (list string);
  v2_updateStreamRules : nat -> Z -> RulesUpdate -> nat * Settled unit;
  v2_searchStream : nat -> Z -> nat * Settled unit;
  generateResponse : nat -> Z -> AIRequest -> nat * Settled jsstring;
  formatForAI : nat -> Z -> string -> nat * Settled jsstring;
  startMonitoring : nat -> Z -> string -> nat * Settled unit;
  cleanup : nat -> Z -> nat * Settled unit;
  timer_lag : nat -> Z -> nat
}.

Open Scope js_scope.

Definition M : Type -> Type := Js.M World.

Definition set_log (l : list Event) (w : World) : World :=
  {| now := now w; calls := calls w; timers := timers w; log := l; this := this w |}.
Definition set_this (f : Fields) (w : World) : World :=
  {| now := now w; calls := calls w; timers := timers w; log := log w; this := f |}.

Definition emit (ev : Z -> Event) : M unit :=
  fun w => (Ok tt, set_log (log w ++ [ev (now w)]) w).

Definition Date_now : M Z := fun w => (Ok (now w), w).

Definition get_this : M Fields := fun w => (Ok (this w), w).
Definition put_this (f : Fields) : M unit := fun w => (Ok tt, set_this f w).

(** An awaited external call: logged when issued, it advances the clock by
    its latency. *)
Definition platform {A} (c : ExtCall) (oracle : nat -> Z -> nat * Settled A) : M A :=
  fun w =>
    let '(dt, r) := oracle (calls w) (now w) in
    (outcome r, {| now := now w + Z.of_nat dt; calls := S (calls w); timers := timers w;
           log := log w ++ [EvCall (now w) c]; this := this w |}).

(** A call that is started and not awaited: it is logged when issued and
    the clock stays where it is; the result is the pending promise, the
    time the call will take and how it will settle. *)
Definition start_call {A} (c : ExtCall) (oracle : nat -> Z -> nat * Settled A)
  : M (nat * Settled A) :=
  fun w =>
    (Ok (oracle (calls w) (now w)),
     {| now := now w; calls := S (calls w); timers := timers w;
        log := log w ++ [EvCall (now w) c]; this := this w |}).

(** Time passes while the caller waits. *)
Definition elapse (dt : nat) : M unit :=
  fun w => (Ok tt, {| now := now w + Z.of_nat dt; calls := calls w; timers := timers w;
                      log := log w; this := this w |}).

(** The delay [setTimeout(cb, ms)] arms: a delay below 1 or above
    [2 ^ 31 - 1] milliseconds is set to 1. *)
Definition setTimeout_delay (ms : Z) : Z :=
  if (ms <? 1) || (2147483647 <? ms) then 1 else ms.

(** [delay(ms)], a promise resolved by [setTimeout(resolve, ms)]: it
    resolves when the timer fires, no earlier than the delay the timer was
    armed with. *)
Definition sleep (timer_lag : nat -> Z -> nat) (ms : Z) : M unit :=
  fun w =>
    (Ok tt, {| now := now w + setTimeout_delay ms
                      + Z.of_nat (timer_lag (timers w) (now w));
               calls := calls w; timers := S (timers w);
               log := log w ++ [EvSleep (now w) ms]; this := this w |}).

(** [setTimeout(cb, ms)] / [setInterval(cb, ms)]: arms a timer and returns
    its handle at once; the callback is a later entry into the service. *)
Definition arm_timer (ms : Z) : M nat :=
  fun w =>
    (Ok (timers w), {| now := now w; calls := calls w; timers := S (timers w);
                       log := log w ++ [EvTimer (now w) ms]; this := this w |}).

Definition set_userId (u : option string) (f : Fields) : Fields :=
  {| userId := u; isStreaming := isStreaming f;
     marketUpdateInterval := marketUpdateInterval f;
     tweetCount := tweetCount f; MONTHLY_TWEET_LIMIT := MONTHLY_TWEET_LIMIT f |}.
Definition set_isStreaming (b : bool) (f : Fields) : Fields :=
  {| userId := userId f; isStreaming := b;
     marketUpdateInterval := marketUpdateInterval f;
     tweetCount := tweetCount f; MONTHLY_TWEET_LIMIT := MONTHLY_TWEET_LIMIT f |}.
Definition set_marketUpdateInterval (h : option nat) (f : Fields) : Fields :=
  {| userId := userId f; isStreaming := isStreaming f;
     marketUpdateInterval := h;
     tweetCount := tweetCount f; MONTHLY_TWEET_LIMIT := MONTHLY_TWEET_LIMIT f |}.

(** *** Construction *)

Definition validateConfig (config : RawConfig) : Res unit :=
  let requiredFields :=
    [("apiKey", apiKey config); ("apiSecret", apiSecret config);
     ("accessToken", accessToken config); ("accessSecret", accessSecret config);
     ("bearerToken", bearerToken config);
     ("oauthClientId", oauthClientId config);
     ("oauthClientSecret", oauthClientSecret config);
     ("baseUrl", baseUrl config)]%string in
  let missing :=
    map fst (filter (fun field => negb (truthy_string (Some (snd field)))) requiredFields) in
  match missing with
  | [] => Ok tt
  | _ => Throw (Error ("Missing required Twitter configuration fields: "
                       ++ String.concat ", " missing)%string)
  end.

(** The constructor: validation, the defaults of the optional settings and
    the field initialisers of the class. *)
Definition constructor (config : RawConfig) : Res (Config * Fields) :=
  match validateConfig config with
  | Ok _ =>
      Ok ({| mockMode := nullish (raw_mockMode config) false;
             maxRetries := nullish (raw_maxRetries config) 3;
             retryDelay := nullish (raw_retryDelay config) 5000;
             contentRules :=
               {| maxEmojis := nullish (raw_maxEmojis config) 0;
                  maxHashtags := nullish (raw_maxHashtags config) 0;
                  minInterval := nullish (raw_minInterval config) 300000 |} |},
          {| userId := None;
             isStreaming := false;
             marketUpdateInterval := None;
             tweetCount := 0;
             MONTHLY_TWEET_LIMIT := 3000 |})
  | Throw e => Throw e
  | OutOfFuel => OutOfFuel
  end.

Definition getTweetCount (f : Fields) : Z := tweetCount f.

Definition getRemainingTweets (f : Fields) : Z :=
  MONTHLY_TWEET_LIMIT f - getTweetCount f.

(** *** Methods *)
Section Methods.

Variable env : Env.
Variable config : Config.   (* this.config, assigned once by the constructor *)

Definition delay (ms : Z) : M unit := sleep (timer_lag env) ms.

Definition getRateLimitReset (error : Thrown) : option Z :=
  match error with
  | ApiResponseError _ (Some resetHeader) _ _ =>
      if resetHeader =? 0 then None       (* if (resetHeader) *)
      else Some (resetHeader * 1000)      (* convert to milliseconds *)
  | _ => None
  end.

(** [if (resetTime)] on the result of [getRateLimitReset] *)
Definition truthy_number (x : option Z) : option Z :=
  match x with
  | Some n => if n =? 0 then None else Some n
  | None => None
  end.

(** [mediaUrls.map(async (url) => ...)]: every callback runs up to its
    [await], so the uploads are all started, in list order, before any of
    them settles. *)
Fixpoint startUploads (mediaUrls : list string)
  : M (list (string * (nat * Settled string))) :=
  match mediaUrls with
  | [] => ret []
  | url :: rest =>
      p <- start_call (V1_uploadMedia url) (fun k t => v1_uploadMedia env k t url) ;;
      ps <- startUploads rest ;;
      ret ((url, p) :: ps)
  end.

(** The rejection that arrives first among pending uploads, the earliest in
    the list among those that arrive together. *)
Fixpoint first_rejection (ps : list (string * (nat * Settled string)))
  : option (string * nat * Thrown) :=
  match ps with
  | [] => None
  | (url, (dt, Rejected e)) :: rest =>
      match first_rejection rest with
      | Some (url', dt', e') =>
          if (dt' <? dt)%nat then Some (url', dt', e') else Some (url, dt, e)
      | None => Some (url, dt, e)
      end
  | (_, (_, Fulfilled _)) :: rest => first_rejection rest
  end.

(** The values of the fulfilled uploads, in list order. *)
Definition fulfilled_values (ps : list (string * (nat * Settled string))) : list string :=
  flat_map (fun p => match snd (snd p) with Fulfilled v => [v] | Rejected _ => [] end) ps.

(** [await Promise.all(...)] on the uploads.  It is fulfilled once the last
    upload is, with the values in list order, and rejected as soon as one
    upload is, with that error, which the [catch] of the upload has
    reported.  The uploads still pending at that time are abandoned: what
    they report when they fail later is left out. *)
Definition Promise_all (ps : list (string * (nat * Settled string))) : M (list string) :=
  match first_rejection ps with
  | Some (url, dt, error) =>
      elapse dt ;;
      emit (fun t => EvError t ("Failed to upload media from URL " ++ url ++ ":")%string
                             error) ;;
      throw error
  | None =>
      elapse (list_max (map (fun p => fst (snd p)) ps)) ;;
      ret (fulfilled_values ps)
  end.

Definition uploadMedia (urls : list string) : M (list string) :=
  try_catch
    (let mediaUrls := firstn 4 urls in      (* urls.slice(0, 4) *)
     ps <- startUploads mediaUrls ;;
     Promise_all ps)
    (fun error =>
       emit (fun t => EvError t "Failed to upload media:" error) ;;
       throw error).

(** [options.mediaUrls ? await this.uploadMedia(options.mediaUrls) : []] *)
Definition mediaIds_of (options : Options) : M (list string) :=
  match mediaUrls options with
  | Some urls => uploadMedia urls
  | None => ret []
  end.

(** [...(mediaIds.length && { media: { media_ids: mediaIds } })] *)
Definition media_of (mediaIds : list string) : option (list string) :=
  match mediaIds with
  | [] => None
  | _ => Some mediaIds
  end.

Definition postTweet (content : jsstring) (options : Options) : M unit :=
  try_catch
    ((match content with                       (* if (!content) *)
      | [] => throw (Error "Tweet content cannot be empty")
      | _ => ret tt
      end) ;;
     (if 280 <? Z.of_nat (List.length content)
      then throw (Error "Tweet exceeds 280 characters")
      else ret tt) ;;
     mediaIds <- mediaIds_of options ;;
     let tweetPayload :=
       {| text := content; media_ids := media_of mediaIds;
          in_reply_to_tweet_id := None |} in
     result <- platform (V2_tweet tweetPayload)
                        (fun k t => v2_tweet env k t tweetPayload) ;;
     ret tt)
    (fun error =>
       emit (fun t => EvError t "Failed to post tweet:" error) ;;
       throw error).

(** The terminal error of [postTweetWithRetry]:
    [lastError?.message || 'Unknown error'] *)
Definition retries_exhausted (lastError : option Thrown) : Thrown :=
  Error ("Failed to post tweet after " ++ show (maxRetries config) ++ " attempts: "
         ++ or_else (match lastError with
                     | Some e => message_of e
                     | None => None
                     end) "Unknown error")%string.

(** The [while] loop of [postTweetWithRetry], from its guard.  [fuel]
    bounds the number of guard evaluations. *)
Fixpoint postTweetWithRetry_loop (content : jsstring) (fuel : nat)
         (attempt : Z) (lastError : option Thrown) : M unit :=
  match fuel with
  | O => out_of_fuel
  | S fuel' =>
      if attempt <? maxRetries config then
        r <- settle
               (emit (fun t => EvAttempt t (attempt + 1) (maxRetries config)) ;;
                postTweet content no_options) ;;
        match r with
        | Ok _ => ret tt
        | OutOfFuel => out_of_fuel
        | Throw error =>
            let lastError := Some error in
            let attempt := attempt + 1 in
            let continue := postTweetWithRetry_loop content fuel' attempt lastError in
            let backoff :=
              (if attempt <? maxRetries config
               then delay (retryDelay config * 2 ^ attempt)
               else ret tt) ;;
              continue in
            match error with
            | ApiResponseError code _ _ _ =>
                if code =? 429 then
                  match truthy_number (getRateLimitReset error) with
                  | Some resetTime =>
                      now <- Date_now ;;
                      let waitTime := resetTime - now in
                      if 0 <? waitTime
                      then delay waitTime ;; continue
                      else backoff
                  | None => backoff
                  end
                else backoff
            | _ => backoff
            end
        end
      else throw (retries_exhausted lastError)
  end.

Definition postTweetWithRetry (content : jsstring) : M unit :=
  postTweetWithRetry_loop content (S (Z.to_nat (maxRetries config))) 0 None.

Definition handleAuthError (error : Thrown) (context : string) : M unit :=
  let label :=
    match error with
    | ApiResponseError code _ _ _ =>
        if code =? 401 then
          (context ++ " failed: Unauthorized. Check your credentials.")%string
        else if code =? 403 then
          (context ++ " failed: Forbidden. Check your API permissions.")%string
        else if code =? 429 then
          (context ++ " failed: Rate limit exceeded. Try again later.")%string
        else (context ++ " failed with code " ++ show code ++ ":")%string
    | ApiRequestError _ => (context ++ " failed: Request error.")%string
    | ApiPartialResponseError _ => (context ++ " failed: Partial response error.")%string
    | _ => (context ++ " failed with unexpected error:")%string
    end in
  emit (fun t => EvError t label error).

Definition verifyUserAuth : M unit :=
  try_catch
    (me <- platform V2_me (v2_me env) ;;
     f <- get_this ;;
     put_this (set_userId (Some (user_id me)) f))
    (fun error =>
       handleAuthError error "User authentication" ;;
       throw error).

(** The [while] loop of [initializeWithRetry], from its guard. *)
Fixpoint initializeWithRetry_loop (maxRetries : Z) (fuel : nat) (attempt : Z) : M unit :=
  match fuel with
  | O => out_of_fuel
  | S fuel' =>
      if attempt <? maxRetries then
        r <- settle verifyUserAuth ;;
        match r with
        | Ok _ => ret tt
        | OutOfFuel => out_of_fuel
        | Throw error =>
            let attempt := attempt + 1 in
            match error with
            | ApiResponseError code _ _ _ =>
                if code =? 429 then
                  match truthy_number (getRateLimitReset error) with
                  | Some resetTime =>
                      now <- Date_now ;;
                      let waitTime := resetTime - now in
                      if 0 <? waitTime
                      then delay waitTime ;;
                           initializeWithRetry_loop maxRetries fuel' attempt
                      else throw error
                  | None => throw error
                  end
                else throw error
            | _ => throw error
            end
        end
      else throw (Error ("Failed to initialize after " ++ show maxRetries ++ " attempts")%string)
  end.

Definition initializeWithRetry (maxRetries : Z) : M unit :=
  initializeWithRetry_loop maxRetries (S (Z.to_nat maxRetries)) 0.

Definition initialize : M unit :=
  try_catch
    (if mockMode config then ret tt else initializeWithRetry 3)
    (fun error =>
       let msg := if instanceof_Error error
                  then match message_of error with Some m => m | None => EmptyString end
                  else "Unknown error"%string in
       emit (fun t => EvError t ("Failed to initialize Twitter service: " ++ msg)%string error) ;;
       throw error).

(** [validateTweetContent]: the emoji count is the number of code points in
    U+1F600..U+1F64F, the hashtag count the number of [#] code units. *)
Definition validateTweetContent (content : jsstring) : Res unit :=
  let maxEmojis := maxEmojis (contentRules config) in
  let maxHashtags := maxHashtags (contentRules config) in
  let emojiCount := count_code_points_in 0x1F600 0x1F64F content in
  let hashtagCount := count_code_unit 35 content in
  if maxEmojis <? emojiCount then
    Throw (Error ("Tweet contains too many emojis. Maximum allowed is "
                  ++ show maxEmojis ++ ".")%string)
  else if maxHashtags <? hashtagCount then
    Throw (Error ("Tweet contains too many hashtags. Maximum allowed is "
                  ++ show maxHashtags ++ ".")%string)
  else Ok tt.

Definition shouldRetry (error : Thrown) (attempt : Z) : bool :=
  (attempt <? maxRetries config) &&
  match error with
  | ApiResponseError code _ rateLimitError _ => rateLimitError || (code =? 429)
  | _ => false
  end.

(** The [while] loop of [tweet], from its guard. *)
Fixpoint tweet_loop (content : jsstring) (options : Options) (fuel : nat)
         (attempt : Z) : M TweetResult :=
  match fuel with
  | O => out_of_fuel
  | S fuel' =>
      if attempt <? maxRetries config then
        r <- settle
               (mediaIds <- mediaIds_of options ;;
                let tweetPayload :=
                  {| text := content; media_ids := media_of mediaIds;
                     in_reply_to_tweet_id :=
                       if truthy_string (replyToTweetId options)
                       then replyToTweetId options else None |} in
                platform (V2_tweet tweetPayload)
                         (fun k t => v2_tweet env k t tweetPayload)) ;;
        match r with
        | Ok tweet => ret tweet
        | OutOfFuel => out_of_fuel
        | Throw error =>
            let attempt := attempt + 1 in
            if shouldRetry error attempt then
              delay (retryDelay config * attempt) ;;
              tweet_loop content options fuel' attempt
            else
              emit (fun t => EvError t "Failed to post tweet:" error) ;;
              throw error
        end
      else throw (Error ("Failed to post tweet after " ++ show (maxRetries config)
                         ++ " attempts")%string)
  end.

Definition tweet (content : jsstring) (options : Options) : M TweetResult :=
  if mockMode config then
    ret {| data_id := "mock_tweet_id"; data_text := content |}
  else
    lift (validateTweetContent content) ;;
    tweet_loop content options (S (Z.to_nat (maxRetries config))) 0.

Definition setupStreamRules : M unit :=
  try_catch
    (rules <- platform V2_streamRules (v2_streamRules env) ;;
     (match rules with                       (* if (rules.data?.length) *)
      | [] => ret tt
      | _ => platform (V2_updateStreamRules (DeleteRules rules))
                      (fun k t => v2_updateStreamRules env k t (DeleteRules rules))
      end) ;;
     me <- platform V2_me (v2_me env) ;;
     let rule := AddRule ("@" ++ username me)%string "mentions" in
     platform (V2_updateStreamRules rule)
              (fun k t => v2_updateStreamRules env k t rule))
    (fun error =>
       emit (fun t => EvError t "Failed to configure stream rules:" error) ;;
       throw error).

Definition handleStreamSetupError (error : Thrown) : M unit :=
  let label :=
    match error with
    | ApiResponseError code _ _ _ =>
        if code =? 403 then "Stream setup failed: Access forbidden"%string
        else if code =? 429 then
          "Stream setup failed: Rate limit exceeded. Please try again later."%string
        else "Stream setup failed:"%string
    | _ => "Unexpected error during stream setup:"%string
    end in
  emit (fun t => EvError t label error).

(** [startStream].  The [data] and [error] listeners it registers are the
    entry points [handleStreamData] and [handleStreamError] below. *)
Definition startStream : M unit :=
  f <- get_this ;;
  if isStreaming f then ret tt
  else
    try_catch
      (setupStreamRules ;;
       platform V2_searchStream (v2_searchStream env) ;;
       f <- get_this ;;
       put_this (set_isStreaming true f))
      (fun error =>
         let forbidden :=
           match error with
           | ApiResponseError code _ _ _ => code =? 403
           | _ => false
           end in
         if forbidden then ret tt      (* streaming disabled, only a warning *)
         else handleStreamSetupError error ;; throw error).

Definition handleStreamData (tweet_ : StreamTweet) : M unit :=
  try_catch
    (f <- get_this ;;
     (if truthy_string (userId f) then ret tt     (* if (!this.userId) *)
      else me <- platform V2_me (v2_me env) ;;
           f <- get_this ;;
           put_this (set_userId (Some (user_id me)) f)) ;;
     f <- get_this ;;
     if match userId f with
        | Some u => String.eqb (st_author_id tweet_) u
        | None => false
        end
     then ret tt
     else
       let request := {| ai_content := st_text tweet_; ai_platform := "twitter";
                         ai_author := st_author_id tweet_ |} in
       response <- platform (AI_generateResponse request)
                            (fun k t => generateResponse env k t request) ;;
       match response with                         (* if (response) *)
       | [] => ret tt
       | _ => tweet response {| mediaUrls := None;
                                replyToTweetId := Some (st_id tweet_) |} ;;
              ret tt
       end)
    (fun error =>
       emit (fun t => EvError t "Error processing stream data:" error)).

(** [handleStreamError]: the restart is left to a timer, whose callback is
    [streamRestartTimer]. *)
Definition handleStreamError (error : Thrown) : M unit :=
  emit (fun t => EvError t "Stream error:" error) ;;
  f <- get_this ;;
  put_this (set_isStreaming false f) ;;
  arm_timer (retryDelay config) ;;
  ret tt.

Definition streamRestartTimer : M unit :=
  f <- get_this ;;
  if isStreaming f then ret tt
  else try_catch startStream
         (fun e => emit (fun t => EvError t "Failed to restart stream:" e)).

(** The body shared by the market handlers: format the data, ask the AI
    collaborator for a text built by [prompt], tweet it. *)
Definition marketTweet (token : string) (prompt : jsstring -> jsstring) : M unit :=
  marketData <- platform (Data_formatForAI token) (fun k t => formatForAI env k t token) ;;
  let request := {| ai_content := prompt marketData; ai_platform := "twitter";
                    ai_author := "system" |} in
  content <- platform (AI_generateResponse request)
                      (fun k t => generateResponse env k t request) ;;
  tweet content no_options ;;
  ret tt.

(** The listeners that [setupMarketMonitoring] registers on the price
    monitor. *)
Definition onSignificantMovement (tokenAddress : string) (analysis : jsstring) : M unit :=
  try_catch
    (marketTweet tokenAddress
       (fun marketData =>
          lit "Generate market movement tweet:" ++ [10] ++ marketData
          ++ [10] ++ lit "Analysis: " ++ analysis))
    (fun error => emit (fun t => EvError t "Failed to tweet market movement:" error)).

(** [condition] and [price] are the renderings of [alert.condition] and
    [pricePoint.price]. *)
Definition onAlertTriggered (alertToken : string) (condition price : jsstring) : M unit :=
  try_catch
    (marketTweet alertToken
       (fun marketData =>
          lit "Generate price alert tweet:" ++ [10] ++ marketData
          ++ [10] ++ lit "Alert: " ++ condition ++ lit " at " ++ price))
    (fun error => emit (fun t => EvError t "Failed to tweet price alert:" error)).

Definition marketUpdatePrompt (formattedData : jsstring) : jsstring :=
  lit "Generate market update tweet with this data:" ++ [10] ++ formattedData.

(** The callback of the interval armed by [startMarketUpdates]. *)
Definition marketUpdateTick (tokenAddress : string) : M unit :=
  try_catch
    (marketTweet tokenAddress marketUpdatePrompt)
    (fun error => emit (fun t => EvError t "Failed to post market update:" error)).

Definition startMarketUpdates (tokenAddress : string) (interval : Z) : M unit :=
  try_catch
    (platform (Price_startMonitoring tokenAddress)
              (fun k t => startMonitoring env k t tokenAddress) ;;
     h <- arm_timer interval ;;
     f <- get_this ;;
     put_this (set_marketUpdateInterval (Some h) f))
    (fun error =>
       emit (fun t => EvError t "Failed to start market updates:" error) ;;
       throw error).

Definition stopMarketUpdates : M unit :=
  f <- get_this ;;
  (match marketUpdateInterval f with
   | Some _ => put_this (set_marketUpdateInterval None f)   (* clearInterval *)
   | None => ret tt
   end) ;;
  platform Price_cleanup (cleanup env).

Definition publishMarketUpdate (tokenAddress : string) : M unit :=
  try_catch
    (marketTweet tokenAddress marketUpdatePrompt)
    (fun error =>
       emit (fun t => EvError t "Failed to publish market update:" error) ;;
       throw error).

Definition stop : M unit := ret tt.

(** *** Entry points

    Every way into the service after construction: the methods of the class
    and the callbacks it hands to timers, to the stream and to the price
    monitor. *)
Inductive Entry : Type :=
| E_postTweet (content : jsstring) (options : Options)
| E_postTweetWithRetry (content : jsstring)
| E_uploadMedia (urls : list string)
| E_onSignificantMovement (tokenAddress : string) (analysis : jsstring)
| E_onAlertTriggered (alertToken : string) (condition price : jsstring)
| E_startMarketUpdates (tokenAddress : string) (interval : Z)
| E_marketUpdateTick (tokenAddress : string)
| E_stopMarketUpdates
| E_publishMarketUpdate (tokenAddress : string)
| E_initialize
| E_initializeWithRetry (maxRetries : Z)
| E_verifyUserAuth
| E_handleAuthError (error : Thrown) (context : string)
| E_tweet (content : jsstring) (options : Options)
| E_delay (ms : Z)
| E_startStream
| E_setupStreamRules
| E_handleStreamData (tweet_ : StreamTweet)
| E_handleStreamError (error : Thrown)
| E_streamRestartTimer
| E_handleStreamSetupError (error : Thrown)
| E_stop.

Definition invoke (e : Entry) : M unit :=
  match e with
  | E_postTweet content options => postTweet content options
  | E_postTweetWithRetry content => postTweetWithRetry content
  | E_uploadMedia urls => forget (uploadMedia urls)
  | E_onSignificantMovement tokenAddress analysis =>
      onSignificantMovement tokenAddress analysis
  | E_onAlertTriggered alertToken condition price =>
      onAlertTriggered alertToken condition price
  | E_startMarketUpdates tokenAddress interval => startMarketUpdates tokenAddress interval
  | E_marketUpdateTick tokenAddress => marketUpdateTick tokenAddress
  | E_stopMarketUpdates => stopMarketUpdates
  | E_publishMarketUpdate tokenAddress => publishMarketUpdate tokenAddress
  | E_initialize => initialize
  | E_initializeWithRetry maxRetries => initializeWithRetry maxRetries
  | E_verifyUserAuth => verifyUserAuth
  | E_handleAuthError error context => handleAuthError error context
  | E_tweet content options => forget (tweet content options)
  | E_delay ms => delay ms
  | E_startStream => startStream
  | E_setupStreamRules => setupStreamRules
  | E_handleStreamData tweet_ => handleStreamData tweet_
  | E_handleStreamError error => handleStreamError error
  | E_streamRestartTimer => streamRestartTimer
  | E_handleStreamSetupError error => handleStreamSetupError error
  | E_stop => stop
  end.

(** *** Vocabulary of the retry wrapper *)

(** One try of [postTweetWithRetry]: the body of its [try] block at attempt
    counter [attempt]. *)
Definition attempt_op (content : jsstring) (attempt : Z) : M unit :=
  emit (fun t => EvAttempt t (attempt + 1) (maxRetries config)) ;;
  postTweet content no_options.

(** The time the rate-limit branch waits, [None] when the branch is not
    taken: the error is an [ApiResponseError] with code 429 whose reset time,
    in milliseconds, is truthy and later than [now]. *)
Definition rate_limit_wait (error : Thrown) (now : Z) : option Z :=
  match error with
  | ApiResponseError code _ _ _ =>
      if code =? 429 then
        match truthy_number (getRateLimitReset error) with
        | Some resetTime =>
            if 0 <? resetTime - now then Some (resetTime - now) else None
        | None => None
        end
      else None
  | _ => None
  end.

End Methods.

(** *** Vocabulary of the properties *)

Definition is_attempt (ev : Event) : bool :=
  match ev with EvAttempt _ _ _ => true | _ => false end.

(** The number of tries announced in a log. *)
Definition attempts (l : list Event) : nat := List.length (filter is_attempt l).

(** The delays slept through in a log, in order. *)
Definition sleeps (l : list Event) : list Z :=
  flat_map (fun ev => match ev with EvSleep _ ms => [ms] | _ => [] end) l.

(** The payloads submitted to the platform in a log, in order. *)
Definition submitted (l : list Event) : list TweetPayload :=
  flat_map (fun ev => match ev with EvCall _ (V2_tweet p) => [p] | _ => [] end) l.

(** An [ApiResponseError] with code 429. *)
Definition is_rate_limit_error (e : Thrown) : bool :=
  match e with
  | ApiResponseError code _ _ _ => code =? 429
  | _ => false
  end.

(** Every submission is rejected with a rate-limit error whose reset header
    is present and, in milliseconds, later than the time the rejection
    arrives. *)
Definition always_rate_limited (env : Env) : Prop :=
  forall k t p, exists reset rateLimitError message,
    snd (v2_tweet env k t p)
    = Rejected (ApiResponseError 429 (Some reset) rateLimitError message)
    /\ reset <> 0
    /\ t + Z.of_nat (fst (v2_tweet env k t p)) < reset * 1000.

(** [postTweet content] fails whenever it is tried, never with a rate-limit
    error. *)
Definition always_fails_otherwise (env : Env) (content : jsstring) : Prop :=
  forall w, exists e w',
    postTweet env content no_options w = (Throw e, w')
    /\ is_rate_limit_error e = false.

(** The payload [postTweet] and [tweet] build when no option is given. *)
Definition payload_of (content : jsstring) : TweetPayload :=
  {| text := content; media_ids := None; in_reply_to_tweet_id := None |}.

(** The world once the submission of [content] has settled. *)
Definition after_call (env : Env) (content : jsstring) (w : World) : World :=
  {| now := now w + Z.of_nat (fst (v2_tweet env (calls w) (now w) (payload_of content)));
     calls := S (calls w); timers := timers w;
     log := log w ++ [EvCall (now w) (V2_tweet (payload_of content))];
     this := this w |}.

(** The world once [postTweet] has reported the error it rethrows. *)
Definition reported (e : Thrown) (w : World) : World :=
  set_log (log w ++ [EvError (now w) "Failed to post tweet:" e]) w.

(** A log respects the reset times it shows: from [barrier] on, no attempt
    is announced before [barrier], nor before the reset time of an earlier
    reported error on which the rate-limit branch waits for a time that
    [setTimeout] honours. *)
Fixpoint respects_resets (barrier : Z) (l : list Event) : Prop :=
  match l with
  | [] => True
  | EvAttempt t _ _ :: l' => barrier <= t /\ respects_resets barrier l'
  | EvError t _ e :: l' =>
      respects_resets
        (match rate_limit_wait e t with
         | Some ms => if ms <=? 2147483647 then Z.max barrier (t + ms) else barrier
         | None => barrier
         end) l'
  | _ :: l' => respects_resets barrier l'
  end.

(** The two fields behind [getTweetCount] and [getRemainingTweets]. *)
Definition counters (f : Fields) : Z * Z := (tweetCount f, MONTHLY_TWEET_LIMIT f).

(** A computation that leaves them as they are, whatever happens. *)
Definition keeps_counters {A} (m : M A) : Prop :=
  preserves (fun w => counters (this w)) m.

(** The states of a service built by the constructor and then entered any
    number of times. *)
Inductive reachable (env : Env) (config : Config) : World -> Prop :=
| reachable_new (raw : RawConfig) (fields : Fields) (t0 : Z) :
    constructor raw = Ok (config, fields) ->
    reachable env config {| now := t0; calls := 0; timers := 0; log := []; this := fields |}
| reachable_invoke (w : World) (e : Entry) (r : Res unit) (w' : World) :
    reachable env config w ->
    invoke env config e w = (r, w') ->
    reachable env config w'.

(** The events a computation adds to the log of the world it starts in. *)
Definition added {A} (m : M A) (w : World) : list Event :=
  skipn (List.length (log w)) (log (snd (m w))).

(** The external calls a log shows, in order. *)
Definition external_calls (l : list Event) : list ExtCall :=
  flat_map (fun ev => match ev with EvCall _ c => [c] | _ => [] end) l.

(** The code points [validateTweetContent] counts as emoji. *)
Definition is_emoji (c : Z) : bool := (0x1F600 <=? c) && (c <=? 0x1F64F).

(** The two UTF-16 code units of such a code point. *)
Definition emoji_units (c : Z) : jsstring := [0xD83D; 0xDE00 + (c - 0x1F600)].

Definition emojis (cs : list Z) : jsstring := flat_map emoji_units cs.

(** A code unit below the surrogates that is not [#]. *)
Definition plain_unit (u : Z) : bool := (0 <=? u) && (u <? 0xD800) && negb (u =? 35).

(** The error of the validation in [postTweet], [None] for content it lets
    through. *)
Definition postTweet_rejection (content : jsstring) : option Thrown :=
  match content with
  | [] => Some (Error "Tweet content cannot be empty")
  | _ => if 280 <? Z.of_nat (List.length content)
         then Some (Error "Tweet exceeds 280 characters")
         else None
  end.

(** What [shouldRetry] asks of the error itself. *)
Definition retryable (e : Thrown) : bool :=
  match e with
  | ApiResponseError code _ rateLimitError _ => rateLimitError || (code =? 429)
  | _ => false
  end.

(** Every submission is rejected with an error of that kind. *)
Definition always_rejected_retryable (env : Env) : Prop :=
  forall k t p, exists e, snd (v2_tweet env k t p) = Rejected e /\ retryable e = true.

(** The delays [retryDelay * 2 ^ 1], ..., [retryDelay * 2 ^ n]. *)
Definition exponential_backoff (retryDelay : Z) (n : nat) : list Z :=
  map (fun k => retryDelay * 2 ^ Z.of_nat k) (seq 1 n).

(** The delays [retryDelay * 1], ..., [retryDelay * n]. *)
Definition linear_backoff (retryDelay : Z) (n : nat) : list Z :=
  map (fun k => retryDelay * Z.of_nat k) (seq 1 n).

(** A computation only appends to the log, and every event it appends
    satisfies [P]. *)
Definition logs {A} (P : Event -> Prop) (m : M A) : Prop :=
  forall w, exists new, log (snd (m w)) = log w ++ new /\ Forall P new.

(** An event that, if it is a submission to [v2.tweet], submits a payload
    satisfying [Q]. *)
Definition submits_only (Q : TweetPayload -> Prop) (ev : Event) : Prop :=
  match ev with
  | EvCall _ (V2_tweet p) => Q p
  | _ => True
  end.

(** The reply target [tweet] puts in the payload. *)
Definition reply_target (options : Options) : option string :=
  if truthy_string (replyToTweetId options) then replyToTweetId options else None.

End TwitterService.

(** ** AgentTwitterClientService (scraper client) *)
Module AgentTwitterClientService.

Open Scope js_scope.

(** Strings of this service are only concatenated and tested on their first
    character, so they are kept as [string]; [console] output is not
    modelled. *)

(** The [Scraper] of [agent-twitter-client], an opaque handle. *)
Inductive Scraper : Type := ScraperInstance.

(** The [TwitterStreamHandler], an opaque handle. *)
Inductive TwitterStreamHandler : Type := StreamHandlerInstance.

(** The mutable fields of the service object. *)
Record Fields := {
  scraper : option Scraper;
  isInitialized : bool;
  monitoringInterval : option nat;
  isMonitoring : bool;
  streamHandler : option TwitterStreamHandler
}.

(** The readonly constructor parameters. *)
Record Credentials := {
  username : string;
  password : string;
  email : string
}.

(** [{ success: boolean; error?: Error }] *)
Record Response := { success : bool; error : option Thrown }.

(** An item yielded by [searchTweets]: of the [Tweet] of the scraper, the
    two properties the service reads and the creation time, which it does
    not. *)
Record Tweet := { tw_id : string; tw_text : option string; tw_timestamp : option Z }.

(** The event handed to the stream handler; [created_at] is the timestamp
    whose ISO rendering the source stores. *)
Record TweetEvent := { id : string; text : string; created_at : Z }.

(** The [Profile] of the scraper and the object [getProfile] returns. *)
Record Profile := {
  p_userId : option string;
  p_username : option string;
  p_name : option string;
  p_followersCount : option Z;
  p_friendsCount : option Z
}.

Record ProfileResult := {
  pr_id : string;
  pr_username : string;
  pr_name : option string;
  followers_count : option Z;
  following_count : option Z
}.

(** What the asynchronous generator of [searchTweets] does when asked for
    its next item. *)
Inductive GenStep : Type :=
| Yield (tweet : Tweet)
| GenThrow (e : Thrown).

(** Calls that leave the service. *)
Inductive ExtCall : Type :=
| Login (username password email : string)
| SendTweet (content : string)
| LikeTweet (tweetId : string)
| Retweet (tweetId : string)
| GetProfile (username : string)
| SearchTweets (query : string) (maxTweets : Z).

Inductive Event : Type :=
| EvCall (t : Z) (c : ExtCall)               (* a call on the scraper *)
| EvFetched (t : Z) (tweet : Tweet)          (* the generator yields an item *)
| EvDispatch (t : Z) (ev : TweetEvent)       (* streamHandler.handleTweetEvent(ev) *)
| EvTimer (t : Z) (ms : Z).                  (* setInterval armed *)

(** The closure state of one polling interval. *)
Record Poller := {
  handle : nat;
  lastChecked : Z;
  monitoring : bool      (* the local [isMonitoring] *)
}.

Record World := {
  now : Z;                 (* Date.now() *)
  calls : nat;             (* external calls issued so far *)
  timers : nat;            (* timers armed so far *)
  log : list Event;        (* chronological *)
  this : Fields;
  pollers : list Poller
}.

(** The platform and the stream handler.  The [k]-th external call, issued
    at time [t], takes [fst] milliseconds and has outcome [snd]; the
    generator of a search yields its steps one by one, each after the stated
    number of milliseconds. *)
Record Env := {
  sc_login : nat -> Z -> Credentials -> nat * Settled unit;
  sc_sendTweet : nat -> Z -> string -> nat * Settled unit;
  sc_likeTweet : nat -> Z -> string -> nat * Settled unit;
  sc_retweet : nat -> Z -> string -> nat * Settled unit;
  sc_getProfile : nat -> Z -> string -> nat * Settled Profile;
  sc_searchTweets : nat -> Z -> list (nat * GenStep);
  handleTweetEvent : nat -> Z -> TweetEvent -> nat * Settled unit
}.

Definition M : Type -> Type := Js.M World.

Definition set_now (t : Z) (w : World) : World :=
  {| now := t; calls := calls w; timers := timers w; log := log w;
     this := this w; pollers := pollers w |}.
Definition set_log (l : list Event) (w : World) : World :=
  {| now := now w; calls := calls w; timers := timers w; log := l;
     this := this w; pollers := pollers w |}.
Definition set_this (f : Fields) (w : World) : World :=
  {| now := now w; calls := calls w; timers := timers w; log := log w;
     this := f; pollers := pollers w |}.
Definition set_pollers (ps : list Poller) (w : World) : World :=
  {| now := now w; calls := calls w; timers := timers w; log := log w;
     this := this w; pollers := ps |}.

Definition emit (ev : Z -> Event) : M unit :=
  fun w => (Ok tt, set_log (log w ++ [ev (now w)]) w).

Definition Date_now : M Z := fun w => (Ok (now w), w).

Definition get_this : M Fields := fun w => (Ok (this w), w).
Definition put_this (f : Fields) : M unit := fun w => (Ok tt, set_this f w).

(** Time passes. *)
Definition elapse (dt : nat) : M unit :=
  fun w => (Ok tt, set_now (now w + Z.of_nat dt) w).

(** An awaited external call: logged when issued, it advances the clock by
    its latency. *)
Definition platform {A} (c : ExtCall) (oracle : nat -> Z -> nat * Settled A) : M A :=
  fun w =>
    let '(dt, r) := oracle (calls w) (now w) in
    (outcome r, {| now := now w + Z.of_nat dt; calls := S (calls w); timers := timers w;
           log := log w ++ [EvCall (now w) c]; this := this w;
           pollers := pollers w |}).

Definition get_pollers : M (list Poller) := fun w => (Ok (pollers w), w).
Definition put_pollers (ps : list Poller) : M unit := fun w => (Ok tt, set_pollers ps w).

Definition arm_timer (ms : Z) : M nat :=
  fun w =>
    (Ok (timers w), {| now := now w; calls := calls w; timers := S (timers w);
                       log := log w ++ [EvTimer (now w) ms]; this := this w;
                       pollers := pollers w |}).

Definition set_scraper (s : option Scraper) (f : Fields) : Fields :=
  {| scraper := s; isInitialized := isInitialized f;
     monitoringInterval := monitoringInterval f; isMonitoring := isMonitoring f;
     streamHandler := streamHandler f |}.
Definition set_isInitialized (b : bool) (f : Fields) : Fields :=
  {| scraper := scraper f; isInitialized := b;
     monitoringInterval := monitoringInterval f; isMonitoring := isMonitoring f;
     streamHandler := streamHandler f |}.
Definition set_streamHandler (h : option TwitterStreamHandler) (f : Fields) : Fields :=
  {| scraper := scraper f; isInitialized := isInitialized f;
     monitoringInterval := monitoringInterval f; isMonitoring := isMonitoring f;
     streamHandler := h |}.
Definition set_monitoring (i : option nat) (b : bool) (f : Fields) : Fields :=
  {| scraper := scraper f; isInitialized := isInitialized f;
     monitoringInterval := i; isMonitoring := b;
     streamHandler := streamHandler f |}.

(** The field initialisers of the class. *)
Definition new_fields : Fields :=
  {| scraper := None; isInitialized := false; monitoringInterval := None;
     isMonitoring := false; streamHandler := None |}.

Definition new_world (t0 : Z) : World :=
  {| now := t0; calls := 0; timers := 0; log := []; this := new_fields;
     pollers := [] |}.

(** [error instanceof Error ? error : new Error('Unknown error')] *)
Definition as_Error (error : Thrown) : Thrown :=
  if instanceof_Error error then error else Error "Unknown error".

(** [error instanceof Error ? error.message : 'Unknown error'] *)
Definition message_or_unknown (error : Thrown) : string :=
  if instanceof_Error error
  then match message_of error with Some m => m | None => EmptyString end
  else "Unknown error"%string.

Definition not_initialized : Thrown :=
  Error "AgentTwitterClientService not initialized. Call initialize() first.".

Definition succeeded : Response := {| success := true; error := None |}.
Definition failed (e : Thrown) : Response := {| success := false; error := Some e |}.

Section Methods.

Variable env : Env.
Variable credentials : Credentials.

Definition ensureInitialized : M unit :=
  f <- get_this ;;
  match isInitialized f, scraper f with
  | true, Some _ => ret tt
  | _, _ => throw not_initialized
  end.

Definition sendTweet (content : string) : M Response :=
  try_catch
    (ensureInitialized ;;
     f <- get_this ;;
     match scraper f with
     | Some _ =>
         platform (SendTweet content) (fun k t => sc_sendTweet env k t content) ;;
         ret succeeded
     | None => ret (failed (Error "Scraper not initialized"))
     end)
    (fun error => ret (failed (as_Error error))).

(** Alias of [sendTweet]. *)
Definition postTweet (content : string) : M Response :=
  sendTweet content.

Definition replyToTweet (tweetId content username : string) : M Response :=
  try_catch
    (ensureInitialized ;;
     f <- get_this ;;
     match scraper f with
     | Some _ =>
         let replyContent :=
           if String.prefix "@" username
           then (username ++ " " ++ content)%string
           else ("@" ++ username ++ " " ++ content)%string in
         platform (SendTweet replyContent)
                  (fun k t => sc_sendTweet env k t replyContent) ;;
         ret succeeded
     | None => ret (failed (Error "Scraper not initialized"))
     end)
    (fun error => ret (failed (as_Error error))).

Definition likeTweet (tweetId : string) : M Response :=
  try_catch
    (ensureInitialized ;;
     f <- get_this ;;
     match scraper f with
     | Some _ =>
         platform (LikeTweet tweetId) (fun k t => sc_likeTweet env k t tweetId) ;;
         ret succeeded
     | None => ret (failed (Error "Scraper not initialized"))
     end)
    (fun error => ret (failed (as_Error error))).

Definition retweet (tweetId : string) : M Response :=
  try_catch
    (ensureInitialized ;;
     f <- get_this ;;
     match scraper f with
     | Some _ =>
         platform (Retweet tweetId) (fun k t => sc_retweet env k t tweetId) ;;
         ret succeeded
     | None => ret (failed (Error "Scraper not initialized"))
     end)
    (fun error => ret (failed (as_Error error))).

Definition getProfile (username : string) : M ProfileResult :=
  ensureInitialized ;;
  try_catch
    (f <- get_this ;;
     match scraper f with
     | Some _ =>
         profile <- platform (GetProfile username)
                             (fun k t => sc_getProfile env k t username) ;;
         ret {| pr_id := or_else (p_userId profile) EmptyString;
                pr_username := or_else (p_username profile) EmptyString;
                pr_name := p_name profile;
                followers_count := p_followersCount profile;
                following_count := p_friendsCount profile |}
     | None => throw (Error "Scraper not initialized")
     end)
    (fun error =>
       throw (Error ("Failed to get profile: " ++ message_or_unknown error)%string)).

(** The event built from a fetched item and the time it is observed. *)
Definition tweetEvent_of (tweet : Tweet) (tweetTimestamp : Z) : TweetEvent :=
  {| id := tw_id tweet;
     text := or_else (tw_text tweet) EmptyString;
     created_at := tweetTimestamp |}.

(** The stream handler at work on an event, awaited: the event it is
    handed is logged, and the call settles as the handler decides. *)
Definition handler_call (tweetEvent : TweetEvent) : M unit :=
  fun w =>
    let '(dt, r) := handleTweetEvent env (calls w) (now w) tweetEvent in
    (outcome r, {| now := now w + Z.of_nat dt; calls := S (calls w); timers := timers w;
                   log := log w ++ [EvDispatch (now w) tweetEvent];
                   this := this w; pollers := pollers w |}).

(** [await this.streamHandler?.handleTweetEvent(tweetEvent)] *)
Definition dispatch (tweetEvent : TweetEvent) : M unit :=
  f <- get_this ;;
  match streamHandler f with
  | Some _ => handler_call tweetEvent
  | None => ret tt
  end.

(** [for await (const tweet of tweetGenerator) { ... }] of the polling
    callback, by recursion on the steps the generator still has to take. *)
Fixpoint forAwait (isMonitoring : bool) (lastChecked : Z)
         (tweetGenerator : list (nat * GenStep)) : M unit :=
  match tweetGenerator with
  | [] => ret tt
  | (dt, step) :: rest =>
      elapse dt ;;
      match step with
      | GenThrow e => throw e
      | Yield tweet =>
          emit (fun t => EvFetched t tweet) ;;
          if negb isMonitoring then ret tt            (* break *)
          else
            tweetTimestamp <- Date_now ;;             (* current time, for polling *)
            (if lastChecked <? tweetTimestamp
             then dispatch (tweetEvent_of tweet tweetTimestamp)
             else ret tt) ;;
            forAwait isMonitoring lastChecked rest
      end
  end.

(** The callback of [setInterval] in [startStream], on the closure state
    [isMonitoring], [lastChecked]; it returns the new [lastChecked]. *)
Definition pollTick (isMonitoring : bool) (lastChecked : Z) : M Z :=
  if negb isMonitoring then ret lastChecked
  else
    try_catch
      (f <- get_this ;;
       (match scraper f with
        | Some _ => ret tt
        | None => throw (Error "TypeError")      (* this.scraper is null *)
        end) ;;
       tweetGenerator <-
         platform (SearchTweets EmptyString 20)
                  (fun k t => (0%nat, Fulfilled (sc_searchTweets env k t))) ;;
       forAwait isMonitoring lastChecked tweetGenerator ;;
       Date_now)
      (fun error => ret lastChecked).

Definition startStream : M unit :=
  f <- get_this ;;
  match scraper f, streamHandler f with
  | Some _, Some _ =>
      lastChecked <- Date_now ;;
      let isMonitoring := true in
      pollInterval <- arm_timer 30000 ;;
      ps <- get_pollers ;;
      put_pollers (ps ++ [{| handle := pollInterval; lastChecked := lastChecked;
                             monitoring := isMonitoring |}]) ;;
      f <- get_this ;;
      put_this (set_monitoring (Some pollInterval) isMonitoring f)
  | _, _ =>
      throw (Error "Cannot start stream: Twitter client or stream handler not initialized")
  end.

Definition initialize : M unit :=
  try_catch
    (f <- get_this ;;
     put_this (set_scraper (Some ScraperInstance) f) ;;
     platform (Login (username credentials) (password credentials) (email credentials))
              (fun k t => sc_login env k t credentials) ;;
     f <- get_this ;;
     put_this (set_streamHandler (Some StreamHandlerInstance) f) ;;
     startStream ;;
     f <- get_this ;;
     put_this (set_isInitialized true f))
    (fun error =>
       throw (Error ("Twitter client initialization failed: "
                     ++ message_or_unknown error)%string)).

(** The interval [h] fires: its callback runs on its closure state and
    leaves the new [lastChecked] there. *)
Fixpoint fire (h : nat) (ps : list Poller) : M (list Poller) :=
  match ps with
  | [] => ret []
  | p :: rest =>
      if Nat.eqb (handle p) h then
        t <- pollTick (monitoring p) (lastChecked p) ;;
        ret ({| handle := handle p; lastChecked := t; monitoring := monitoring p |} :: rest)
      else
        rest' <- fire h rest ;;
        ret (p :: rest')
  end.

Definition pollIntervalFired (h : nat) : M unit :=
  ps <- get_pollers ;;
  ps' <- fire h ps ;;
  put_pollers ps'.

(** *** Entry points *)
Inductive Entry : Type :=
| E_initialize
| E_sendTweet (content : string)
| E_postTweet (content : string)
| E_replyToTweet (tweetId content username : string)
| E_likeTweet (tweetId : string)
| E_retweet (tweetId : string)
| E_startStream
| E_getProfile (username : string)
| E_pollIntervalFired (h : nat).

Definition invoke (e : Entry) : M unit :=
  match e with
  | E_initialize => initialize
  | E_sendTweet content => forget (sendTweet content)
  | E_postTweet content => forget (postTweet content)
  | E_replyToTweet tweetId content username =>
      forget (replyToTweet tweetId content username)
  | E_likeTweet tweetId => forget (likeTweet tweetId)
  | E_retweet tweetId => forget (retweet tweetId)
  | E_startStream => startStream
  | E_getProfile username => forget (getProfile username)
  | E_pollIntervalFired h => pollIntervalFired h
  end.

End Methods.

(** *** Vocabulary of the properties *)

(** The items a log shows as fetched, each with the time it was observed. *)
Definition fetched (l : list Event) : list (Tweet * Z) :=
  flat_map (fun ev => match ev with EvFetched t tweet => [(tweet, t)] | _ => [] end) l.

(** The events a log shows as handed to the stream handler. *)
Definition dispatched (l : list Event) : list TweetEvent :=
  flat_map (fun ev => match ev with EvDispatch _ e => [e] | _ => [] end) l.

(** The calls on the scraper a log shows. *)
Definition scraper_calls (l : list Event) : list ExtCall :=
  flat_map (fun ev => match ev with EvCall _ c => [c] | _ => [] end) l.

(** The events a computation adds to the log of the world it starts in. *)
Definition added {A} (m : M A) (w : World) : list Event :=
  skipn (List.length (log w)) (log (snd (m w))).

(** [ensureInitialized] lets the caller through. *)
Definition ready (f : Fields) : bool :=
  isInitialized f && match scraper f with Some _ => true | None => false end.

(** The text [replyToTweet] submits. *)
Definition reply_text (username content : string) : string :=
  if String.prefix "@" username
  then (username ++ " " ++ content)%string
  else ("@" ++ username ++ " " ++ content)%string.

(** The response of a facade operation whose call on the scraper settled as
    [s]. *)
Definition response_to {A} (s : Settled A) : Response :=
  match s with
  | Fulfilled _ => succeeded
  | Rejected e => failed (as_Error e)
  end.

(** The object [getProfile] builds from the profile of the scraper. *)
Definition profile_result (profile : Profile) : ProfileResult :=
  {| pr_id := or_else (p_userId profile) EmptyString;
     pr_username := or_else (p_username profile) EmptyString;
     pr_name := p_name profile;
     followers_count := p_followersCount profile;
     following_count := p_friendsCount profile |}.

(** The world once a call on the scraper that took [dt] ms has settled. *)
Definition called (c : ExtCall) (dt : nat) (w : World) : World :=
  {| now := now w + Z.of_nat dt; calls := S (calls w); timers := timers w;
     log := log w ++ [EvCall (now w) c]; this := this w; pollers := pollers w |}.

(** The world [dt] milliseconds later, the service idle in between; the
    clock never goes back. *)
Definition later (dt : Z) (w : World) : World :=
  set_now (now w + Z.max 0 dt) w.

(** The world once the generator has yielded [tweet] after [dt] ms. *)
Definition fetched_after (dt : nat) (tweet : Tweet) (w : World) : World :=
  {| now := now w + Z.of_nat dt; calls := calls w; timers := timers w;
     log := log w ++ [EvFetched (now w + Z.of_nat dt) tweet];
     this := this w; pollers := pollers w |}.

(** The time a generator takes to run through its steps. *)
Definition duration (gen : list (nat * GenStep)) : Z :=
  Z.of_nat (list_sum (map fst gen)).

(** Every step of the generator yields an item. *)
Definition yields_only (gen : list (nat * GenStep)) : Prop :=
  Forall (fun step => exists tweet, snd step = Yield tweet) gen.

(** Some step of the generator throws. *)
Definition throws_somewhere (gen : list (nat * GenStep)) : Prop :=
  Exists (fun step => exists e, snd step = GenThrow e) gen.

(** The stream handler fulfils, respectively rejects, every call. *)
Definition handler_fulfils (env : Env) : Prop :=
  forall k t ev, snd (handleTweetEvent env k t ev) = Fulfilled tt.
Definition handler_rejects (env : Env) : Prop :=
  forall k t ev, exists e, snd (handleTweetEvent env k t ev) = Rejected e.

(** An item is newer than the last check. *)
Definition newer (lastChecked : Z) (item : Tweet * Z) : bool :=
  lastChecked <? snd item.

Definition event_of (item : Tweet * Z) : TweetEvent :=
  tweetEvent_of (fst item) (snd item).

(** The histories in which no call of [initialize] has completed
    successfully. *)
Inductive never_initialized (env : Env) (credentials : Credentials) : World -> Prop :=
| never_new (t0 : Z) :
    never_initialized env credentials (new_world t0)
| never_invoke (w : World) (e : Entry) (r : Res unit) (w' : World) :
    never_initialized env credentials w ->
    invoke env credentials e w = (r, w') ->
    (e = E_initialize -> r <> Ok tt) ->
    never_initialized env credentials w'.

(** The states of a new service entered any number of times. *)
Inductive reachable (env : Env) (credentials : Credentials) : World -> Prop :=
| reachable_new (t0 : Z) :
    reachable env credentials (new_world t0)
| reachable_invoke (w : World) (e : Entry) :
    reachable env credentials w ->
    reachable env credentials (snd (invoke env credentials e w)).

(** The handles of the polling intervals, oldest first. *)
Definition intervals (ps : list Poller) : list nat := map handle ps.

(** A computation during which the clock does not go back. *)
Definition advances {A} (m : M A) : Prop :=
  forall w, now w <= now (snd (m w)).

(** A computation whose normal result is the time at which it ends. *)
Definition reads_clock (m : M Z) : Prop :=
  forall w t, fst (m w) = Ok t -> t = now (snd (m w)).

End AgentTwitterClientService.

(** ** Concrete worlds *)
Module Scenarios.

Import TwitterService.

(** A platform on which everything but [v2.tweet] succeeds at once, with
    punctual timers. *)
Definition quiet_env (tw : nat -> Z -> TweetPayload -> nat * Settled TweetResult) : Env :=
  {| v2_tweet := tw;
     v1_uploadMedia := fun _ _ url => (0%nat, Fulfilled url);
     v2_me := fun _ _ => (0%nat, Fulfilled {| user_id := "1"; username := "bot" |});
     v2_streamRules := fun _ _ => (0%nat, Fulfilled []);
     v2_updateStreamRules := fun _ _ _ => (0%nat, Fulfilled tt);
     v2_searchStream := fun _ _ => (0%nat, Fulfilled tt);
     generateResponse := fun _ _ r => (0%nat, Fulfilled (ai_content r));
     formatForAI := fun _ _ _ => (0%nat, Fulfilled []);
     startMonitoring := fun _ _ _ => (0%nat, Fulfilled tt);
     cleanup := fun _ _ => (0%nat, Fulfilled tt);
     timer_lag := fun _ _ => 0%nat |}.

(** The platform accepts every tweet. *)
Definition env_accepting : Env :=
  quiet_env (fun k _ p => (0%nat, Fulfilled {| data_id := show (Z.of_nat k);
                                                data_text := text p |})).

(** Every tweet is rejected, after 7 ms, with a rate-limit error that resets
    at least a minute later. *)
Definition env_429 : Env :=
  quiet_env (fun _ t _ =>
    (7%nat, Rejected (ApiResponseError 429 (Some (Z.max 0 t / 1000 + 60)) true
                                       "Too Many Requests"))).

(** Every tweet is rejected, after 7 ms, with a rate-limit error that resets
    30 days later. *)
Definition env_429_far : Env :=
  quiet_env (fun _ t _ =>
    (7%nat, Rejected (ApiResponseError 429 (Some (Z.max 0 t / 1000 + 2592000)) true
                                       "Too Many Requests"))).

(** Every tweet is rejected, after 7 ms, with a rate-limit error of code 420
    that resets a minute later. *)
Definition env_420 : Env :=
  quiet_env (fun _ t _ =>
    (7%nat, Rejected (ApiResponseError 420 (Some (Z.max 0 t / 1000 + 60)) true
                                       "Enhance Your Calm"))).

(** The authentication check is rejected in the same way. *)
Definition env_429_auth : Env :=
  {| v2_tweet := v2_tweet env_429;
     v1_uploadMedia := v1_uploadMedia env_429;
     v2_me := fun _ t =>
       (7%nat, Rejected (ApiResponseError 429 (Some (Z.max 0 t / 1000 + 60)) true
                                          "Too Many Requests"));
     v2_streamRules := v2_streamRules env_429;
     v2_updateStreamRules := v2_updateStreamRules env_429;
     v2_searchStream := v2_searchStream env_429;
     generateResponse := generateResponse env_429;
     formatForAI := formatForAI env_429;
     startMonitoring := startMonitoring env_429;
     cleanup := cleanup env_429;
     timer_lag := timer_lag env_429 |}.

(** Every tweet is rejected, after 7 ms, with a server error. *)
Definition env_500 : Env :=
  quiet_env (fun _ _ _ =>
    (7%nat, Rejected (ApiResponseError 500 None false "Internal Server Error"))).

(** The first tweet is rejected with a rate-limit error without reset
    information, the following ones are accepted. *)
Definition env_429_once : Env :=
  quiet_env (fun k _ p =>
    match k with
    | O => (0%nat, Rejected (ApiResponseError 429 None true "Too Many Requests"))
    | _ => (0%nat, Fulfilled {| data_id := "1"; data_text := text p |})
    end).

(** The configuration the constructor builds when no option is given. *)
Definition default_config : Config :=
  {| mockMode := false; maxRetries := 3; retryDelay := 5000;
     contentRules := {| maxEmojis := 0; maxHashtags := 0; minInterval := 300000 |} |}.

(** A configuration that leaves no try. *)
Definition config_without_retries : Config :=
  {| mockMode := false; maxRetries := 0; retryDelay := 5000;
     contentRules := {| maxEmojis := 0; maxHashtags := 0; minInterval := 300000 |} |}.

(** Mock mode, the rest as by default. *)
Definition mock_config : Config :=
  {| mockMode := true; maxRetries := 3; retryDelay := 5000;
     contentRules := {| maxEmojis := 0; maxHashtags := 0; minInterval := 300000 |} |}.

Definition credentials_only : RawConfig :=
  {| apiKey := "k"; apiSecret := "s"; accessToken := "t"; accessSecret := "a";
     bearerToken := "b"; oauthClientId := "i"; oauthClientSecret := "c";
     baseUrl := "https://api.twitter.com";
     raw_mockMode := None; raw_maxRetries := None; raw_retryDelay := None;
     raw_maxEmojis := None; raw_maxHashtags := None; raw_minInterval := None |}.

Definition new_fields : Fields :=
  {| userId := None; isStreaming := false; marketUpdateInterval := None;
     tweetCount := 0; MONTHLY_TWEET_LIMIT := 3000 |}.

Definition new_world (t0 : Z) : World :=
  {| now := t0; calls := 0; timers := 0; log := []; this := new_fields |}.

(** 281 times the letter a. *)
Definition overlong : jsstring := repeat 97 281.

End Scenarios.

Module AgentScenarios.

Import AgentTwitterClientService.
Local Open Scope string_scope.

Definition credentials : Credentials :=
  {| username := "bot"; password := "secret"; email := "bot@example.org" |}.

Definition alice : Profile :=
  {| p_userId := Some "42"; p_username := Some "alice"; p_name := None;
     p_followersCount := Some 7; p_friendsCount := None |}.

(** Three items, written 10 ms before and 5 and 20 ms after the time 1000. *)
Definition tweet_a : Tweet :=
  {| tw_id := "a"; tw_text := Some "first"; tw_timestamp := Some 990 |}.
Definition tweet_b : Tweet :=
  {| tw_id := "b"; tw_text := None; tw_timestamp := Some 1005 |}.
Definition tweet_c : Tweet :=
  {| tw_id := "c"; tw_text := Some "third"; tw_timestamp := Some 1020 |}.

(** Every call succeeds at once; a search yields three items, the first at
    once and the others 15 ms apart. *)
Definition env_accepting : Env :=
  {| sc_login := fun _ _ _ => (0%nat, Fulfilled tt);
     sc_sendTweet := fun _ _ _ => (0%nat, Fulfilled tt);
     sc_likeTweet := fun _ _ _ => (0%nat, Fulfilled tt);
     sc_retweet := fun _ _ _ => (0%nat, Fulfilled tt);
     sc_getProfile := fun _ _ _ => (0%nat, Fulfilled alice);
     sc_searchTweets := fun _ _ => [(0%nat, Yield tweet_a); (15%nat, Yield tweet_b);
                                    (15%nat, Yield tweet_c)];
     handleTweetEvent := fun _ _ _ => (0%nat, Fulfilled tt) |}.

(** The login succeeds, every other call is rejected: tweets with a value
    that is no [Error], the rest with an [Error]. *)
Definition env_rejecting : Env :=
  {| sc_login := fun _ _ _ => (0%nat, Fulfilled tt);
     sc_sendTweet := fun _ _ _ => (0%nat, Rejected NonError);
     sc_likeTweet := fun _ _ _ => (0%nat, Rejected (Error "not found"));
     sc_retweet := fun _ _ _ => (0%nat, Rejected (Error "not found"));
     sc_getProfile := fun _ _ _ => (0%nat, Rejected (Error "not found"));
     sc_searchTweets := fun _ _ => [(0%nat, GenThrow (Error "offline"))];
     handleTweetEvent := fun _ _ _ => (0%nat, Rejected (Error "handler")) |}.

(** As [env_accepting], with a stream handler that rejects every event. *)
Definition env_handler_failing : Env :=
  {| sc_login := sc_login env_accepting;
     sc_sendTweet := sc_sendTweet env_accepting;
     sc_likeTweet := sc_likeTweet env_accepting;
     sc_retweet := sc_retweet env_accepting;
     sc_getProfile := sc_getProfile env_accepting;
     sc_searchTweets := sc_searchTweets env_accepting;
     handleTweetEvent := fun _ _ _ => (0%nat, Rejected (Error "handler")) |}.

(** The login is refused. *)
Definition env_locked_out : Env :=
  {| sc_login := fun _ _ _ => (0%nat, Rejected (Error "bad credentials"));
     sc_sendTweet := fun _ _ _ => (0%nat, Fulfilled tt);
     sc_likeTweet := fun _ _ _ => (0%nat, Fulfilled tt);
     sc_retweet := fun _ _ _ => (0%nat, Fulfilled tt);
     sc_getProfile := fun _ _ _ => (0%nat, Fulfilled alice);
     sc_searchTweets := fun _ _ => [];
     handleTweetEvent := fun _ _ _ => (0%nat, Fulfilled tt) |}.

(** The world once [initialize] has run in a new service at time [t0]. *)
Definition initialized (env : Env) (t0 : Z) : World :=
  snd (initialize env credentials (new_world t0)).

End AgentScenarios.

(** * Properties of the monad *)
Module JsFacts.

Section Preserves.

Context {W X : Type} (obs : W -> X).

Lemma preserves_ret A (a : A) : preserves obs (@ret W A a).
Proof. intros w. reflexivity. Qed.

Lemma preserves_throw A e : preserves obs (@throw W A e).
Proof. intros w. reflexivity. Qed.

Lemma preserves_out_of_fuel A : preserves obs (@out_of_fuel W A).
Proof. intros w. reflexivity. Qed.

Lemma preserves_lift A (r : Res A) : preserves obs (@lift W A r).
Proof. intros w. reflexivity. Qed.

Lemma preserves_bind A B (m : M W A) (f : A -> M W B) :
  preserves obs m -> (forall a, preserves obs (f a)) -> preserves obs (bind m f).
Proof.
  intros Hm Hf w. unfold bind. specialize (Hm w).
  destruct (m w) as [[a|e|] w1]; cbn in *; try assumption.
  rewrite <- Hm. apply Hf.
Qed.

Lemma preserves_try_catch A (m : M W A) (h : Thrown -> M W A) :
  preserves obs m -> (forall e, preserves obs (h e)) -> preserves obs (try_catch m h).
Proof.
  intros Hm Hh w. unfold try_catch. specialize (Hm w).
  destruct (m w) as [[a|e|] w1]; cbn in *; try assumption.
  rewrite <- Hm. apply Hh.
Qed.

Lemma preserves_settle A (m : M W A) : preserves obs m -> preserves obs (settle m).
Proof.
  intros Hm w. unfold settle. specialize (Hm w). destruct (m w). exact Hm.
Qed.

Lemma preserves_forget A (m : M W A) : preserves obs m -> preserves obs (forget m).
Proof.
  intros Hm. unfold forget. apply preserves_bind; [assumption|].
  intros _. apply preserves_ret.
Qed.

Lemma preserves_unless_ok_bind A B (m : M W A) (f : A -> M W B) :
  preserves obs m -> (forall a, preserves_unless_ok obs (f a)) ->
  preserves_unless_ok obs (bind m f).
Proof.
  intros Hm Hf w. unfold bind. specialize (Hm w).
  destruct (m w) as [[a|e|] w1]; cbn in *; try (right; assumption).
  rewrite <- Hm. apply Hf.
Qed.

Lemma preserves_unless_ok_try_catch A (m : M W A) (h : Thrown -> M W A) :
  preserves_unless_ok obs m -> (forall e, preserves obs (h e)) ->
  preserves_unless_ok obs (try_catch m h).
Proof.
  intros Hm Hh w. unfold try_catch. specialize (Hm w).
  destruct (m w) as [[a|e|] w1]; cbn in *.
  - left. eauto.
  - destruct Hm as [[a Ha]|Hm]; [discriminate|].
    right. rewrite <- Hm. apply Hh.
  - destruct Hm as [[a Ha]|Hm]; [discriminate|]. right. assumption.
Qed.

End Preserves.

Section Returns.

Context {W : Type}.

Lemma returns_ret A (a : A) : returns (@ret W A a).
Proof. intros w. discriminate. Qed.

Lemma returns_throw A e : returns (@throw W A e).
Proof. intros w. discriminate. Qed.

Lemma returns_lift A (r : Res A) : r <> OutOfFuel -> returns (@lift W A r).
Proof. intros H w. exact H. Qed.

Lemma returns_bind A B (m : M W A) (f : A -> M W B) :
  returns m -> (forall a, returns (f a)) -> returns (bind m f).
Proof.
  intros Hm Hf w. unfold bind. specialize (Hm w).
  destruct (m w) as [[a|e|] w1]; cbn in *; try discriminate; [apply Hf|congruence].
Qed.

Lemma returns_try_catch A (m : M W A) (h : Thrown -> M W A) :
  returns m -> (forall e, returns (h e)) -> returns (try_catch m h).
Proof.
  intros Hm Hh w. unfold try_catch. specialize (Hm w).
  destruct (m w) as [[a|e|] w1]; cbn in *; try discriminate; [apply Hh|congruence].
Qed.

Lemma returns_forget A (m : M W A) : returns m -> returns (forget m).
Proof.
  intros Hm. unfold forget. apply returns_bind; [assumption|].
  intros _. apply returns_ret.
Qed.

(** A settled outcome that is inspected is never the exhausted budget. *)
Lemma returns_bind_settle A B (m : M W A) (k : Res A -> M W B) :
  returns m -> (forall r, r <> OutOfFuel -> returns (k r)) -> returns (bind (settle m) k).
Proof.
  intros Hm Hk w. unfold bind, settle. specialize (Hm w).
  destruct (m w) as [r w1]. cbn in *. apply Hk. assumption.
Qed.

End Returns.

(** The events appended to a log are what is left of it past the old
    ones. *)
Lemma skipn_appended A (l new : list A) : skipn (List.length l) (l ++ new) = new.
Proof. induction l as [|a l IH]; [reflexivity|exact IH]. Qed.

End JsFacts.

(** * Properties of TwitterService *)
Module TwitterServiceFacts.

Import TwitterService Scenarios.
Open Scope js_scope.

(** ** Logs *)

Lemma attempts_app l1 l2 : attempts (l1 ++ l2) = (attempts l1 + attempts l2)%nat.
Proof. unfold attempts. now rewrite filter_app, length_app. Qed.

Lemma sleeps_app l1 l2 : sleeps (l1 ++ l2) = sleeps l1 ++ sleeps l2.
Proof. unfold sleeps. apply flat_map_app. Qed.

(** ** One step of the loop of postTweetWithRetry *)
Section Steps.

Variable env : Env.
Variable cfg : Config.
Variable content : jsstring.

Lemma loop_exit fuel attempt last w :
  maxRetries cfg <= attempt ->
  postTweetWithRetry_loop env cfg content (S fuel) attempt last w = (Throw (retries_exhausted cfg last), w).
Proof.
  intros H. cbn [postTweetWithRetry_loop].
  destruct (Z.ltb_spec attempt (maxRetries cfg)); [lia|]. reflexivity.
Qed.

Lemma loop_ok fuel attempt last w w1 :
  attempt < maxRetries cfg ->
  attempt_op env cfg content attempt w = (Ok tt, w1) ->
  postTweetWithRetry_loop env cfg content (S fuel) attempt last w = (Ok tt, w1).
Proof.
  intros H E. cbn [postTweetWithRetry_loop].
  destruct (Z.ltb_spec attempt (maxRetries cfg)); [|lia].
  unfold attempt_op in E.
  unfold bind at 1. unfold settle. rewrite E. reflexivity.
Qed.

Lemma loop_rate_limit fuel attempt last w w1 e ms :
  attempt < maxRetries cfg ->
  attempt_op env cfg content attempt w = (Throw e, w1) ->
  rate_limit_wait e (now w1) = Some ms ->
  postTweetWithRetry_loop env cfg content (S fuel) attempt last w
  = (delay env ms ;; postTweetWithRetry_loop env cfg content fuel (attempt + 1) (Some e)) w1.
Proof.
  intros H E R. cbn [postTweetWithRetry_loop].
  destruct (Z.ltb_spec attempt (maxRetries cfg)); [|lia].
  unfold attempt_op in E.
  unfold bind at 1. unfold settle. rewrite E.
  unfold rate_limit_wait in R.
  destruct e; try discriminate.
  destruct (code =? 429); try discriminate.
  destruct (truthy_number _) as [resetTime|]; try discriminate.
  unfold bind at 1, Date_now.
  destruct (0 <? resetTime - now w1); try discriminate.
  injection R as <-. reflexivity.
Qed.

Lemma loop_backoff fuel attempt last w w1 e :
  attempt < maxRetries cfg ->
  attempt_op env cfg content attempt w = (Throw e, w1) ->
  rate_limit_wait e (now w1) = None ->
  postTweetWithRetry_loop env cfg content (S fuel) attempt last w
  = ((if attempt + 1 <? maxRetries cfg
      then delay env (retryDelay cfg * 2 ^ (attempt + 1))
      else ret tt) ;;
     postTweetWithRetry_loop env cfg content fuel (attempt + 1) (Some e)) w1.
Proof.
  intros H E R. cbn [postTweetWithRetry_loop].
  destruct (Z.ltb_spec attempt (maxRetries cfg)); [|lia].
  unfold attempt_op in E.
  unfold bind at 1. unfold settle. rewrite E.
  unfold rate_limit_wait in R.
  destruct e; try reflexivity.
  destruct (code =? 429); try reflexivity.
  destruct (truthy_number _) as [resetTime|]; try reflexivity.
  unfold bind at 1, Date_now.
  destruct (0 <? resetTime - now w1); try discriminate.
  reflexivity.
Qed.

(** ** What one try does to the world *)

Lemma postTweet_empty w :
  content = [] ->
  postTweet env content no_options w
  = (Throw (Error "Tweet content cannot be empty"),
     reported (Error "Tweet content cannot be empty") w).
Proof. intros ->. reflexivity. Qed.

Lemma postTweet_overlong options w :
  280 < Z.of_nat (List.length content) ->
  postTweet env content options w
  = (Throw (Error "Tweet exceeds 280 characters"),
     reported (Error "Tweet exceeds 280 characters") w).
Proof.
  intros H. unfold postTweet, try_catch.
  assert (Hne : content <> []) by (intros ->; simpl in H; lia).
  unfold bind at 1.
  replace (match content with [] => _ | _ :: _ => _ end w) with (@Ok unit tt, w)
    by (destruct content; [congruence | reflexivity]).
  unfold bind at 1.
  destruct (Z.ltb_spec 280 (Z.of_nat (List.length content))); [|lia].
  reflexivity.
Qed.

Lemma postTweet_valid w :
  content <> [] ->
  Z.of_nat (List.length content) <= 280 ->
  postTweet env content no_options w
  = match snd (v2_tweet env (calls w) (now w) (payload_of content)) with
    | Fulfilled _ => (Ok tt, after_call env content w)
    | Rejected e => (Throw e, reported e (after_call env content w))
    end.
Proof.
  intros Hne Hlen. unfold postTweet, try_catch.
  unfold bind at 1.
  replace (match content with [] => _ | _ :: _ => _ end w) with (@Ok unit tt, w)
    by (destruct content; [congruence | reflexivity]).
  unfold bind at 1.
  destruct (Z.ltb_spec 280 (Z.of_nat (List.length content))); [lia|].
  unfold ret at 1. unfold bind at 1. unfold mediaIds_of, no_options, mediaUrls, ret at 1.
  unfold bind at 1, platform, after_call, payload_of, media_of.
  destruct (v2_tweet env (calls w) (now w) _) as [dt [res|e]]; reflexivity.
Qed.

(** A try either succeeds or reports the error it throws as the last entry
    of the log; it announces no attempt, never rewinds the clock and leaves
    the fields of the service alone. *)
Lemma postTweet_no_options_inv w r w1 :
  postTweet env content no_options w = (r, w1) ->
  now w <= now w1
  /\ this w1 = this w
  /\ r <> OutOfFuel
  /\ exists mid,
       Forall (fun ev => exists t c, ev = EvCall t c) mid
       /\ log w1 = log w ++ mid
                   ++ match r with
                      | Throw e => [EvError (now w1) "Failed to post tweet:" e]
                      | _ => []
                      end.
Proof.
  intros E.
  assert (C : content = [] \/ content <> []) by (destruct content; [left|right]; congruence).
  destruct C as [C|C].
  - rewrite postTweet_empty in E by assumption. injection E as <- <-.
    cbn. repeat split; try lia; try discriminate. exists []. split; [constructor|reflexivity].
  - destruct (Z.ltb_spec 280 (Z.of_nat (List.length content))) as [Hl|Hl].
    + rewrite postTweet_overlong in E by assumption.
      injection E as <- <-.
      cbn. repeat split; try lia; try discriminate. exists []. split; [constructor|reflexivity].
    + rewrite postTweet_valid in E by assumption.
      destruct (snd (v2_tweet env (calls w) (now w) (payload_of content))) as [res|e];
        injection E as <- <-; cbn; repeat split; try lia; try discriminate;
        exists [EvCall (now w) (V2_tweet (payload_of content))];
        (split; [repeat constructor; eauto|]); rewrite <- ?app_assoc; reflexivity.
Qed.

Lemma attempt_op_inv attempt w r w1 :
  attempt_op env cfg content attempt w = (r, w1) ->
  now w <= now w1
  /\ this w1 = this w
  /\ r <> OutOfFuel
  /\ exists mid,
       Forall (fun ev => exists t c, ev = EvCall t c) mid
       /\ log w1 = log w ++ EvAttempt (now w) (attempt + 1) (maxRetries cfg) :: mid
                   ++ match r with
                      | Throw e => [EvError (now w1) "Failed to post tweet:" e]
                      | _ => []
                      end.
Proof.
  unfold attempt_op, bind, emit. intros E.
  apply postTweet_no_options_inv in E. cbn in E.
  destruct E as (Hnow & Hthis & Hr & mid & Hmid & Hlog).
  repeat split; try assumption.
  exists mid. split; [assumption|]. rewrite Hlog, <- app_assoc. reflexivity.
Qed.

Lemma attempts_calls mid :
  Forall (fun ev => exists t c, ev = EvCall t c) mid -> attempts mid = 0%nat.
Proof.
  induction 1 as [|ev l (t & c & ->) _ IH]; [reflexivity|exact IH].
Qed.

(** A try adds exactly one announcement to the log. *)
Lemma attempt_op_attempts attempt w r w1 :
  attempt_op env cfg content attempt w = (r, w1) ->
  attempts (log w1) = S (attempts (log w)).
Proof.
  intros E. apply attempt_op_inv in E.
  destruct E as (_ & _ & _ & mid & Hmid & ->).
  rewrite attempts_app. change (EvAttempt ?t ?n ?m :: ?l) with ([EvAttempt t n m] ++ l).
  rewrite !attempts_app, (attempts_calls mid Hmid).
  destruct r; cbn; lia.
Qed.

Lemma not_rate_limit_no_wait e t :
  is_rate_limit_error e = false -> rate_limit_wait e t = None.
Proof.
  destruct e; cbn; try reflexivity. now intros ->.
Qed.

Lemma rate_limit_wait_future reset rateLimitError message t :
  reset <> 0 ->
  t < reset * 1000 ->
  rate_limit_wait (ApiResponseError 429 (Some reset) rateLimitError message) t
  = Some (reset * 1000 - t).
Proof.
  intros Hz Hfut. unfold rate_limit_wait, getRateLimitReset, truthy_number.
  rewrite Z.eqb_refl.
  destruct (Z.eqb_spec reset 0); [contradiction|].
  destruct (Z.eqb_spec (reset * 1000) 0); [lia|].
  destruct (Z.ltb_spec 0 (reset * 1000 - t)); [reflexivity|lia].
Qed.

(** The rate-limit branch waits only on such an error. *)
Lemma rate_limit_wait_inv e t ms :
  rate_limit_wait e t = Some ms ->
  exists reset rateLimitError message,
    e = ApiResponseError 429 (Some reset) rateLimitError message
    /\ reset <> 0 /\ t < reset * 1000 /\ ms = reset * 1000 - t.
Proof.
  unfold rate_limit_wait, getRateLimitReset, truthy_number.
  destruct e as [code [reset|] rle msg| | | |]; try discriminate;
    destruct (Z.eqb_spec code 429); try discriminate.
  - destruct (Z.eqb_spec reset 0); try discriminate.
    destruct (Z.eqb_spec (reset * 1000) 0); try discriminate.
    destruct (Z.ltb_spec 0 (reset * 1000 - t)); try discriminate.
    intros [= <-]. subst code. exists reset, rle, msg. repeat split; try assumption; lia.
Qed.

(** ** Runs in which every try fails *)

Lemma loop_always_fails_otherwise :
  always_fails_otherwise env content ->
  forall fuel attempt last w,
    attempt < maxRetries cfg ->
    (Z.to_nat (maxRetries cfg - attempt) < fuel)%nat ->
    exists e t w',
      postTweetWithRetry_loop env cfg content fuel attempt last w
      = (Throw (retries_exhausted cfg (Some e)), w')
      /\ attempts (log w') = (attempts (log w) + Z.to_nat (maxRetries cfg - attempt))%nat
      /\ exists l, log w' = l ++ [EvError t "Failed to post tweet:" e].
Proof.
  intros H fuel. induction fuel as [|fuel IH]; intros attempt last w Hlt Hfuel; [lia|].
  destruct (attempt_op env cfg content attempt w) as [r w1] eqn:E.
  assert (Hr : exists e, r = Throw e /\ is_rate_limit_error e = false).
  { unfold attempt_op, bind, emit in E.
    match type of E with postTweet _ _ _ ?w0 = _ => destruct (H w0) as (e & w1' & E1 & He) end.
    rewrite E1 in E. injection E as <- _. eauto. }
  destruct Hr as (e & -> & He).
  pose proof (attempt_op_attempts _ _ _ _ E) as Hcount.
  pose proof (attempt_op_inv _ _ _ _ E) as (_ & _ & _ & mid & _ & Hlog).
  rewrite (loop_backoff _ _ _ _ _ _ Hlt E (not_rate_limit_no_wait _ _ He)).
  unfold bind at 1.
  destruct (Z.ltb_spec (attempt + 1) (maxRetries cfg)) as [Hmore|Hlast].
  - unfold delay, sleep at 1.
    match goal with |- context [postTweetWithRetry_loop _ _ _ _ _ _ ?w2] =>
      destruct (IH (attempt + 1) (Some e) w2) as (e' & t & w' & Eq & Hat & Hl);
        [lia | lia |] end.
    exists e', t, w'. split; [exact Eq|]. split; [|exact Hl].
    rewrite Hat. cbn [log]. rewrite attempts_app, Hcount. cbn. lia.
  - unfold ret at 1.
    destruct fuel as [|fuel]; [lia|].
    rewrite loop_exit by lia.
    exists e, (now w1), w1. split; [reflexivity|]. split.
    + rewrite Hcount. lia.
    + exists (log w ++ EvAttempt (now w) (attempt + 1) (maxRetries cfg) :: mid).
      rewrite Hlog, <- app_assoc. reflexivity.
Qed.

Lemma loop_always_rate_limited :
  always_rate_limited env ->
  content <> [] ->
  Z.of_nat (List.length content) <= 280 ->
  forall fuel attempt last w,
    attempt < maxRetries cfg ->
    (Z.to_nat (maxRetries cfg - attempt) < fuel)%nat ->
    exists reset rateLimitError message w',
      postTweetWithRetry_loop env cfg content fuel attempt last w
      = (Throw (retries_exhausted cfg
                  (Some (ApiResponseError 429 (Some reset) rateLimitError message))), w')
      /\ attempts (log w') = (attempts (log w) + Z.to_nat (maxRetries cfg - attempt))%nat
      /\ calls w' = (calls w + Z.to_nat (maxRetries cfg - attempt))%nat.
Proof.
  intros H Hne Hlen fuel.
  induction fuel as [|fuel IH]; intros attempt last w Hlt Hfuel; [lia|].
  destruct (attempt_op env cfg content attempt w) as [r w1] eqn:E.
  pose proof (attempt_op_attempts _ _ _ _ E) as Hcount.
  unfold attempt_op, bind, emit in E.
  rewrite postTweet_valid in E by assumption. cbn [calls now set_log] in E.
  destruct (H (calls w) (now w) (payload_of content)) as (reset & rle & msg & Hres & Hz & Hfut).
  rewrite Hres in E. injection E as <- <-.
  set (e := ApiResponseError 429 (Some reset) rle msg) in *.
  match type of Hcount with attempts (log ?x) = _ => set (w1 := x) in * end.
  assert (E : attempt_op env cfg content attempt w = (Throw e, w1)).
  { unfold attempt_op, bind, emit. rewrite postTweet_valid by assumption.
    cbn [calls now set_log]. rewrite Hres. reflexivity. }
  assert (Hnow1 : now w1 = now w + Z.of_nat (fst (v2_tweet env (calls w) (now w) (payload_of content))))
    by reflexivity.
  assert (Hwait : rate_limit_wait e (now w1) = Some (reset * 1000 - now w1)).
  { apply rate_limit_wait_future; [assumption|lia]. }
  rewrite (loop_rate_limit _ _ _ _ _ _ _ Hlt E Hwait).
  unfold bind at 1, delay, sleep at 1.
  match goal with |- context [postTweetWithRetry_loop _ _ _ _ _ _ ?x] => set (w2 := x) end.
  destruct (Z.ltb_spec (attempt + 1) (maxRetries cfg)) as [Hmore|Hlast].
  - destruct (IH (attempt + 1) (Some e) w2) as (reset' & rle' & msg' & w' & Eq & Hat & Hc);
      [lia | lia |].
    exists reset', rle', msg', w'. split; [exact Eq|].
    rewrite Hat, Hc. unfold w2 at 1 2. cbn [log calls].
    rewrite attempts_app, Hcount. cbn.
    split; lia.
  - destruct fuel as [|fuel]; [lia|].
    rewrite loop_exit by lia.
    exists reset, rle, msg, w2. split; [reflexivity|].
    unfold w2 at 1 2. cbn [log calls].
    rewrite attempts_app, Hcount. cbn.
    split; lia.
Qed.

End Steps.

(** ** The run of postTweetWithRetry *)

Lemma setTimeout_delay_pos ms : 1 <= setTimeout_delay ms.
Proof.
  unfold setTimeout_delay.
  destruct (Z.ltb_spec ms 1); cbn; [lia|]. destruct (Z.ltb_spec 2147483647 ms); lia.
Qed.

(** A delay that [setTimeout] honours. *)
Lemma setTimeout_delay_honoured ms :
  1 <= ms <= 2147483647 -> setTimeout_delay ms = ms.
Proof.
  intros H. unfold setTimeout_delay.
  destruct (Z.ltb_spec ms 1); cbn; [lia|]. destruct (Z.ltb_spec 2147483647 ms); lia.
Qed.

(** After a failed try the loop goes on from a later world, with the attempt
    counted; if the rate-limit branch waits for a time that [setTimeout]
    honours, the clock has reached the reset time. *)
Lemma loop_after_failure env cfg content fuel attempt last w e w1 :
  attempt < maxRetries cfg ->
  attempt_op env cfg content attempt w = (Throw e, w1) ->
  exists w2,
    postTweetWithRetry_loop env cfg content (S fuel) attempt last w
    = postTweetWithRetry_loop env cfg content fuel (attempt + 1) (Some e) w2
    /\ now w1 <= now w2
    /\ (forall ms, rate_limit_wait e (now w1) = Some ms -> ms <= 2147483647 ->
                   now w1 + ms <= now w2)
    /\ this w2 = this w1
    /\ exists ss, Forall (fun ev => exists t ms, ev = EvSleep t ms) ss
                  /\ log w2 = log w1 ++ ss.
Proof.
  intros Hlt E.
  destruct (rate_limit_wait e (now w1)) as [ms|] eqn:R.
  - rewrite (loop_rate_limit _ _ _ _ _ _ _ _ _ _ Hlt E R).
    unfold bind at 1, delay, sleep at 1.
    eexists. split; [reflexivity|]. cbn [now this log].
    pose proof (setTimeout_delay_pos ms).
    split; [lia|]. split.
    { intros ms' [= <-] Hle.
      destruct (rate_limit_wait_inv _ _ _ R) as (reset & rle & msg & _ & _ & Hfut & ->).
      rewrite setTimeout_delay_honoured by lia. lia. }
    split; [reflexivity|].
    eexists. split; [|reflexivity]. repeat constructor; eauto.
  - rewrite (loop_backoff _ _ _ _ _ _ _ _ _ Hlt E R).
    unfold bind at 1.
    destruct (attempt + 1 <? maxRetries cfg).
    + unfold delay, sleep at 1.
      eexists. split; [reflexivity|]. cbn [now this log].
      pose proof (setTimeout_delay_pos (retryDelay cfg * 2 ^ (attempt + 1))).
      split; [lia|]. split; [discriminate|]. split; [reflexivity|].
      eexists. split; [|reflexivity]. repeat constructor; eauto.
    + unfold ret at 1.
      exists w1. split; [reflexivity|].
      split; [lia|]. split; [discriminate|]. split; [reflexivity|].
      exists []. split; [constructor|]. now rewrite app_nil_r.
Qed.

(** The wrapper always returns: the budget of the model is never what stops
    the loop. *)
Lemma postTweetWithRetry_loop_total env cfg content fuel :
  forall attempt last w,
    (Z.to_nat (maxRetries cfg - attempt) < fuel)%nat ->
    fst (postTweetWithRetry_loop env cfg content fuel attempt last w) <> OutOfFuel.
Proof.
  induction fuel as [|fuel IH]; intros attempt last w Hfuel; [lia|].
  destruct (Z.lt_ge_cases attempt (maxRetries cfg)) as [Hlt|Hge].
  - destruct (attempt_op env cfg content attempt w) as [r w1] eqn:E.
    pose proof (attempt_op_inv _ _ _ _ _ _ _ E) as (_ & _ & Hr & _).
    destruct r as [[]|e|]; [|..|congruence].
    + rewrite (loop_ok _ _ _ _ _ _ _ _ Hlt E). discriminate.
    + destruct (loop_after_failure env cfg content fuel attempt last w e w1 Hlt E)
        as (w2 & -> & _).
      apply IH. lia.
  - rewrite loop_exit by assumption. discriminate.
Qed.

Lemma postTweetWithRetry_total env cfg content w :
  fst (postTweetWithRetry env cfg content w) <> OutOfFuel.
Proof.
  unfold postTweetWithRetry. apply postTweetWithRetry_loop_total.
  rewrite Z.sub_0_r. lia.
Qed.

(** ** Reset times in the log *)

Lemma respects_resets_weaken l : forall b1 b2,
  b1 <= b2 -> respects_resets b2 l -> respects_resets b1 l.
Proof.
  induction l as [|ev l IH]; intros b1 b2 Hb; [trivial|].
  destruct ev; cbn; try (apply IH; assumption).
  - intros [H1 H2]. split; [lia|]. eapply IH; eassumption.
  - destruct (rate_limit_wait e t) as [ms|]; [destruct (ms <=? 2147483647)|]; apply IH; lia.
Qed.

Lemma respects_resets_skip pre l b :
  Forall (fun ev => (exists t c, ev = EvCall t c) \/ (exists t ms, ev = EvSleep t ms)) pre ->
  respects_resets b l -> respects_resets b (pre ++ l).
Proof.
  induction 1 as [|ev pre [(t & c & ->)|(t & ms & ->)] _ IH]; intros Hl; cbn; auto.
Qed.

Lemma respects_resets_attempt l : forall b t n m,
  respects_resets b l -> In (EvAttempt t n m) l -> b <= t.
Proof.
  induction l as [|ev l IH]; intros b t n m Hl Hin; [contradiction|].
  destruct Hin as [->|Hin].
  - cbn in Hl. tauto.
  - destruct ev; cbn in Hl; try (eapply IH; eassumption).
    + eapply IH; [apply Hl|eassumption].
    + destruct (rate_limit_wait e t0) as [z|]; [|eapply IH; eassumption].
      destruct (z <=? 2147483647); [|eapply IH; eassumption].
      transitivity (Z.max b (t0 + z)); [lia|]. eapply IH; eassumption.
Qed.

Lemma respects_resets_after pre : forall b t label e post ms t' n m,
  respects_resets b (pre ++ EvError t label e :: post) ->
  rate_limit_wait e t = Some ms ->
  ms <= 2147483647 ->
  In (EvAttempt t' n m) post ->
  t + ms <= t'.
Proof.
  induction pre as [|ev pre IH]; intros b t label e post ms t' n m Hl Hw Hle Hin.
  - cbn in Hl. rewrite Hw in Hl.
    destruct (Z.leb_spec ms 2147483647); [|lia].
    transitivity (Z.max b (t + ms)); [lia|]. eapply respects_resets_attempt; eassumption.
  - destruct ev; cbn in Hl; try (eapply IH; eassumption).
    eapply IH; [apply Hl|eassumption..].
Qed.

Lemma postTweetWithRetry_loop_log env cfg content fuel :
  forall attempt last w r w',
    postTweetWithRetry_loop env cfg content fuel attempt last w = (r, w') ->
    exists new,
      log w' = log w ++ new /\ now w <= now w' /\ respects_resets (now w) new.
Proof.
  induction fuel as [|fuel IH]; intros attempt last w r w' E.
  - injection E as <- <-. exists []. rewrite app_nil_r. cbn. auto with zarith.
  - destruct (Z.lt_ge_cases attempt (maxRetries cfg)) as [Hlt|Hge].
    + destruct (attempt_op env cfg content attempt w) as [r1 w1] eqn:E1.
      pose proof (attempt_op_inv _ _ _ _ _ _ _ E1) as (Hnow1 & _ & Hr & mid & Hmid & Hlog1).
      assert (Hmid' : Forall (fun ev => (exists t c, ev = EvCall t c)
                                        \/ (exists t ms, ev = EvSleep t ms)) mid)
        by (eapply Forall_impl; [|exact Hmid]; cbn; auto).
      destruct r1 as [[]|e|]; [|..|congruence].
      * rewrite (loop_ok _ _ _ _ _ _ _ _ Hlt E1) in E. injection E as <- <-.
        eexists. split; [exact Hlog1|]. split; [assumption|].
        cbn. split; [lia|]. apply respects_resets_skip; [assumption|exact I].
      * destruct (loop_after_failure env cfg content fuel attempt last w e w1 Hlt E1)
          as (w2 & Eq & Hnow2 & Hwait & _ & ss & Hss & Hlog2).
        rewrite Eq in E. apply IH in E. destruct E as (new & Hlog' & Hnow' & Hres).
        exists (EvAttempt (now w) (attempt + 1) (maxRetries cfg)
                  :: mid ++ [EvError (now w1) "Failed to post tweet:" e] ++ ss ++ new).
        split.
        { rewrite Hlog', Hlog2, Hlog1. rewrite <- !app_assoc. cbn. rewrite <- !app_assoc.
          reflexivity. }
        split; [lia|].
        cbn [respects_resets]. split; [lia|].
        apply respects_resets_skip; [assumption|].
        cbn [app respects_resets].
        apply respects_resets_skip.
        { eapply Forall_impl; [|exact Hss]; cbn; auto. }
        eapply respects_resets_weaken; [|exact Hres].
        destruct (rate_limit_wait e (now w1)) as [ms|]; [|lia].
        destruct (Z.leb_spec ms 2147483647); [|lia].
        specialize (Hwait ms eq_refl). lia.
    + rewrite loop_exit in E by assumption. injection E as <- <-.
      exists []. rewrite app_nil_r. cbn. auto with zarith.
Qed.

(** ** Content validation *)

(** [validateTweetContent] never looks at the length: content within the
    emoji and hashtag limits passes whatever its length. *)
Lemma validateTweetContent_ignores_length cfg content :
  count_code_points_in 0x1F600 0x1F64F content <= maxEmojis (contentRules cfg) ->
  count_code_unit 35 content <= maxHashtags (contentRules cfg) ->
  validateTweetContent cfg content = Ok tt.
Proof.
  intros He Hh. unfold validateTweetContent.
  destruct (Z.ltb_spec (maxEmojis (contentRules cfg))
                       (count_code_points_in 0x1F600 0x1F64F content)); [lia|].
  destruct (Z.ltb_spec (maxHashtags (contentRules cfg))
                       (count_code_unit 35 content)); [lia|].
  reflexivity.
Qed.

(** [postTweet] rejects content of more than 280 code units before anything
    else happens, whatever the content and the options are. *)
Lemma postTweet_rejects_overlong env content options w :
  280 < Z.of_nat (List.length content) ->
  fst (postTweet env content options w) = Throw (Error "Tweet exceeds 280 characters")
  /\ calls (snd (postTweet env content options w)) = calls w.
Proof.
  intros H. rewrite postTweet_overlong by assumption. split; reflexivity.
Qed.

(** C1 (the code at the failing input).  Content of 281 code units with no
    emoji and no hashtag passes [validateTweetContent] under the default
    rules, and [tweet] submits it to the platform unchanged, whereas
    [postTweet] rejects the same content as exceeding 280 characters without
    a platform call. *)
Theorem tweet_submits_overlong_content :
  Z.of_nat (List.length overlong) = 281
  /\ validateTweetContent default_config overlong = Ok tt
  /\ fst (tweet env_accepting default_config overlong no_options (new_world 0))
     = Ok {| data_id := "0"; data_text := overlong |}
  /\ submitted (log (snd (tweet env_accepting default_config overlong no_options
                            (new_world 0))))
     = [payload_of overlong]
  /\ fst (postTweet env_accepting overlong no_options (new_world 0))
     = Throw (Error "Tweet exceeds 280 characters")
  /\ submitted (log (snd (postTweet env_accepting overlong no_options (new_world 0))))
     = [].
Proof.
  repeat split; vm_compute; reflexivity.
Qed.

(** ** The retry wrapper *)



Lemma env_429_always_rate_limited : always_rate_limited env_429.
Proof.
  intros k t p. exists (Z.max 0 t / 1000 + 60), true, "Too Many Requests"%string.
  split; [reflexivity|]. cbn [env_429 quiet_env v2_tweet fst].
  pose proof (Z.div_pos (Z.max 0 t) 1000).
  pose proof (Z.mod_pos_bound (Z.max 0 t) 1000).
  pose proof (Z.div_mod (Z.max 0 t) 1000).
  lia.
Qed.




(** One step of the loop of [tweet] on a rejected submission that
    [shouldRetry] accepts. *)
Lemma tweet_loop_retry env cfg content fuel attempt w e :
  attempt < maxRetries cfg ->
  snd (v2_tweet env (calls w) (now w) (payload_of content)) = Rejected e ->
  shouldRetry cfg e (attempt + 1) = true ->
  tweet_loop env cfg content no_options (S fuel) attempt w
  = (delay env (retryDelay cfg * (attempt + 1)) ;;
     tweet_loop env cfg content no_options fuel (attempt + 1)) (after_call env content w).
Proof.
  intros Hlt Hrej Hretry. cbn [tweet_loop].
  destruct (Z.ltb_spec attempt (maxRetries cfg)); [|lia].
  unfold bind at 1, settle, bind at 1, mediaIds_of, no_options, mediaUrls, ret at 1.
  unfold platform, media_of, replyToTweetId, truthy_string.
  fold (payload_of content).
  destruct (v2_tweet env (calls w) (now w) (payload_of content)) as [dt r] eqn:Ev.
  cbn [snd] in Hrej. subst r. cbn [outcome].
  rewrite Hretry. unfold after_call. rewrite Ev. reflexivity.
Qed.

(** C6 (counterexample).  In [tweet], a rate-limit rejection that carries no
    reset information is followed by a wait of [retryDelay * attempt], here
    5000 ms and not [retryDelay * 2 ^ 1]; a rejection that is no rate-limit
    error is not retried at all. *)
Lemma tweet_backoff_is_linear :
  fst (tweet env_429_once default_config (lit "gm") no_options (new_world 0))
  = Ok {| data_id := "1"; data_text := lit "gm" |}
  /\ sleeps (log (snd (tweet env_429_once default_config (lit "gm") no_options
                         (new_world 0)))) = [5000]
  /\ retryDelay default_config * 2 ^ 1 = 10000
  /\ fst (tweet env_500 default_config (lit "gm") no_options (new_world 0))
     = Throw (ApiResponseError 500 None false "Internal Server Error")
  /\ sleeps (log (snd (tweet env_500 default_config (lit "gm") no_options
                         (new_world 0)))) = []
  /\ submitted (log (snd (tweet env_500 default_config (lit "gm") no_options
                            (new_world 0)))) = [payload_of (lit "gm")].
Proof.
  repeat split; vm_compute; reflexivity.
Qed.

(** C6 (as amended).  In [postTweetWithRetry], after a failed try on which
    the rate-limit branch does not wait and with tries left, the loop sleeps
    [retryDelay * 2 ^ attempt], [attempt] being the counter already
    incremented for the failed try, and then tries again.  In [tweet], a
    rejection that [shouldRetry] accepts is followed by a sleep of
    [retryDelay * attempt]. *)
Theorem retry_delays env cfg content fuel attempt last w :
  (forall e w1,
     attempt_op env cfg content attempt w = (Throw e, w1) ->
     rate_limit_wait e (now w1) = None ->
     0 <= attempt ->
     attempt + 1 < maxRetries cfg ->
     postTweetWithRetry_loop env cfg content (S fuel) attempt last w
     = (delay env (retryDelay cfg * 2 ^ (attempt + 1)) ;;
        postTweetWithRetry_loop env cfg content fuel (attempt + 1) (Some e)) w1)
  /\ (forall e,
        snd (v2_tweet env (calls w) (now w) (payload_of content)) = Rejected e ->
        shouldRetry cfg e (attempt + 1) = true ->
        0 <= attempt ->
        tweet_loop env cfg content no_options (S fuel) attempt w
        = (delay env (retryDelay cfg * (attempt + 1)) ;;
           tweet_loop env cfg content no_options fuel (attempt + 1))
            (after_call env content w)).
Proof.
  split.
  - intros e w1 E R H0 Hmore.
    rewrite (loop_backoff env cfg content fuel attempt last w w1 e) by (lia || assumption).
    destruct (Z.ltb_spec (attempt + 1) (maxRetries cfg)); [reflexivity|lia].
  - intros e Hrej Hretry H0.
    apply (tweet_loop_retry env cfg content fuel attempt w e); try assumption.
    unfold shouldRetry in Hretry. apply andb_prop in Hretry. destruct Hretry as [Hlt _].
    apply Z.ltb_lt in Hlt. lia.
Qed.

Lemma retry_delays_witness :
  postTweetWithRetry_loop env_500 default_config (lit "gm") 4 0 None (new_world 0)
  = (delay env_500 (retryDelay default_config * 2 ^ (0 + 1)) ;;
     postTweetWithRetry_loop env_500 default_config (lit "gm") 3 (0 + 1)
       (Some (ApiResponseError 500 None false "Internal Server Error")))
      (snd (attempt_op env_500 default_config (lit "gm") 0 (new_world 0)))
  /\ tweet_loop env_429_once default_config (lit "gm") no_options 4 0 (new_world 0)
     = (delay env_429_once (retryDelay default_config * (0 + 1)) ;;
        tweet_loop env_429_once default_config (lit "gm") no_options 3 (0 + 1))
         (after_call env_429_once (lit "gm") (new_world 0)).
Proof.
  split.
  - apply (proj1 (retry_delays env_500 default_config (lit "gm") 3 0 None (new_world 0)));
      [reflexivity | reflexivity | lia | reflexivity].
  - apply (proj2 (retry_delays env_429_once default_config (lit "gm") 3 0 None (new_world 0))
             (ApiResponseError 429 None true "Too Many Requests"));
      [reflexivity | reflexivity | lia].
Defined.

(** C7 (counterexample).  A reset 30 days ahead is not waited for: the
    wait exceeds [2 ^ 31 - 1] ms, the timer fires after 1 ms and the second
    try starts at 1008, long before the reset time 2592001000.  Nor is the
    reset of a rate-limit error with another code: a rejection with code 420
    that resets at 61000 is retried after the backoff, at 11007.  [tweet]
    does not read the reset at all: after a 429 that resets at 61000 it
    submits again at 6007. *)
Lemma long_reset_is_not_waited_for :
  firstn 5 (log (snd (postTweetWithRetry env_429_far default_config (lit "gm")
                        (new_world 1000))))
  = [EvAttempt 1000 1 3;
     EvCall 1000 (V2_tweet (payload_of (lit "gm")));
     EvError 1007 "Failed to post tweet:"
             (ApiResponseError 429 (Some 2592001) true "Too Many Requests");
     EvSleep 1007 2591999993;
     EvAttempt 1008 2 3]
  /\ 1007 < 2592001 * 1000
  /\ 1008 < 2592001 * 1000
  /\ firstn 5 (log (snd (postTweetWithRetry env_420 default_config (lit "gm")
                           (new_world 1000))))
     = [EvAttempt 1000 1 3;
        EvCall 1000 (V2_tweet (payload_of (lit "gm")));
        EvError 1007 "Failed to post tweet:"
                (ApiResponseError 420 (Some 61) true "Enhance Your Calm");
        EvSleep 1007 10000;
        EvAttempt 11007 2 3]
  /\ 11007 < 61 * 1000
  /\ firstn 3 (log (snd (tweet env_429 default_config (lit "gm") no_options
                           (new_world 1000))))
     = [EvCall 1000 (V2_tweet (payload_of (lit "gm")));
        EvSleep 1007 5000;
        EvCall 6007 (V2_tweet (payload_of (lit "gm")))]
  /\ 6007 < 61 * 1000.
Proof.
  repeat split; vm_compute; reflexivity.
Qed.

(** C7 (as amended).  In a run of [postTweetWithRetry], once a try has failed
    at time [t] with an [ApiResponseError] of code 429 whose reset time,
    [reset * 1000] ms, is present, later than [t] and at most [2 ^ 31 - 1]
    ms after [t], every later try starts no earlier than that reset time. *)
Theorem retry_waits_for_reset env cfg content w r w'
        pre t label reset rateLimitError message post t' n m :
  postTweetWithRetry env cfg content w = (r, w') ->
  log w' = log w ++ pre
           ++ EvError t label (ApiResponseError 429 (Some reset) rateLimitError message)
           :: post ->
  reset <> 0 ->
  t < reset * 1000 ->
  reset * 1000 - t <= 2147483647 ->
  In (EvAttempt t' n m) post ->
  reset * 1000 <= t'.
Proof.
  intros E Hlog Hz Hfut Hbound Hin.
  apply postTweetWithRetry_loop_log in E. destruct E as (new & Hnew & _ & Hres).
  rewrite Hnew in Hlog. apply app_inv_head in Hlog. subst new.
  pose proof (respects_resets_after _ _ _ _ _ _ _ _ _ _ Hres
                (rate_limit_wait_future reset rateLimitError message t Hz Hfut)
                Hbound Hin).
  lia.
Qed.

Lemma retry_waits_for_reset_witness : 61 * 1000 <= 61000.
Proof.
  apply (retry_waits_for_reset env_429 default_config (lit "gm") (new_world 1000)
           (fst (postTweetWithRetry env_429 default_config (lit "gm") (new_world 1000)))
           (snd (postTweetWithRetry env_429 default_config (lit "gm") (new_world 1000)))
           [EvAttempt 1000 1 3; EvCall 1000 (V2_tweet (payload_of (lit "gm")))]
           1007 "Failed to post tweet:" 61 true "Too Many Requests"
           (skipn 3 (log (snd (postTweetWithRetry env_429 default_config (lit "gm")
                                 (new_world 1000)))))
           61000 2 3).
  - apply surjective_pairing.
  - vm_compute. reflexivity.
  - discriminate.
  - reflexivity.
  - vm_compute. discriminate.
  - vm_compute. auto.
Defined.

(** ** Every entry into the service returns *)

Lemma returns_emit ev : returns (emit ev).
Proof. intros w. discriminate. Qed.

Lemma returns_Date_now : returns Date_now.
Proof. intros w. discriminate. Qed.

Lemma returns_get_this : returns get_this.
Proof. intros w. discriminate. Qed.

Lemma returns_put_this f : returns (put_this f).
Proof. intros w. discriminate. Qed.

Lemma returns_platform A c (oracle : nat -> Z -> nat * Settled A) :
  returns (platform c oracle).
Proof.
  intros w. unfold platform. destruct (oracle _ _) as [dt [a|e]]; discriminate.
Qed.

Lemma returns_start_call A c (oracle : nat -> Z -> nat * Settled A) :
  returns (start_call c oracle).
Proof. intros w. discriminate. Qed.

Lemma returns_elapse dt : returns (elapse dt).
Proof. intros w. discriminate. Qed.

Lemma returns_delay env ms : returns (delay env ms).
Proof. intros w. discriminate. Qed.

Lemma returns_arm_timer ms : returns (arm_timer ms).
Proof. intros w. discriminate. Qed.

Lemma validateTweetContent_returns cfg content :
  validateTweetContent cfg content <> OutOfFuel.
Proof.
  unfold validateTweetContent.
  destruct (_ <? _); [discriminate|]. destruct (_ <? _); discriminate.
Qed.

Create HintDb returns discriminated.

#[local] Hint Resolve returns_emit returns_Date_now returns_get_this returns_put_this
  returns_platform returns_start_call returns_elapse returns_delay returns_arm_timer
  validateTweetContent_returns : returns.

(** Walks down a method body: binds, handlers and branches. *)
Ltac returns_step :=
  match goal with
  | |- forall _, _ => intro
  | |- returns (bind (settle _) _) => apply JsFacts.returns_bind_settle
  | |- returns (bind _ _) => apply JsFacts.returns_bind
  | |- returns (try_catch _ _) => apply JsFacts.returns_try_catch
  | |- returns (forget _) => apply JsFacts.returns_forget
  | |- returns (ret _) => apply JsFacts.returns_ret
  | |- returns (throw _) => apply JsFacts.returns_throw
  | |- returns (lift _) => apply JsFacts.returns_lift
  | H : OutOfFuel <> OutOfFuel |- _ => contradiction H; reflexivity
  | |- returns (if ?b then _ else _) => destruct b
  | |- returns (match ?x with _ => _ end) => destruct x
  | |- _ => solve [auto with returns]
  end.

Ltac returns_auto := repeat returns_step.

Section Returns.

Variable env : Env.
Variable cfg : Config.

Lemma returns_startUploads urls : returns (startUploads env urls).
Proof. induction urls as [|url rest IH]; cbn [startUploads]; returns_auto. Qed.

Lemma returns_Promise_all ps : returns (Promise_all ps).
Proof.
  unfold Promise_all. destruct (first_rejection ps) as [[[url dt] e]|]; returns_auto.
Qed.

Lemma returns_uploadMedia urls : returns (uploadMedia env urls).
Proof.
  unfold uploadMedia. returns_auto;
    first [apply returns_startUploads | apply returns_Promise_all].
Qed.

#[local] Hint Resolve returns_uploadMedia : returns.

Lemma returns_mediaIds_of options : returns (mediaIds_of env options).
Proof. unfold mediaIds_of. returns_auto. Qed.

#[local] Hint Resolve returns_mediaIds_of : returns.

Lemma returns_postTweet content options : returns (postTweet env content options).
Proof. unfold postTweet. returns_auto. Qed.

Lemma returns_postTweetWithRetry content : returns (postTweetWithRetry env cfg content).
Proof. intros w. apply postTweetWithRetry_total. Qed.

Lemma returns_handleAuthError error context : returns (handleAuthError error context).
Proof. unfold handleAuthError. returns_auto. Qed.

#[local] Hint Resolve returns_handleAuthError : returns.

Lemma returns_verifyUserAuth : returns (verifyUserAuth env).
Proof. unfold verifyUserAuth. returns_auto. Qed.

#[local] Hint Resolve returns_verifyUserAuth : returns.

Lemma returns_initializeWithRetry_loop maxRetries fuel :
  forall attempt,
    (Z.to_nat (maxRetries - attempt) < fuel)%nat ->
    returns (initializeWithRetry_loop env maxRetries fuel attempt).
Proof.
  induction fuel as [|fuel IH]; intros attempt Hfuel; [lia|].
  cbn [initializeWithRetry_loop].
  destruct (Z.ltb_spec attempt maxRetries) as [Hlt|Hge]; [|apply JsFacts.returns_throw].
  assert (Hnext : returns (initializeWithRetry_loop env maxRetries fuel (attempt + 1)))
    by (apply IH; lia).
  returns_auto.
Qed.

Lemma returns_initializeWithRetry maxRetries : returns (initializeWithRetry env maxRetries).
Proof.
  unfold initializeWithRetry. apply returns_initializeWithRetry_loop.
  rewrite Z.sub_0_r. lia.
Qed.

#[local] Hint Resolve returns_initializeWithRetry : returns.

Lemma returns_initialize : returns (initialize env cfg).
Proof. unfold initialize. returns_auto. Qed.

Lemma returns_tweet_loop content options fuel :
  forall attempt,
    (Z.to_nat (maxRetries cfg - attempt) < fuel)%nat ->
    returns (tweet_loop env cfg content options fuel attempt).
Proof.
  induction fuel as [|fuel IH]; intros attempt Hfuel; [lia|].
  cbn [tweet_loop].
  destruct (Z.ltb_spec attempt (maxRetries cfg)) as [Hlt|Hge]; [|apply JsFacts.returns_throw].
  assert (Hnext : returns (tweet_loop env cfg content options fuel (attempt + 1)))
    by (apply IH; lia).
  returns_auto.
Qed.

Lemma returns_tweet content options : returns (tweet env cfg content options).
Proof.
  unfold tweet. destruct (mockMode cfg); [apply JsFacts.returns_ret|].
  apply JsFacts.returns_bind; [returns_auto|]. intros _.
  apply returns_tweet_loop. rewrite Z.sub_0_r. lia.
Qed.

#[local] Hint Resolve returns_tweet : returns.

Lemma returns_setupStreamRules : returns (setupStreamRules env).
Proof. unfold setupStreamRules. returns_auto. Qed.

Lemma returns_handleStreamSetupError error : returns (handleStreamSetupError error).
Proof. unfold handleStreamSetupError. returns_auto. Qed.

#[local] Hint Resolve returns_setupStreamRules returns_handleStreamSetupError : returns.

Lemma returns_startStream : returns (startStream env).
Proof. unfold startStream. returns_auto. Qed.

#[local] Hint Resolve returns_startStream : returns.

Lemma returns_marketTweet token prompt : returns (marketTweet env cfg token prompt).
Proof. unfold marketTweet. returns_auto. Qed.

#[local] Hint Resolve returns_marketTweet : returns.

(** No entry into the service is stopped by the budget of the model. *)
Lemma invoke_returns e : returns (invoke env cfg e).
Proof.
  destruct e; cbn [invoke];
    first [ apply returns_postTweet | apply returns_postTweetWithRetry
          | apply returns_initialize
          | unfold handleStreamData, handleStreamError, streamRestartTimer,
              onSignificantMovement, onAlertTriggered, marketUpdateTick,
              publishMarketUpdate, startMarketUpdates, stopMarketUpdates, stop;
            returns_auto ].
Qed.

End Returns.

(** ** The tweet counter *)

Create HintDb keeps discriminated.

Lemma keeps_emit ev : keeps_counters (emit ev).
Proof. intros w. reflexivity. Qed.

Lemma keeps_Date_now : keeps_counters Date_now.
Proof. intros w. reflexivity. Qed.

Lemma keeps_get_this : keeps_counters get_this.
Proof. intros w. reflexivity. Qed.

Lemma keeps_platform A c (oracle : nat -> Z -> nat * Settled A) :
  keeps_counters (platform c oracle).
Proof. intros w. unfold platform. destruct (oracle _ _). reflexivity. Qed.

Lemma keeps_start_call A c (oracle : nat -> Z -> nat * Settled A) :
  keeps_counters (start_call c oracle).
Proof. intros w. reflexivity. Qed.

Lemma keeps_elapse dt : keeps_counters (elapse dt).
Proof. intros w. reflexivity. Qed.

Lemma keeps_delay env ms : keeps_counters (delay env ms).
Proof. intros w. reflexivity. Qed.

Lemma keeps_arm_timer ms : keeps_counters (arm_timer ms).
Proof. intros w. reflexivity. Qed.

(** Writing back the fields just read, changed in other fields only. *)
Lemma keeps_update (g : Fields -> Fields) :
  (forall f, counters (g f) = counters f) ->
  keeps_counters (f <- get_this ;; put_this (g f)).
Proof. intros Hg w. cbn. apply Hg. Qed.

Lemma keeps_update_then A (g : Fields -> Fields) (k : M A) :
  (forall f, counters (g f) = counters f) ->
  keeps_counters k ->
  keeps_counters (f <- get_this ;; put_this (g f) ;; k).
Proof.
  intros Hg Hk w. unfold bind at 1, get_this. unfold bind, put_this.
  rewrite (Hk _). cbn. apply Hg.
Qed.

Lemma counters_set_userId u f : counters (set_userId u f) = counters f.
Proof. reflexivity. Qed.

Lemma counters_set_isStreaming b f : counters (set_isStreaming b f) = counters f.
Proof. reflexivity. Qed.

Lemma counters_set_marketUpdateInterval h f :
  counters (set_marketUpdateInterval h f) = counters f.
Proof. reflexivity. Qed.

#[local] Hint Resolve keeps_emit
  keeps_Date_now keeps_get_this keeps_platform keeps_start_call keeps_elapse keeps_delay
  keeps_arm_timer
  counters_set_userId counters_set_isStreaming counters_set_marketUpdateInterval : keeps.

(** Walks down a method body: binds, handlers and branches. *)
Ltac keeps_step :=
  match goal with
  | |- preserves _ ?m => progress change (keeps_counters m)
  | |- forall _, _ => intro
  | |- keeps_counters (bind get_this (fun f => bind (put_this _) _)) =>
      apply keeps_update_then
  | |- keeps_counters (bind get_this (fun f => put_this _)) => apply keeps_update
  | |- keeps_counters (bind _ _) => apply JsFacts.preserves_bind
  | |- keeps_counters (try_catch _ _) => apply JsFacts.preserves_try_catch
  | |- keeps_counters (settle _) => apply JsFacts.preserves_settle
  | |- keeps_counters (forget _) => apply JsFacts.preserves_forget
  | |- keeps_counters (ret _) => apply JsFacts.preserves_ret
  | |- keeps_counters (throw _) => apply JsFacts.preserves_throw
  | |- keeps_counters out_of_fuel => apply JsFacts.preserves_out_of_fuel
  | |- keeps_counters (lift _) => apply JsFacts.preserves_lift
  | |- keeps_counters (if ?b then _ else _) => destruct b
  | |- keeps_counters (match ?x with _ => _ end) => destruct x
  | |- _ => solve [auto with keeps]
  end.

Ltac keeps_auto := repeat keeps_step.

Section Keeps.

Variable env : Env.
Variable cfg : Config.

Lemma keeps_startUploads urls : keeps_counters (startUploads env urls).
Proof. induction urls as [|url rest IH]; cbn [startUploads]; keeps_auto. Qed.

Lemma keeps_Promise_all ps : keeps_counters (Promise_all ps).
Proof.
  unfold Promise_all. destruct (first_rejection ps) as [[[url dt] e]|]; keeps_auto.
Qed.

#[local] Hint Resolve keeps_startUploads keeps_Promise_all : keeps.

Lemma keeps_uploadMedia urls : keeps_counters (uploadMedia env urls).
Proof. unfold uploadMedia. keeps_auto. Qed.

#[local] Hint Resolve keeps_uploadMedia : keeps.

Lemma keeps_mediaIds_of options : keeps_counters (mediaIds_of env options).
Proof. unfold mediaIds_of. keeps_auto. Qed.

#[local] Hint Resolve keeps_mediaIds_of : keeps.

Lemma keeps_postTweet content options : keeps_counters (postTweet env content options).
Proof. unfold postTweet. keeps_auto. Qed.

#[local] Hint Resolve keeps_postTweet : keeps.

Lemma keeps_postTweetWithRetry_loop content fuel :
  forall attempt last, keeps_counters (postTweetWithRetry_loop env cfg content fuel attempt last).
Proof.
  induction fuel as [|fuel IH]; intros attempt last; cbn [postTweetWithRetry_loop];
    keeps_auto.
Qed.

Lemma keeps_postTweetWithRetry content : keeps_counters (postTweetWithRetry env cfg content).
Proof. apply keeps_postTweetWithRetry_loop. Qed.

Lemma keeps_handleAuthError error context : keeps_counters (handleAuthError error context).
Proof. unfold handleAuthError. keeps_auto. Qed.

#[local] Hint Resolve keeps_handleAuthError : keeps.

Lemma keeps_verifyUserAuth : keeps_counters (verifyUserAuth env).
Proof. unfold verifyUserAuth. keeps_auto. Qed.

#[local] Hint Resolve keeps_verifyUserAuth : keeps.

Lemma keeps_initializeWithRetry_loop maxRetries fuel :
  forall attempt, keeps_counters (initializeWithRetry_loop env maxRetries fuel attempt).
Proof.
  induction fuel as [|fuel IH]; intros attempt; cbn [initializeWithRetry_loop];
    keeps_auto.
Qed.

Lemma keeps_initializeWithRetry maxRetries :
  keeps_counters (initializeWithRetry env maxRetries).
Proof. apply keeps_initializeWithRetry_loop. Qed.

#[local] Hint Resolve keeps_initializeWithRetry : keeps.

Lemma keeps_initialize : keeps_counters (initialize env cfg).
Proof. unfold initialize. keeps_auto. Qed.

Lemma keeps_tweet_loop content options fuel :
  forall attempt, keeps_counters (tweet_loop env cfg content options fuel attempt).
Proof.
  induction fuel as [|fuel IH]; intros attempt; cbn [tweet_loop]; keeps_auto.
Qed.

#[local] Hint Resolve keeps_tweet_loop : keeps.

Lemma keeps_tweet content options : keeps_counters (tweet env cfg content options).
Proof. unfold tweet. keeps_auto. Qed.

#[local] Hint Resolve keeps_tweet : keeps.

Lemma keeps_setupStreamRules : keeps_counters (setupStreamRules env).
Proof. unfold setupStreamRules. keeps_auto. Qed.

Lemma keeps_handleStreamSetupError error : keeps_counters (handleStreamSetupError error).
Proof. unfold handleStreamSetupError. keeps_auto. Qed.

#[local] Hint Resolve keeps_setupStreamRules keeps_handleStreamSetupError : keeps.

Lemma keeps_startStream : keeps_counters (startStream env).
Proof. unfold startStream. keeps_auto. Qed.

#[local] Hint Resolve keeps_startStream : keeps.

Lemma keeps_handleStreamData tweet_ : keeps_counters (handleStreamData env cfg tweet_).
Proof. unfold handleStreamData. keeps_auto. Qed.

Lemma keeps_handleStreamError error : keeps_counters (handleStreamError cfg error).
Proof. unfold handleStreamError. keeps_auto. Qed.

Lemma keeps_streamRestartTimer : keeps_counters (streamRestartTimer env).
Proof. unfold streamRestartTimer. keeps_auto. Qed.

Lemma keeps_marketTweet token prompt : keeps_counters (marketTweet env cfg token prompt).
Proof. unfold marketTweet. keeps_auto. Qed.

#[local] Hint Resolve keeps_marketTweet : keeps.

Lemma keeps_startMarketUpdates tokenAddress interval :
  keeps_counters (startMarketUpdates env tokenAddress interval).
Proof. unfold startMarketUpdates. keeps_auto. Qed.

Lemma keeps_stopMarketUpdates : keeps_counters (stopMarketUpdates env).
Proof.
  intros w. unfold stopMarketUpdates, bind, get_this, put_this, ret, platform.
  destruct (marketUpdateInterval (this w)); cbn; destruct (cleanup env _ _); reflexivity.
Qed.

(** No entry into the service changes the counters. *)
Lemma keeps_invoke e : keeps_counters (invoke env cfg e).
Proof.
  destruct e; cbn [invoke];
    first [ apply keeps_postTweetWithRetry | apply keeps_initialize
          | apply keeps_handleStreamData | apply keeps_handleStreamError
          | apply keeps_streamRestartTimer | apply keeps_startMarketUpdates
          | apply keeps_stopMarketUpdates
          | unfold onSignificantMovement, onAlertTriggered, marketUpdateTick,
              publishMarketUpdate, stop; keeps_auto ].
Qed.

End Keeps.

(** C10.  In every state the service can reach from its constructor,
    [getTweetCount] returns 0 and [getRemainingTweets] returns 3000: no entry
    into the service writes [tweetCount] or [MONTHLY_TWEET_LIMIT]. *)
Theorem tweet_count_stays_zero env cfg w :
  reachable env cfg w ->
  getTweetCount (this w) = 0 /\ getRemainingTweets (this w) = 3000.
Proof.
  intros H.
  assert (Hc : counters (this w) = (0, 3000)).
  { induction H as [raw fields t0 Hnew | w e r w' _ IH Hinv].
    - unfold constructor in Hnew. destruct (validateConfig raw); try discriminate.
      injection Hnew as _ <-. reflexivity.
    - pose proof (keeps_invoke env cfg e w) as Hk. rewrite Hinv in Hk. cbn in Hk.
      congruence. }
  unfold counters in Hc. injection Hc as Ht Hm.
  unfold getRemainingTweets, getTweetCount. rewrite Ht, Hm. split; reflexivity.
Qed.

Lemma tweet_count_stays_zero_witness :
  getTweetCount (this (snd (invoke env_accepting default_config
                              (E_tweet (lit "gm") no_options) (new_world 0)))) = 0
  /\ getRemainingTweets (this (snd (invoke env_accepting default_config
                                      (E_tweet (lit "gm") no_options) (new_world 0))))
     = 3000.
Proof.
  apply (tweet_count_stays_zero env_accepting default_config).
  apply (reachable_invoke env_accepting default_config (new_world 0)
           (E_tweet (lit "gm") no_options)
           (fst (invoke env_accepting default_config (E_tweet (lit "gm") no_options)
                   (new_world 0)))).
  - apply (reachable_new env_accepting default_config credentials_only new_fields 0).
    reflexivity.
  - apply surjective_pairing.
Defined.

End TwitterServiceFacts.

(** * Further properties of TwitterService *)
Module TwitterServiceMore.

Import TwitterService Scenarios TwitterServiceFacts.
Open Scope js_scope.

Lemma tw_added_appended A (m : M A) w new :
  log (snd (m w)) = log w ++ new -> added m w = new.
Proof. intros H. unfold added. rewrite H. apply JsFacts.skipn_appended. Qed.

(** ** Construction *)

(** X1.  The constructor builds a service exactly when none of the eight
    required fields is missing or empty; [baseUrl] is among them, although
    the constructor has a default for it. *)
Theorem constructor_requires_all_fields raw :
  (exists cfg fields, constructor raw = Ok (cfg, fields))
  <-> (apiKey raw <> EmptyString /\ apiSecret raw <> EmptyString
       /\ accessToken raw <> EmptyString /\ accessSecret raw <> EmptyString
       /\ bearerToken raw <> EmptyString
       /\ oauthClientId raw <> EmptyString /\ oauthClientSecret raw <> EmptyString
       /\ baseUrl raw <> EmptyString).
Proof.
  unfold constructor, validateConfig.
  destruct (apiKey raw), (apiSecret raw), (accessToken raw), (accessSecret raw),
    (bearerToken raw), (oauthClientId raw), (oauthClientSecret raw), (baseUrl raw);
    cbn; split;
    try (intros (cfg & fields & H); discriminate H);
    try (intros H; decompose [and] H; congruence);
    try (intros _; eexists; eexists; reflexivity);
    try (intros _; repeat split; discriminate).
Qed.

(** ** Counting emoji and hashtags *)

Lemma code_points_cons u s :
  is_high_surrogate u = false -> code_points (u :: s) = u :: code_points s.
Proof.
  intros Hu. destruct s as [|v s']; [reflexivity|].
  change (code_points (u :: v :: s'))
    with (if is_high_surrogate u && is_low_surrogate v
          then (0x10000 + (u - 0xD800) * 0x400 + (v - 0xDC00)) :: code_points s'
          else u :: code_points (v :: s')).
  now rewrite Hu.
Qed.

Lemma plain_unit_not_high u : plain_unit u = true -> is_high_surrogate u = false.
Proof.
  unfold plain_unit, is_high_surrogate. intros Hu.
  destruct (Z.leb_spec 0xD800 u); [|reflexivity].
  destruct (Z.ltb_spec u 0xD800); [lia|]. rewrite andb_false_r in Hu. discriminate.
Qed.

Lemma code_points_plain s :
  Forall (fun u => plain_unit u = true) s -> code_points s = s.
Proof.
  induction 1 as [|u s Hu Hs IH]; [reflexivity|].
  rewrite code_points_cons by (apply plain_unit_not_high; assumption).
  now rewrite IH.
Qed.

Lemma code_points_emojis cs s :
  Forall (fun c => is_emoji c = true) cs ->
  code_points (emojis cs ++ s) = cs ++ code_points s.
Proof.
  induction 1 as [|c cs Hc Hcs IH]; [reflexivity|].
  unfold emojis in *. cbn [flat_map emoji_units app].
  change (code_points (0xD83D :: 0xDE00 + (c - 0x1F600) :: ?l))
    with (if is_high_surrogate 0xD83D && is_low_surrogate (0xDE00 + (c - 0x1F600))
          then (0x10000 + (0xD83D - 0xD800) * 0x400 + (0xDE00 + (c - 0x1F600) - 0xDC00))
                 :: code_points l
          else 0xD83D :: code_points (0xDE00 + (c - 0x1F600) :: l)).
  unfold is_emoji in Hc. apply andb_prop in Hc. destruct Hc as [Hlo Hhi].
  apply Z.leb_le in Hlo, Hhi.
  unfold is_high_surrogate, is_low_surrogate.
  destruct (Z.leb_spec 0xD800 0xD83D); [|lia].
  destruct (Z.leb_spec 0xD83D 0xDBFF); [|lia].
  destruct (Z.leb_spec 0xDC00 (0xDE00 + (c - 0x1F600))); [|lia].
  destruct (Z.leb_spec (0xDE00 + (c - 0x1F600)) 0xDFFF); [|lia].
  cbn [andb]. rewrite IH. cbn [app]. f_equal. lia.
Qed.

Lemma filter_all A (f : A -> bool) l :
  Forall (fun x => f x = true) l -> filter f l = l.
Proof. induction 1 as [|x l Hx _ IH]; cbn; [|rewrite Hx, IH]; reflexivity. Qed.

Lemma filter_none A (f : A -> bool) l :
  Forall (fun x => f x = false) l -> filter f l = [].
Proof. induction 1 as [|x l Hx _ IH]; cbn; [|rewrite Hx, IH]; reflexivity. Qed.

Lemma emoji_count_emojis cs plain :
  Forall (fun c => is_emoji c = true) cs ->
  Forall (fun u => plain_unit u = true) plain ->
  count_code_points_in 0x1F600 0x1F64F (emojis cs ++ plain) = Z.of_nat (List.length cs).
Proof.
  intros Hcs Hplain.
  change (count_code_points_in 0x1F600 0x1F64F (emojis cs ++ plain))
    with (Z.of_nat (List.length (filter is_emoji (code_points (emojis cs ++ plain))))).
  rewrite code_points_emojis, code_points_plain by assumption.
  rewrite filter_app, (filter_all _ _ cs Hcs), filter_none, app_nil_r; [reflexivity|].
  eapply Forall_impl; [|exact Hplain]. cbv beta. intros u Hu. unfold plain_unit in Hu.
  unfold is_emoji.
  destruct (Z.leb_spec 0x1F600 u); [|reflexivity].
  destruct (Z.ltb_spec u 0xD800); [lia|]. rewrite andb_false_r in Hu. discriminate.
Qed.

Lemma hashtag_count_emojis cs plain :
  Forall (fun c => is_emoji c = true) cs ->
  Forall (fun u => plain_unit u = true) plain ->
  count_code_unit 35 (emojis cs ++ plain) = 0.
Proof.
  intros Hcs Hplain. unfold count_code_unit.
  rewrite filter_none; [reflexivity|].
  apply Forall_app. split.
  - unfold emojis. induction Hcs as [|c cs Hc _ IH]; [constructor|].
    cbn [flat_map emoji_units app].
    unfold is_emoji in Hc. apply andb_prop in Hc. destruct Hc as [Hlo Hhi].
    apply Z.leb_le in Hlo, Hhi.
    constructor; [reflexivity|]. constructor; [|exact IH].
    apply Z.eqb_neq. lia.
  - eapply Forall_impl; [|exact Hplain]. cbv beta. intros u Hu. unfold plain_unit in Hu.
    destruct (Z.eqb_spec u 35) as [Heq|Hne]; [rewrite andb_false_r in Hu; discriminate|].
    apply Z.eqb_neq. congruence.
Qed.

(** X2.  For content made of [n] emoji of the range U+1F600..U+1F64F, each a
    surrogate pair, followed by code units below the surrogates without [#],
    validation depends on [n] alone: it fails with the emoji error when [n]
    exceeds [maxEmojis] and passes otherwise, [n = maxEmojis] included. *)
Theorem validateTweetContent_emoji_boundary cfg cs plain :
  Forall (fun c => is_emoji c = true) cs ->
  Forall (fun u => plain_unit u = true) plain ->
  0 <= maxHashtags (contentRules cfg) ->
  validateTweetContent cfg (emojis cs ++ plain)
  = if maxEmojis (contentRules cfg) <? Z.of_nat (List.length cs)
    then Throw (Error ("Tweet contains too many emojis. Maximum allowed is "
                       ++ show (maxEmojis (contentRules cfg)) ++ ".")%string)
    else Ok tt.
Proof.
  intros Hcs Hplain Hh. unfold validateTweetContent.
  rewrite emoji_count_emojis, hashtag_count_emojis by assumption.
  destruct (_ <? Z.of_nat _); [reflexivity|].
  destruct (Z.ltb_spec (maxHashtags (contentRules cfg)) 0); [lia|reflexivity].
Qed.

Lemma validateTweetContent_emoji_boundary_witness :
  validateTweetContent default_config (emojis [0x1F600] ++ lit "gm")
  = if maxEmojis (contentRules default_config) <? Z.of_nat (List.length [0x1F600])
    then Throw (Error ("Tweet contains too many emojis. Maximum allowed is "
                       ++ show (maxEmojis (contentRules default_config)) ++ ".")%string)
    else Ok tt.
Proof.
  apply (validateTweetContent_emoji_boundary default_config [0x1F600] (lit "gm")).
  - repeat constructor.
  - repeat constructor.
  - vm_compute. discriminate.
Defined.

(** ** Uploading media *)

Lemma external_calls_app l1 l2 :
  external_calls (l1 ++ l2) = external_calls l1 ++ external_calls l2.
Proof. apply flat_map_app. Qed.

Lemma startUploads_log env urls :
  forall w, exists ps w' new,
    startUploads env urls w = (Ok ps, w')
    /\ log w' = log w ++ new
    /\ external_calls new = map V1_uploadMedia urls
    /\ List.length ps = List.length urls
    /\ calls w' = (calls w + List.length urls)%nat.
Proof.
  induction urls as [|url rest IH]; intros w.
  - exists [], w, []. cbn. rewrite app_nil_r, Nat.add_0_r. auto.
  - cbn [startUploads]. unfold bind at 1, start_call. unfold bind at 1.
    match goal with |- context [startUploads env rest ?w1] =>
      destruct (IH w1) as (ps & w' & new & E & Hlog & Hc & Hl & Hn) end.
    rewrite E. cbn [ret].
    eexists (_ :: ps), w', (EvCall (now w) (V1_uploadMedia url) :: new).
    split; [reflexivity|]. cbn [log] in Hlog. rewrite Hlog, <- app_assoc.
    cbn [calls] in Hn. rewrite Hn.
    split; [reflexivity|]. split; [|split; [cbn [List.length]; lia|cbn [List.length]; lia]].
    change (V1_uploadMedia url :: external_calls new
            = V1_uploadMedia url :: map V1_uploadMedia rest).
    now rewrite Hc.
Qed.

Lemma fulfilled_values_length ps :
  first_rejection ps = None -> List.length (fulfilled_values ps) = List.length ps.
Proof.
  induction ps as [|[url [dt [v|e]]] rest IH]; cbn [first_rejection]; intros H.
  - reflexivity.
  - cbn. f_equal. apply IH. exact H.
  - destruct (first_rejection rest) as [[[url' dt'] e']|]; [|discriminate].
    destruct (dt' <? dt)%nat; discriminate.
Qed.

Lemma Promise_all_log ps w :
  exists new,
    log (snd (Promise_all ps w)) = log w ++ new
    /\ external_calls new = []
    /\ calls (snd (Promise_all ps w)) = calls w
    /\ forall l, fst (Promise_all ps w) = Ok l -> List.length l = List.length ps.
Proof.
  unfold Promise_all. destruct (first_rejection ps) as [[[url dt] e]|] eqn:F.
  - eexists [_]. cbn. repeat split. discriminate.
  - exists []. cbn. rewrite app_nil_r. repeat split.
    intros l [= <-]. apply fulfilled_values_length. exact F.
Qed.

(** X3.  [uploadMedia] uploads the first four URLs and no other: the calls
    it issues are the uploads of [urls.slice(0, 4)], in order, all of them
    whether or not one fails, and a successful result has one id for each. *)
Theorem uploadMedia_first_four env urls w :
  external_calls (added (uploadMedia env urls) w) = map V1_uploadMedia (firstn 4 urls)
  /\ calls (snd (uploadMedia env urls w)) = (calls w + Nat.min 4 (List.length urls))%nat
  /\ forall ids, fst (uploadMedia env urls w) = Ok ids ->
                 List.length ids = Nat.min 4 (List.length urls).
Proof.
  destruct (startUploads_log env (firstn 4 urls) w)
    as (ps & w' & new & E & Hlog & Hc & Hl & Hn).
  rewrite length_firstn in Hl, Hn.
  destruct (Promise_all_log ps w') as (new' & Hlog' & Hc' & Hn' & Hlen).
  assert (HR : uploadMedia env urls w
               = match Promise_all ps w' with
                 | (Throw e, w2) =>
                     (Throw e,
                      set_log (log w2 ++ [EvError (now w2) "Failed to upload media:" e]) w2)
                 | other => other
                 end).
  { unfold uploadMedia, try_catch. unfold bind at 1. rewrite E.
    destruct (Promise_all ps w') as [[ids|e|] w2]; reflexivity. }
  unfold added. rewrite HR.
  destruct (Promise_all ps w') as [[ids|e|] w2]; cbn [fst snd log calls set_log] in *.
  - rewrite Hlog', Hlog, <- app_assoc, JsFacts.skipn_appended, external_calls_app, Hc, Hc'.
    rewrite app_nil_r. split; [reflexivity|]. split; [rewrite Hn', Hn; reflexivity|].
    intros ids' Hi. injection Hi as Hi. subst ids'.
    rewrite (Hlen ids eq_refl). exact Hl.
  - rewrite Hlog', Hlog, <- !app_assoc, JsFacts.skipn_appended, !external_calls_app, Hc, Hc'.
    cbn. rewrite app_nil_r. split; [reflexivity|]. split; [rewrite Hn', Hn; reflexivity|]. discriminate.
  - rewrite Hlog', Hlog, <- app_assoc, JsFacts.skipn_appended, external_calls_app, Hc, Hc'.
    rewrite app_nil_r. split; [reflexivity|]. split; [rewrite Hn', Hn; reflexivity|]. discriminate.
Qed.

(** ** The retry wrapper, whatever the platform does *)

Lemma attempts_sleeps ss :
  Forall (fun ev => exists t ms, ev = EvSleep t ms) ss -> attempts ss = 0%nat.
Proof.
  induction 1 as [|ev l (t & ms & ->) _ IH]; [reflexivity|exact IH].
Qed.

Lemma sleeps_calls mid :
  Forall (fun ev => exists t c, ev = EvCall t c) mid -> sleeps mid = [].
Proof.
  induction 1 as [|ev l (t & c & ->) _ IH]; [reflexivity|exact IH].
Qed.

(** A try issues at most one platform call and arms no timer. *)
Lemma attempt_op_calls env cfg content attempt w r w1 :
  attempt_op env cfg content attempt w = (r, w1) ->
  (calls w1 <= S (calls w))%nat /\ timers w1 = timers w.
Proof.
  unfold attempt_op, bind, emit. intros E.
  assert (C : content = [] \/ content <> []) by (destruct content; [left|right]; congruence).
  destruct C as [C|C].
  - rewrite postTweet_empty in E by assumption. injection E as _ <-. cbn. lia.
  - destruct (Z.ltb_spec 280 (Z.of_nat (List.length content))) as [Hl|Hl].
    + rewrite postTweet_overlong in E by assumption. injection E as _ <-. cbn. lia.
    + rewrite postTweet_valid in E by assumption.
      destruct (snd (v2_tweet env _ _ _)); injection E as _ <-; cbn; lia.
Qed.

(** What the loop does between a failed try and the next evaluation of its
    guard: at most one sleep. *)
Lemma loop_between_tries env cfg content fuel attempt last w e w1 :
  attempt < maxRetries cfg ->
  attempt_op env cfg content attempt w = (Throw e, w1) ->
  exists w2,
    postTweetWithRetry_loop env cfg content (S fuel) attempt last w
    = postTweetWithRetry_loop env cfg content fuel (attempt + 1) (Some e) w2
    /\ calls w2 = calls w1
    /\ exists ss,
         log w2 = log w1 ++ ss
         /\ Forall (fun ev => exists t ms, ev = EvSleep t ms) ss
         /\ sleeps ss
            = match rate_limit_wait e (now w1) with
              | Some ms => [ms]
              | None => if attempt + 1 <? maxRetries cfg
                        then [retryDelay cfg * 2 ^ (attempt + 1)] else []
              end.
Proof.
  intros Hlt E.
  destruct (rate_limit_wait e (now w1)) as [ms|] eqn:R.
  - rewrite (loop_rate_limit _ _ _ _ _ _ _ _ _ _ Hlt E R).
    unfold bind at 1, delay, sleep at 1.
    eexists. split; [reflexivity|]. cbn [calls log]. split; [reflexivity|].
    eexists. split; [reflexivity|]. split; [repeat constructor; eauto|reflexivity].
  - rewrite (loop_backoff _ _ _ _ _ _ _ _ _ Hlt E R).
    unfold bind at 1.
    destruct (attempt + 1 <? maxRetries cfg).
    + unfold delay, sleep at 1.
      eexists. split; [reflexivity|]. cbn [calls log]. split; [reflexivity|].
      eexists. split; [reflexivity|]. split; [repeat constructor; eauto|reflexivity].
    + unfold ret at 1.
      exists w1. split; [reflexivity|]. split; [reflexivity|].
      exists []. split; [now rewrite app_nil_r|]. split; [constructor|reflexivity].
Qed.

Lemma postTweetWithRetry_loop_bounded env cfg content fuel :
  forall attempt last w,
    (Z.to_nat (maxRetries cfg - attempt) < fuel)%nat ->
    exists new,
      log (snd (postTweetWithRetry_loop env cfg content fuel attempt last w)) = log w ++ new
      /\ (attempts new <= Z.to_nat (maxRetries cfg - attempt))%nat
      /\ (calls (snd (postTweetWithRetry_loop env cfg content fuel attempt last w))
          <= calls w + Z.to_nat (maxRetries cfg - attempt))%nat
      /\ (fst (postTweetWithRetry_loop env cfg content fuel attempt last w) = Ok tt
          \/ exists last',
               fst (postTweetWithRetry_loop env cfg content fuel attempt last w)
               = Throw (retries_exhausted cfg last')).
Proof.
  induction fuel as [|fuel IH]; intros attempt last w Hfuel; [lia|].
  destruct (Z.lt_ge_cases attempt (maxRetries cfg)) as [Hlt|Hge].
  - destruct (attempt_op env cfg content attempt w) as [r w1] eqn:E.
    pose proof (attempt_op_inv _ _ _ _ _ _ _ E) as (_ & _ & Hr & mid & Hmid & Hlog1).
    pose proof (attempt_op_attempts _ _ _ _ _ _ _ E) as Hat1.
    pose proof (attempt_op_calls _ _ _ _ _ _ _ E) as [Hc1 _].
    destruct r as [[]|e|]; [|..|congruence].
    + rewrite (loop_ok _ _ _ _ _ _ _ _ Hlt E). cbn [fst snd].
      eexists. split; [exact Hlog1|].
      assert (Hnew : attempts (log w1) = (attempts (log w) + 1)%nat) by lia.
      rewrite Hlog1, attempts_app in Hnew.
      repeat split; [lia | lia | left; reflexivity].
    + destruct (loop_between_tries env cfg content fuel attempt last w e w1 Hlt E)
        as (w2 & -> & Hc2 & ss & Hlog2 & Hss & _).
      destruct (IH (attempt + 1) (Some e) w2) as (new & Hlog & Hat & Hc & Hres); [lia|].
      exists (EvAttempt (now w) (attempt + 1) (maxRetries cfg)
                :: mid ++ [EvError (now w1) "Failed to post tweet:" e] ++ ss ++ new).
      split.
      { rewrite Hlog, Hlog2, Hlog1. rewrite <- !app_assoc. cbn. rewrite <- !app_assoc.
        reflexivity. }
      split.
      { change (EvAttempt ?t ?n ?m :: ?l) with ([EvAttempt t n m] ++ l).
        rewrite !attempts_app, (attempts_calls mid Hmid), (attempts_sleeps ss Hss).
        cbn. lia. }
      split; [lia|exact Hres].
  - rewrite loop_exit by assumption. cbn [fst snd].
    exists []. rewrite app_nil_r. cbn. repeat split; try lia. right. eauto.
Qed.

(** X4.  Whatever the platform answers, [postTweetWithRetry] announces at
    most [maxRetries] tries and issues at most as many platform calls; it
    either succeeds or throws its own terminal error, never the error of a
    failed try itself. *)
Theorem postTweetWithRetry_bounded env cfg content w :
  (attempts (added (postTweetWithRetry env cfg content) w) <= Z.to_nat (maxRetries cfg))%nat
  /\ (calls (snd (postTweetWithRetry env cfg content w))
      <= calls w + Z.to_nat (maxRetries cfg))%nat
  /\ (fst (postTweetWithRetry env cfg content w) = Ok tt
      \/ exists last,
           fst (postTweetWithRetry env cfg content w) = Throw (retries_exhausted cfg last)).
Proof.
  unfold postTweetWithRetry at 1 2 3 4, added.
  destruct (postTweetWithRetry_loop_bounded env cfg content
              (S (Z.to_nat (maxRetries cfg))) 0 None w)
    as (new & Hlog & Hat & Hc & Hres); [rewrite Z.sub_0_r; lia|].
  rewrite Z.sub_0_r in *.
  unfold postTweetWithRetry. rewrite Hlog, JsFacts.skipn_appended. auto.
Qed.

(** ** The backoff schedule *)

Lemma sleeps_attempt_op env cfg content attempt w r w1 :
  attempt_op env cfg content attempt w = (r, w1) ->
  sleeps (log w1) = sleeps (log w).
Proof.
  intros E. apply attempt_op_inv in E.
  destruct E as (_ & _ & _ & mid & Hmid & ->).
  change (EvAttempt ?t ?n ?m :: ?l) with ([EvAttempt t n m] ++ l).
  rewrite !sleeps_app, (sleeps_calls mid Hmid).
  destruct r; cbn; now rewrite app_nil_r.
Qed.

Lemma loop_backoff_schedule env cfg content :
  always_fails_otherwise env content ->
  forall fuel attempt last w,
    0 <= attempt < maxRetries cfg ->
    (Z.to_nat (maxRetries cfg - attempt) < fuel)%nat ->
    sleeps (log (snd (postTweetWithRetry_loop env cfg content fuel attempt last w)))
    = sleeps (log w)
      ++ map (fun k => retryDelay cfg * 2 ^ Z.of_nat k)
             (seq (S (Z.to_nat attempt)) (Z.to_nat (maxRetries cfg - attempt) - 1)).
Proof.
  intros H fuel. induction fuel as [|fuel IH]; intros attempt last w Hlt Hfuel; [lia|].
  destruct (attempt_op env cfg content attempt w) as [r w1] eqn:E.
  assert (Hr : exists e, r = Throw e /\ is_rate_limit_error e = false).
  { unfold attempt_op, bind, emit in E.
    match type of E with postTweet _ _ _ ?w0 = _ => destruct (H w0) as (e & w1' & E1 & He) end.
    rewrite E1 in E. injection E as <- _. eauto. }
  destruct Hr as (e & -> & He).
  pose proof (sleeps_attempt_op _ _ _ _ _ _ _ E) as Hs1.
  rewrite (loop_backoff env cfg content fuel attempt last w w1 e)
    by (lia || assumption || apply not_rate_limit_no_wait; assumption).
  unfold bind at 1.
  destruct (Z.ltb_spec (attempt + 1) (maxRetries cfg)) as [Hmore|Hlast].
  - unfold delay, sleep at 1.
    rewrite IH by lia. cbn [log]. rewrite sleeps_app, Hs1, <- app_assoc. f_equal.
    replace (Z.to_nat (maxRetries cfg - attempt) - 1)%nat
      with (S (Z.to_nat (maxRetries cfg - (attempt + 1)) - 1)) by lia.
    cbn [seq map sleeps flat_map app].
    replace (Z.to_nat (attempt + 1)) with (S (Z.to_nat attempt)) by lia.
    f_equal. f_equal. f_equal. lia.
  - unfold ret at 1.
    destruct fuel as [|fuel]; [lia|].
    rewrite loop_exit by lia. cbn [snd].
    replace (Z.to_nat (maxRetries cfg - attempt) - 1)%nat with 0%nat by lia.
    cbn. now rewrite app_nil_r.
Qed.

Lemma sleeps_added A (m : M A) w new :
  log (snd (m w)) = log w ++ new -> sleeps (log (snd (m w))) = sleeps (log w) ++ sleeps new.
Proof. intros ->. apply sleeps_app. Qed.

Lemma postTweetWithRetry_log env cfg content w :
  exists new, log (snd (postTweetWithRetry env cfg content w)) = log w ++ new.
Proof.
  destruct (postTweetWithRetry env cfg content w) as [r w'] eqn:E.
  unfold postTweetWithRetry in E. apply postTweetWithRetry_loop_log in E.
  destruct E as (new & Hlog & _). eauto.
Qed.

(** X5.  When every try fails with an error other than a rate-limit error,
    the waits between the tries of [postTweetWithRetry] are
    [retryDelay * 2], [retryDelay * 4], ..., [retryDelay * 2 ^ (maxRetries - 1)]:
    one after each failed try but the last, after which the terminal error is
    thrown at once. *)
Theorem postTweetWithRetry_backoff_schedule env cfg content w :
  0 < maxRetries cfg ->
  always_fails_otherwise env content ->
  sleeps (added (postTweetWithRetry env cfg content) w)
  = exponential_backoff (retryDelay cfg) (Z.to_nat (maxRetries cfg) - 1).
Proof.
  intros Hpos H.
  destruct (postTweetWithRetry_log env cfg content w) as (new & Hlog).
  rewrite (tw_added_appended _ _ _ _ Hlog).
  pose proof (sleeps_added _ _ _ _ Hlog) as Hs.
  unfold postTweetWithRetry in Hs at 1.
  rewrite (loop_backoff_schedule env cfg content H) in Hs by (rewrite ?Z.sub_0_r; lia).
  apply app_inv_head in Hs. rewrite <- Hs, Z.sub_0_r. reflexivity.
Qed.

Lemma postTweetWithRetry_backoff_schedule_witness :
  sleeps (added (postTweetWithRetry env_500 default_config (lit "gm")) (new_world 0))
  = exponential_backoff (retryDelay default_config)
                        (Z.to_nat (maxRetries default_config) - 1).
Proof.
  apply (postTweetWithRetry_backoff_schedule env_500 default_config (lit "gm") (new_world 0)).
  - reflexivity.
  - intros w. eexists. eexists. split; reflexivity.
Defined.

(** ** Content that [postTweet] rejects *)

Lemma postTweet_rejected env content e w :
  postTweet_rejection content = Some e ->
  postTweet env content no_options w = (Throw e, reported e w)
  /\ is_rate_limit_error e = false.
Proof.
  unfold postTweet_rejection. destruct content as [|c rest] eqn:Ec.
  - intros [= <-]. split; reflexivity.
  - rewrite <- Ec. destruct (Z.ltb_spec 280 (Z.of_nat (List.length content))); [|discriminate].
    intros [= <-]. split; [|reflexivity]. now apply postTweet_overlong.
Qed.

Lemma loop_rejected_content env cfg content e :
  postTweet_rejection content = Some e ->
  forall fuel attempt last w,
    attempt < maxRetries cfg ->
    (Z.to_nat (maxRetries cfg - attempt) < fuel)%nat ->
    fst (postTweetWithRetry_loop env cfg content fuel attempt last w)
    = Throw (retries_exhausted cfg (Some e))
    /\ calls (snd (postTweetWithRetry_loop env cfg content fuel attempt last w)) = calls w
    /\ attempts (log (snd (postTweetWithRetry_loop env cfg content fuel attempt last w)))
       = (attempts (log w) + Z.to_nat (maxRetries cfg - attempt))%nat.
Proof.
  intros Hrej fuel. induction fuel as [|fuel IH]; intros attempt last w Hlt Hfuel; [lia|].
  destruct (attempt_op env cfg content attempt w) as [r w1] eqn:E.
  pose proof (attempt_op_attempts _ _ _ _ _ _ _ E) as Hat1.
  assert (E' := E). unfold attempt_op, bind, emit in E'.
  match type of E' with postTweet _ _ _ ?w0 = _ =>
    destruct (postTweet_rejected env content e w0 Hrej) as [E1 He] end.
  rewrite E1 in E'. injection E' as <- <-.
  rewrite (loop_backoff env cfg content fuel attempt last w _ e Hlt E
             (not_rate_limit_no_wait _ _ He)).
  unfold bind at 1 2 3.
  destruct (Z.ltb_spec (attempt + 1) (maxRetries cfg)) as [Hmore|Hlast].
  - unfold delay, sleep at 1 2 3.
    match goal with |- context [postTweetWithRetry_loop _ _ _ _ _ _ ?w2] =>
      destruct (IH (attempt + 1) (Some e) w2) as (Hr & Hc & Ha); [lia|lia|] end.
    rewrite Hr, Hc, Ha. cbn [calls log reported set_log] in *.
    rewrite attempts_app, Hat1. cbn. repeat split; lia.
  - unfold ret at 1 2 3.
    destruct fuel as [|fuel]; [lia|].
    rewrite loop_exit by lia. cbn [fst snd calls reported set_log].
    rewrite Hat1. repeat split; lia.
Qed.

(** X6.  Content that [postTweet] rejects, empty or longer than 280 code
    units, is retried like any other failure: [postTweetWithRetry] makes
    [maxRetries] tries, none of which reaches the platform, and throws the
    terminal error with the message of the validation. *)
Theorem postTweetWithRetry_retries_rejected_content env cfg content e w :
  0 < maxRetries cfg ->
  postTweet_rejection content = Some e ->
  fst (postTweetWithRetry env cfg content w)
  = Throw (Error ("Failed to post tweet after " ++ show (maxRetries cfg) ++ " attempts: "
                  ++ or_else (message_of e) "Unknown error")%string)
  /\ calls (snd (postTweetWithRetry env cfg content w)) = calls w
  /\ attempts (log (snd (postTweetWithRetry env cfg content w)))
     = (attempts (log w) + Z.to_nat (maxRetries cfg))%nat.
Proof.
  intros Hpos Hrej. unfold postTweetWithRetry.
  destruct (loop_rejected_content env cfg content e Hrej
              (S (Z.to_nat (maxRetries cfg))) 0 None w) as (Hr & Hc & Ha);
    [lia | rewrite Z.sub_0_r; lia |].
  rewrite Z.sub_0_r in Ha. rewrite Hr, Hc, Ha. repeat split; reflexivity.
Qed.

Lemma postTweetWithRetry_retries_rejected_content_witness :
  fst (postTweetWithRetry env_accepting default_config [] (new_world 0))
  = Throw (Error ("Failed to post tweet after " ++ show (maxRetries default_config)
                  ++ " attempts: "
                  ++ or_else (message_of (Error "Tweet content cannot be empty"))
                             "Unknown error")%string)
  /\ calls (snd (postTweetWithRetry env_accepting default_config [] (new_world 0)))
     = calls (new_world 0)
  /\ attempts (log (snd (postTweetWithRetry env_accepting default_config []
                           (new_world 0))))
     = (attempts (log (new_world 0)) + Z.to_nat (maxRetries default_config))%nat.
Proof.
  apply (postTweetWithRetry_retries_rejected_content env_accepting default_config []
           (Error "Tweet content cannot be empty") (new_world 0));
    reflexivity.
Defined.

(** ** A try that fails, then one that succeeds *)

(** X7.  When the first submission is rejected and the second one accepted,
    [postTweetWithRetry] returns normally after exactly two tries and one
    wait: until the reset if the rate-limit branch applies to the error,
    of [retryDelay * 2] otherwise. *)
Theorem postTweetWithRetry_succeeds_on_second_try env cfg content w e :
  content <> [] ->
  Z.of_nat (List.length content) <= 280 ->
  1 < maxRetries cfg ->
  snd (v2_tweet env (calls w) (now w) (payload_of content)) = Rejected e ->
  (forall t, exists result,
     snd (v2_tweet env (S (calls w)) t (payload_of content)) = Fulfilled result) ->
  fst (postTweetWithRetry env cfg content w) = Ok tt
  /\ attempts (added (postTweetWithRetry env cfg content) w) = 2%nat
  /\ calls (snd (postTweetWithRetry env cfg content w)) = S (S (calls w))
  /\ sleeps (added (postTweetWithRetry env cfg content) w)
     = [match rate_limit_wait e (now w + Z.of_nat (fst (v2_tweet env (calls w) (now w)
                                                          (payload_of content)))) with
        | Some ms => ms
        | None => retryDelay cfg * 2
        end].
Proof.
  intros Hne Hlen Hmax Hrej Hacc.
  destruct (postTweetWithRetry_log env cfg content w) as (new & Hlog).
  rewrite (tw_added_appended _ _ _ _ Hlog).
  pose proof (sleeps_added _ _ _ _ Hlog) as Hs.
  assert (Ha : attempts (log (snd (postTweetWithRetry env cfg content w)))
               = (attempts (log w) + attempts new)%nat)
    by (rewrite Hlog; apply attempts_app).
  clear Hlog. revert Hs Ha. unfold postTweetWithRetry.
  destruct (Z.to_nat (maxRetries cfg)) as [|[|n]] eqn:En; [lia|lia|].
  destruct (attempt_op env cfg content 0 w) as [r w1] eqn:E.
  pose proof (attempt_op_attempts _ _ _ _ _ _ _ E) as Hat1.
  pose proof (sleeps_attempt_op _ _ _ _ _ _ _ E) as Hsl1.
  assert (E' := E). unfold attempt_op, bind, emit in E'.
  rewrite postTweet_valid in E' by assumption. cbn [calls now set_log] in E'.
  rewrite Hrej in E'. injection E' as <- Hw1.
  assert (Hnow1 : now w1 = now w + Z.of_nat (fst (v2_tweet env (calls w) (now w)
                                                   (payload_of content))))
    by (rewrite <- Hw1; reflexivity).
  assert (Hcalls1 : calls w1 = S (calls w)) by (rewrite <- Hw1; reflexivity).
  destruct (loop_between_tries env cfg content (S (S n)) 0 None w e w1 ltac:(lia) E)
    as (w2 & -> & Hc2 & ss & Hlog2 & Hss & Hsleeps).
  destruct (attempt_op env cfg content (0 + 1) w2) as [r2 w3] eqn:E2.
  pose proof (attempt_op_attempts _ _ _ _ _ _ _ E2) as Hat3.
  pose proof (sleeps_attempt_op _ _ _ _ _ _ _ E2) as Hsl3.
  assert (E2' := E2). unfold attempt_op, bind, emit in E2'.
  rewrite postTweet_valid in E2' by assumption. cbn [calls now set_log] in E2'.
  rewrite Hc2, Hcalls1 in E2'.
  destruct (Hacc (now w2)) as [result Hres]. rewrite Hres in E2'.
  injection E2' as <- Hw3.
  rewrite (loop_ok env cfg content (S n) (0 + 1) (Some e) w2 w3 ltac:(lia) E2).
  cbn [fst snd]. intros Hs Ha.
  assert (Hcalls3 : calls w3 = S (S (calls w)))
    by (rewrite <- Hw3; cbn; now rewrite Hc2, Hcalls1).
  rewrite Hsl3, Hlog2, sleeps_app, Hsl1 in Hs. apply app_inv_head in Hs.
  rewrite Hat3, Hlog2, attempts_app, (attempts_sleeps ss Hss), Hat1 in Ha.
  repeat split; [lia | assumption |].
  rewrite <- Hs, Hsleeps, Hnow1.
  match goal with |- context [rate_limit_wait e ?t] => destruct (rate_limit_wait e t) end;
    [reflexivity|].
  destruct (Z.ltb_spec (0 + 1) (maxRetries cfg)); [reflexivity|lia].
Qed.

Lemma postTweetWithRetry_succeeds_on_second_try_witness :
  fst (postTweetWithRetry env_429_once default_config (lit "gm") (new_world 0)) = Ok tt
  /\ attempts (added (postTweetWithRetry env_429_once default_config (lit "gm"))
                     (new_world 0)) = 2%nat
  /\ calls (snd (postTweetWithRetry env_429_once default_config (lit "gm") (new_world 0)))
     = S (S (calls (new_world 0)))
  /\ sleeps (added (postTweetWithRetry env_429_once default_config (lit "gm"))
                   (new_world 0))
     = [match rate_limit_wait (ApiResponseError 429 None true "Too Many Requests")
                (now (new_world 0)
                 + Z.of_nat (fst (v2_tweet env_429_once (calls (new_world 0))
                                    (now (new_world 0)) (payload_of (lit "gm"))))) with
        | Some ms => ms
        | None => retryDelay default_config * 2
        end].
Proof.
  apply (postTweetWithRetry_succeeds_on_second_try env_429_once default_config (lit "gm")
           (new_world 0) (ApiResponseError 429 None true "Too Many Requests")).
  - discriminate.
  - vm_compute. discriminate.
  - reflexivity.
  - reflexivity.
  - intros t. eexists. reflexivity.
Defined.

(** ** No budget *)

(** X8.  With a retry budget of zero or less no try is made: the world is
    left as it is, [postTweetWithRetry] throws its terminal error with
    [Unknown error] for want of a failure, [tweet] (outside mock mode, on
    content that passes validation) throws the terminal error of its loop,
    and so does [initializeWithRetry]. *)
Theorem no_budget_no_try env cfg content options n w :
  maxRetries cfg <= 0 ->
  n <= 0 ->
  mockMode cfg = false ->
  validateTweetContent cfg content = Ok tt ->
  postTweetWithRetry env cfg content w
  = (Throw (Error ("Failed to post tweet after " ++ show (maxRetries cfg)
                   ++ " attempts: Unknown error")%string), w)
  /\ tweet env cfg content options w
     = (Throw (Error ("Failed to post tweet after " ++ show (maxRetries cfg)
                      ++ " attempts")%string), w)
  /\ initializeWithRetry env n w
     = (Throw (Error ("Failed to initialize after " ++ show n ++ " attempts")%string), w).
Proof.
  intros Hmax Hn Hmock Hvalid. repeat split.
  - unfold postTweetWithRetry. rewrite loop_exit by lia. reflexivity.
  - unfold tweet. rewrite Hmock, Hvalid. unfold bind, lift. cbn [tweet_loop].
    destruct (Z.ltb_spec 0 (maxRetries cfg)); [lia|reflexivity].
  - unfold initializeWithRetry. cbn [initializeWithRetry_loop].
    destruct (Z.ltb_spec 0 n); [lia|reflexivity].
Qed.

Lemma no_budget_no_try_witness :
  postTweetWithRetry env_accepting config_without_retries (lit "gm") (new_world 0)
  = (Throw (Error ("Failed to post tweet after " ++ show (maxRetries config_without_retries)
                   ++ " attempts: Unknown error")%string), new_world 0)
  /\ tweet env_accepting config_without_retries (lit "gm") no_options (new_world 0)
     = (Throw (Error ("Failed to post tweet after " ++ show (maxRetries config_without_retries)
                      ++ " attempts")%string), new_world 0)
  /\ initializeWithRetry env_accepting 0 (new_world 0)
     = (Throw (Error ("Failed to initialize after " ++ show 0 ++ " attempts")%string),
        new_world 0).
Proof.
  apply (no_budget_no_try env_accepting config_without_retries (lit "gm") no_options 0
           (new_world 0)).
  - vm_compute. discriminate.
  - lia.
  - reflexivity.
  - reflexivity.
Defined.

(** ** The loop of [tweet] *)

Lemma tweet_loop_ok env cfg content fuel attempt w result :
  attempt < maxRetries cfg ->
  snd (v2_tweet env (calls w) (now w) (payload_of content)) = Fulfilled result ->
  tweet_loop env cfg content no_options (S fuel) attempt w
  = (Ok result, after_call env content w).
Proof.
  intros Hlt Hacc. cbn [tweet_loop].
  destruct (Z.ltb_spec attempt (maxRetries cfg)); [|lia].
  unfold bind at 1, settle, bind at 1, mediaIds_of, no_options, mediaUrls, ret at 1.
  unfold platform, media_of, replyToTweetId, truthy_string.
  fold (payload_of content).
  destruct (v2_tweet env (calls w) (now w) (payload_of content)) as [dt r] eqn:Ev.
  cbn [snd] in Hacc. subst r. cbn [outcome].
  unfold after_call. rewrite Ev. reflexivity.
Qed.

Lemma tweet_loop_give_up env cfg content fuel attempt w e :
  attempt < maxRetries cfg ->
  snd (v2_tweet env (calls w) (now w) (payload_of content)) = Rejected e ->
  shouldRetry cfg e (attempt + 1) = false ->
  tweet_loop env cfg content no_options (S fuel) attempt w
  = (Throw e, reported e (after_call env content w)).
Proof.
  intros Hlt Hrej Hretry. cbn [tweet_loop].
  destruct (Z.ltb_spec attempt (maxRetries cfg)); [|lia].
  unfold bind at 1, settle, bind at 1, mediaIds_of, no_options, mediaUrls, ret at 1.
  unfold platform, media_of, replyToTweetId, truthy_string.
  fold (payload_of content).
  destruct (v2_tweet env (calls w) (now w) (payload_of content)) as [dt r] eqn:Ev.
  cbn [snd] in Hrej. subst r. cbn [outcome].
  rewrite Hretry. unfold after_call. rewrite Ev. reflexivity.
Qed.

Lemma tweet_loop_throw_reported env cfg content options fuel :
  forall attempt w e w',
    attempt < maxRetries cfg ->
    tweet_loop env cfg content options fuel attempt w = (Throw e, w') ->
    exists l t, log w' = l ++ [EvError t "Failed to post tweet:" e].
Proof.
  induction fuel as [|fuel IH]; intros attempt w e w' Hlt E; [discriminate|].
  cbn [tweet_loop] in E.
  destruct (Z.ltb_spec attempt (maxRetries cfg)); [|lia].
  unfold bind at 1, settle in E.
  match type of E with context [bind (mediaIds_of env options) ?k w] =>
    destruct (bind (mediaIds_of env options) k w) as [[result|error|] w1] end;
    cbn in E; try discriminate.
  destruct (shouldRetry cfg error (attempt + 1)) eqn:Hretry.
  - unfold bind, delay, sleep in E.
    apply IH in E; [exact E|].
    unfold shouldRetry in Hretry. apply andb_prop in Hretry. destruct Hretry as [H1 _].
    now apply Z.ltb_lt in H1.
  - unfold bind, emit, throw in E. injection E as <- <-.
    eexists. eexists. reflexivity.
Qed.

(** X9.  Outside mock mode and with a positive budget, an error thrown by
    [tweet] is either the error of the validation, with nothing done, or the
    error of the failed submission or upload that ended the loop, reported
    last in the log: the terminal error of the loop is never what a caller
    sees. *)
Theorem tweet_rethrows_the_failure env cfg content options w e w' :
  mockMode cfg = false ->
  0 < maxRetries cfg ->
  tweet env cfg content options w = (Throw e, w') ->
  (validateTweetContent cfg content = Throw e /\ w' = w)
  \/ (validateTweetContent cfg content = Ok tt
      /\ exists l t, log w' = l ++ [EvError t "Failed to post tweet:" e]).
Proof.
  intros Hmock Hpos E. unfold tweet in E. rewrite Hmock in E.
  unfold bind, lift in E.
  destruct (validateTweetContent cfg content) as [[]|e0|] eqn:Hv.
  - right. split; [reflexivity|].
    eapply tweet_loop_throw_reported; [|exact E]. lia.
  - left. injection E as <- <-. auto.
  - discriminate.
Qed.

Lemma tweet_rethrows_the_failure_witness :
  (validateTweetContent default_config (lit "gm")
   = Throw (ApiResponseError 500 None false "Internal Server Error")
   /\ snd (tweet env_500 default_config (lit "gm") no_options (new_world 0)) = new_world 0)
  \/ (validateTweetContent default_config (lit "gm") = Ok tt
      /\ exists l t,
           log (snd (tweet env_500 default_config (lit "gm") no_options (new_world 0)))
           = l ++ [EvError t "Failed to post tweet:"
                     (ApiResponseError 500 None false "Internal Server Error")]).
Proof.
  apply (tweet_rethrows_the_failure env_500 default_config (lit "gm") no_options
           (new_world 0)); reflexivity.
Defined.

(** X10.  Outside mock mode, when the submission of valid content is
    rejected with an error that [shouldRetry] refuses at the first attempt
    (anything but a rate-limit error, or any error when [maxRetries] is 1),
    [tweet] rethrows that error after this one call, without waiting. *)
Theorem tweet_gives_up_at_once env cfg content w e :
  mockMode cfg = false ->
  validateTweetContent cfg content = Ok tt ->
  0 < maxRetries cfg ->
  snd (v2_tweet env (calls w) (now w) (payload_of content)) = Rejected e ->
  shouldRetry cfg e 1 = false ->
  tweet env cfg content no_options w = (Throw e, reported e (after_call env content w)).
Proof.
  intros Hmock Hvalid Hpos Hrej Hretry. unfold tweet. rewrite Hmock, Hvalid.
  unfold bind at 1, lift.
  apply tweet_loop_give_up; assumption.
Qed.

Lemma tweet_gives_up_at_once_witness :
  tweet env_500 default_config (lit "gm") no_options (new_world 0)
  = (Throw (ApiResponseError 500 None false "Internal Server Error"),
     reported (ApiResponseError 500 None false "Internal Server Error")
       (after_call env_500 (lit "gm") (new_world 0))).
Proof.
  apply (tweet_gives_up_at_once env_500 default_config (lit "gm") (new_world 0));
    reflexivity.
Defined.

Lemma tweet_loop_rate_limited env cfg content :
  always_rejected_retryable env ->
  forall fuel attempt w,
    0 <= attempt < maxRetries cfg ->
    (Z.to_nat (maxRetries cfg - attempt) < fuel)%nat ->
    exists e,
      fst (tweet_loop env cfg content no_options fuel attempt w) = Throw e
      /\ retryable e = true
      /\ calls (snd (tweet_loop env cfg content no_options fuel attempt w))
         = (calls w + Z.to_nat (maxRetries cfg - attempt))%nat
      /\ sleeps (log (snd (tweet_loop env cfg content no_options fuel attempt w)))
         = sleeps (log w)
           ++ map (fun k => retryDelay cfg * Z.of_nat k)
                  (seq (S (Z.to_nat attempt)) (Z.to_nat (maxRetries cfg - attempt) - 1)).
Proof.
  intros H fuel. induction fuel as [|fuel IH]; intros attempt w Hlt Hfuel; [lia|].
  destruct (H (calls w) (now w) (payload_of content)) as (e & Hrej & He).
  destruct (Z.ltb_spec (attempt + 1) (maxRetries cfg)) as [Hmore|Hlast].
  - rewrite (tweet_loop_retry env cfg content fuel attempt w e) by
      first [ lia | assumption
            | unfold shouldRetry; fold (retryable e); rewrite He;
              destruct (Z.ltb_spec (attempt + 1) (maxRetries cfg)); [reflexivity|lia] ].
    unfold bind, delay, sleep.
    match goal with |- context [tweet_loop _ _ _ _ _ _ ?w2] =>
      destruct (IH (attempt + 1) w2) as (e' & Hr & He' & Hc & Hs); [lia|lia|] end.
    exists e'. rewrite Hr, Hc, Hs. cbn [calls log after_call].
    repeat split; [assumption | lia |].
    rewrite !sleeps_app, <- !app_assoc. f_equal.
    replace (Z.to_nat (maxRetries cfg - attempt) - 1)%nat
      with (S (Z.to_nat (maxRetries cfg - (attempt + 1)) - 1)) by lia.
    cbn [seq map sleeps flat_map app].
    replace (Z.to_nat (attempt + 1)) with (S (Z.to_nat attempt)) by lia.
    f_equal. f_equal. lia.
  - rewrite (tweet_loop_give_up env cfg content fuel attempt w e) by
      first [ lia | assumption
            | unfold shouldRetry;
              destruct (Z.ltb_spec (attempt + 1) (maxRetries cfg)); [lia|reflexivity] ].
    exists e. cbn [fst snd calls log reported after_call set_log].
    repeat split; [assumption | lia |].
    replace (Z.to_nat (maxRetries cfg - attempt) - 1)%nat with 0%nat by lia.
    rewrite !sleeps_app. cbn. now rewrite !app_nil_r.
Qed.

(** X11.  Outside mock mode, when every submission of valid content is
    rejected with a rate-limit error, [tweet] submits exactly [maxRetries]
    times, waits [retryDelay * 1], [retryDelay * 2], ...,
    [retryDelay * (maxRetries - 1)] in between, and then rethrows the last
    rejection. *)
Theorem tweet_rate_limited_schedule env cfg content w :
  mockMode cfg = false ->
  validateTweetContent cfg content = Ok tt ->
  0 < maxRetries cfg ->
  always_rejected_retryable env ->
  exists e,
    fst (tweet env cfg content no_options w) = Throw e
    /\ retryable e = true
    /\ calls (snd (tweet env cfg content no_options w))
       = (calls w + Z.to_nat (maxRetries cfg))%nat
    /\ sleeps (log (snd (tweet env cfg content no_options w)))
       = sleeps (log w) ++ linear_backoff (retryDelay cfg) (Z.to_nat (maxRetries cfg) - 1).
Proof.
  intros Hmock Hvalid Hpos H. unfold tweet. rewrite Hmock, Hvalid.
  unfold bind, lift.
  destruct (tweet_loop_rate_limited env cfg content H
              (S (Z.to_nat (maxRetries cfg))) 0 w) as (e & Hr & He & Hc & Hs);
    [lia | rewrite Z.sub_0_r; lia |].
  rewrite Z.sub_0_r in *. exists e. auto.
Qed.

Lemma env_429_always_rejected_retryable : always_rejected_retryable env_429.
Proof. intros k t p. eexists. split; reflexivity. Qed.

Lemma tweet_rate_limited_schedule_witness :
  exists e,
    fst (tweet env_429 default_config (lit "gm") no_options (new_world 0)) = Throw e
    /\ retryable e = true
    /\ calls (snd (tweet env_429 default_config (lit "gm") no_options (new_world 0)))
       = (calls (new_world 0) + Z.to_nat (maxRetries default_config))%nat
    /\ sleeps (log (snd (tweet env_429 default_config (lit "gm") no_options (new_world 0))))
       = sleeps (log (new_world 0))
         ++ linear_backoff (retryDelay default_config)
                           (Z.to_nat (maxRetries default_config) - 1).
Proof.
  apply (tweet_rate_limited_schedule env_429 default_config (lit "gm") (new_world 0)).
  - reflexivity.
  - reflexivity.
  - reflexivity.
  - exact env_429_always_rejected_retryable.
Defined.

(** ** Checking the credentials *)

Lemma verifyUserAuth_cases env w :
  calls (snd (verifyUserAuth env w)) = S (calls w)
  /\ now (snd (verifyUserAuth env w)) = now w + Z.of_nat (fst (v2_me env (calls w) (now w)))
  /\ match snd (v2_me env (calls w) (now w)) with
     | Fulfilled me =>
         fst (verifyUserAuth env w) = Ok tt
         /\ userId (this (snd (verifyUserAuth env w))) = Some (user_id me)
     | Rejected e =>
         fst (verifyUserAuth env w) = Throw e
         /\ this (snd (verifyUserAuth env w)) = this w
     end.
Proof.
  destruct (v2_me env (calls w) (now w)) as [dt [me|e]] eqn:Ev; cbn [fst snd];
    unfold verifyUserAuth, try_catch, bind, platform, get_this, put_this,
      handleAuthError, emit, throw;
    cbv beta; rewrite Ev; cbn; auto.
Qed.

Lemma initializeWithRetry_loop_step env n fuel attempt w :
  attempt < n ->
  initializeWithRetry_loop env n (S fuel) attempt w
  = match verifyUserAuth env w with
    | (Ok _, w1) => (Ok tt, w1)
    | (Throw e, w1) =>
        match rate_limit_wait e (now w1) with
        | Some ms => (delay env ms ;; initializeWithRetry_loop env n fuel (attempt + 1)) w1
        | None => (Throw e, w1)
        end
    | (OutOfFuel, w1) => (OutOfFuel, w1)
    end.
Proof.
  intros Hlt. cbn [initializeWithRetry_loop].
  destruct (Z.ltb_spec attempt n); [|lia].
  unfold bind at 1, settle.
  destruct (verifyUserAuth env w) as [[[]|e|] w1]; try reflexivity.
  unfold rate_limit_wait.
  destruct e as [code reset rle msg| | | |]; try reflexivity.
  destruct (code =? 429); [|reflexivity].
  destruct (truthy_number _) as [resetTime|]; [|reflexivity].
  unfold bind at 1, Date_now.
  destruct (0 <? resetTime - now w1); reflexivity.
Qed.

(** X12.  [initializeWithRetry], with a positive budget, settles on the
    first answer to [v2.me()] unless that is a rate-limit error with a reset
    to wait for: a fulfilled call stores the user id and returns, any other
    rejection is rethrown as it is after this one call, the fields
    untouched. *)
Theorem initializeWithRetry_first_answer env n w :
  0 < n ->
  match snd (v2_me env (calls w) (now w)) with
  | Fulfilled me =>
      fst (initializeWithRetry env n w) = Ok tt
      /\ userId (this (snd (initializeWithRetry env n w))) = Some (user_id me)
      /\ calls (snd (initializeWithRetry env n w)) = S (calls w)
  | Rejected e =>
      rate_limit_wait e (now w + Z.of_nat (fst (v2_me env (calls w) (now w)))) = None ->
      fst (initializeWithRetry env n w) = Throw e
      /\ this (snd (initializeWithRetry env n w)) = this w
      /\ calls (snd (initializeWithRetry env n w)) = S (calls w)
  end.
Proof.
  intros Hn.
  destruct (verifyUserAuth_cases env w) as (Hc & Hnow & Hcase).
  unfold initializeWithRetry. rewrite initializeWithRetry_loop_step by assumption.
  destruct (verifyUserAuth env w) as [r w1]. cbn [fst snd] in *.
  destruct (snd (v2_me env (calls w) (now w))) as [me|e].
  - destruct Hcase as [-> Hu]. cbn. auto.
  - destruct Hcase as [-> Ht]. intros Hwait. rewrite <- Hnow in Hwait.
    rewrite Hwait. cbn. auto.
Qed.

Lemma initializeWithRetry_first_answer_witness :
  fst (initializeWithRetry env_accepting 3 (new_world 0)) = Ok tt
  /\ userId (this (snd (initializeWithRetry env_accepting 3 (new_world 0)))) = Some "1"%string
  /\ calls (snd (initializeWithRetry env_accepting 3 (new_world 0))) = 1%nat.
Proof.
  apply (initializeWithRetry_first_answer env_accepting 3 (new_world 0)). lia.
Defined.

(** ** What the methods leave alone in the fields *)
Section Fields.

Context {X : Type} (g : Fields -> X).

Lemma tw_preserves_emit ev : preserves (fun w => g (this w)) (emit ev).
Proof. intros w. reflexivity. Qed.

Lemma tw_preserves_Date_now : preserves (fun w => g (this w)) Date_now.
Proof. intros w. reflexivity. Qed.

Lemma tw_preserves_get_this : preserves (fun w => g (this w)) get_this.
Proof. intros w. reflexivity. Qed.

Lemma tw_preserves_platform A c (oracle : nat -> Z -> nat * Settled A) :
  preserves (fun w => g (this w)) (platform c oracle).
Proof. intros w. unfold platform. destruct (oracle _ _). reflexivity. Qed.

Lemma tw_preserves_delay env ms : preserves (fun w => g (this w)) (delay env ms).
Proof. intros w. reflexivity. Qed.

Lemma tw_preserves_start_call A c (oracle : nat -> Z -> nat * Settled A) :
  preserves (fun w => g (this w)) (start_call c oracle).
Proof. intros w. reflexivity. Qed.

Lemma tw_preserves_elapse dt : preserves (fun w => g (this w)) (elapse dt).
Proof. intros w. reflexivity. Qed.

Lemma tw_preserves_arm_timer ms : preserves (fun w => g (this w)) (arm_timer ms).
Proof. intros w. reflexivity. Qed.

Lemma tw_preserves_update (upd : Fields -> Fields) :
  (forall f, g (upd f) = g f) ->
  preserves (fun w => g (this w)) (f <- get_this ;; put_this (upd f)).
Proof. intros Hg w. cbn. apply Hg. Qed.

End Fields.

(** Walks down a method body: binds, handlers and branches. *)
Ltac tw_fields_step :=
  match goal with
  | |- forall _, _ => intro
  | |- preserves _ (bind get_this (fun f => put_this _)) =>
      apply tw_preserves_update; reflexivity
  | |- preserves _ (bind _ _) => apply JsFacts.preserves_bind
  | |- preserves _ (try_catch _ _) => apply JsFacts.preserves_try_catch
  | |- preserves _ (settle _) => apply JsFacts.preserves_settle
  | |- preserves _ (forget _) => apply JsFacts.preserves_forget
  | |- preserves _ (ret _) => apply JsFacts.preserves_ret
  | |- preserves _ (throw _) => apply JsFacts.preserves_throw
  | |- preserves _ out_of_fuel => apply JsFacts.preserves_out_of_fuel
  | |- preserves _ (lift _) => apply JsFacts.preserves_lift
  | |- preserves _ (emit _) => apply tw_preserves_emit
  | |- preserves _ Date_now => apply tw_preserves_Date_now
  | |- preserves _ get_this => apply tw_preserves_get_this
  | |- preserves _ (platform _ _) => apply tw_preserves_platform
  | |- preserves _ (start_call _ _) => apply tw_preserves_start_call
  | |- preserves _ (elapse _) => apply tw_preserves_elapse
  | |- preserves _ (delay _ _) => apply tw_preserves_delay
  | |- preserves _ (arm_timer _) => apply tw_preserves_arm_timer
  | |- preserves _ (if ?b then _ else _) => destruct b
  | |- preserves _ (match ?x with _ => _ end) => destruct x
  | |- _ => solve [auto]
  end.

Ltac tw_fields_auto := repeat tw_fields_step.

Section Posting.

Variable env : Env.
Variable cfg : Config.
Context {X : Type} (g : Fields -> X).

Lemma preserves_startUploads urls :
  preserves (fun w => g (this w)) (startUploads env urls).
Proof. induction urls as [|url rest IH]; cbn [startUploads]; tw_fields_auto. Qed.

Lemma preserves_Promise_all ps : preserves (fun w => g (this w)) (Promise_all ps).
Proof.
  unfold Promise_all. destruct (first_rejection ps) as [[[url dt] e]|]; tw_fields_auto.
Qed.

Lemma preserves_uploadMedia urls : preserves (fun w => g (this w)) (uploadMedia env urls).
Proof.
  unfold uploadMedia. tw_fields_auto;
    first [apply preserves_startUploads | apply preserves_Promise_all].
Qed.

Lemma preserves_mediaIds_of options :
  preserves (fun w => g (this w)) (mediaIds_of env options).
Proof. unfold mediaIds_of. tw_fields_auto. apply preserves_uploadMedia. Qed.

Lemma preserves_postTweet content options :
  preserves (fun w => g (this w)) (postTweet env content options).
Proof. unfold postTweet. tw_fields_auto. apply preserves_mediaIds_of. Qed.

Lemma preserves_postTweetWithRetry_loop content fuel :
  forall attempt last,
    preserves (fun w => g (this w)) (postTweetWithRetry_loop env cfg content fuel attempt last).
Proof.
  induction fuel as [|fuel IH]; intros attempt last; cbn [postTweetWithRetry_loop];
    tw_fields_auto; apply preserves_postTweet.
Qed.

Lemma preserves_tweet_loop content options fuel :
  forall attempt,
    preserves (fun w => g (this w)) (tweet_loop env cfg content options fuel attempt).
Proof.
  induction fuel as [|fuel IH]; intros attempt; cbn [tweet_loop];
    tw_fields_auto; apply preserves_mediaIds_of.
Qed.

Lemma preserves_tweet content options :
  preserves (fun w => g (this w)) (tweet env cfg content options).
Proof. unfold tweet. tw_fields_auto. apply preserves_tweet_loop. Qed.

Lemma preserves_marketTweet token prompt :
  preserves (fun w => g (this w)) (marketTweet env cfg token prompt).
Proof. unfold marketTweet. tw_fields_auto. apply preserves_tweet. Qed.

Lemma preserves_setupStreamRules : preserves (fun w => g (this w)) (setupStreamRules env).
Proof. unfold setupStreamRules. tw_fields_auto. Qed.

Lemma preserves_onSignificantMovement token analysis :
  preserves (fun w => g (this w)) (onSignificantMovement env cfg token analysis).
Proof. unfold onSignificantMovement. tw_fields_auto. apply preserves_marketTweet. Qed.

Lemma preserves_onAlertTriggered token condition price :
  preserves (fun w => g (this w)) (onAlertTriggered env cfg token condition price).
Proof. unfold onAlertTriggered. tw_fields_auto. apply preserves_marketTweet. Qed.

Lemma preserves_marketUpdateTick token :
  preserves (fun w => g (this w)) (marketUpdateTick env cfg token).
Proof. unfold marketUpdateTick. tw_fields_auto. apply preserves_marketTweet. Qed.

Lemma preserves_publishMarketUpdate token :
  preserves (fun w => g (this w)) (publishMarketUpdate env cfg token).
Proof. unfold publishMarketUpdate. tw_fields_auto. apply preserves_marketTweet. Qed.

End Posting.

(** X13.  Posting changes nothing in the service object: [postTweet],
    [postTweetWithRetry], [tweet], [uploadMedia] and the market callbacks
    leave every field ([userId], [isStreaming], [marketUpdateInterval] and
    the counters) as it was, whether they succeed or fail. *)
Theorem posting_leaves_fields env cfg content options urls token analysis condition price w :
  this (snd (postTweet env content options w)) = this w
  /\ this (snd (postTweetWithRetry env cfg content w)) = this w
  /\ this (snd (tweet env cfg content options w)) = this w
  /\ this (snd (uploadMedia env urls w)) = this w
  /\ this (snd (onSignificantMovement env cfg token analysis w)) = this w
  /\ this (snd (onAlertTriggered env cfg token condition price w)) = this w
  /\ this (snd (marketUpdateTick env cfg token w)) = this w
  /\ this (snd (publishMarketUpdate env cfg token w)) = this w.
Proof.
  repeat split.
  - apply (preserves_postTweet env (fun f => f)).
  - apply (preserves_postTweetWithRetry_loop env cfg (fun f => f)).
  - apply (preserves_tweet env cfg (fun f => f)).
  - apply (preserves_uploadMedia env (fun f => f)).
  - apply (preserves_onSignificantMovement env cfg (fun f => f)).
  - apply (preserves_onAlertTriggered env cfg (fun f => f)).
  - apply (preserves_marketUpdateTick env cfg (fun f => f)).
  - apply (preserves_publishMarketUpdate env cfg (fun f => f)).
Qed.

(** ** Callbacks *)

Lemma try_catch_swallows (m : M unit) (h : Thrown -> M unit) w :
  (forall e w1, fst (h e w1) = Ok tt) ->
  fst (try_catch m h w) <> OutOfFuel ->
  fst (try_catch m h w) = Ok tt.
Proof.
  intros Hh. unfold try_catch. destruct (m w) as [[[]|e|] w1]; cbn; try congruence.
  all: intros _; apply Hh.
Qed.

(** X14.  The callbacks the service hands to the stream, to its timers and
    to the price monitor never throw: [handleStreamData],
    [handleStreamError], the restart timer, the two price-monitor listeners
    and the market-update tick return normally whatever the platform and the
    AI collaborator do. *)
Theorem callbacks_never_throw env cfg tweet_ error token analysis condition price w :
  fst (handleStreamData env cfg tweet_ w) = Ok tt
  /\ fst (handleStreamError cfg error w) = Ok tt
  /\ fst (streamRestartTimer env w) = Ok tt
  /\ fst (onSignificantMovement env cfg token analysis w) = Ok tt
  /\ fst (onAlertTriggered env cfg token condition price w) = Ok tt
  /\ fst (marketUpdateTick env cfg token w) = Ok tt.
Proof.
  repeat split.
  - apply try_catch_swallows; [reflexivity|].
    apply (invoke_returns env cfg (E_handleStreamData tweet_)).
  - pose proof (invoke_returns env cfg E_streamRestartTimer w) as Hr.
    cbn [invoke] in Hr. revert Hr. unfold streamRestartTimer, bind, get_this.
    destruct (isStreaming (this w)); [reflexivity|].
    apply try_catch_swallows. reflexivity.
  - apply try_catch_swallows; [reflexivity|].
    apply (invoke_returns env cfg (E_onSignificantMovement token analysis)).
  - apply try_catch_swallows; [reflexivity|].
    apply (invoke_returns env cfg (E_onAlertTriggered token condition price)).
  - apply try_catch_swallows; [reflexivity|].
    apply (invoke_returns env cfg (E_marketUpdateTick token)).
Qed.

(** X15.  [handleStreamData] does nothing at all for an item written by the
    service's own user, once the user id is known: no call to the AI
    collaborator, no call to the platform. *)
Theorem handleStreamData_skips_own_tweets env cfg tweet_ u w :
  userId (this w) = Some u ->
  u <> EmptyString ->
  st_author_id tweet_ = u ->
  handleStreamData env cfg tweet_ w = (Ok tt, w).
Proof.
  intros Hu Hne Ha. unfold handleStreamData, try_catch, bind, get_this.
  rewrite Hu. destruct u as [|c u']; [congruence|]. cbn [truthy_string ret].
  rewrite Hu, Ha, String.eqb_refl. reflexivity.
Qed.

Lemma handleStreamData_skips_own_tweets_witness :
  handleStreamData env_accepting default_config
    {| st_id := "7"; st_text := lit "gm"; st_author_id := "1" |}
    (snd (verifyUserAuth env_accepting (new_world 0)))
  = (Ok tt, snd (verifyUserAuth env_accepting (new_world 0))).
Proof.
  apply (handleStreamData_skips_own_tweets env_accepting default_config
           {| st_id := "7"; st_text := lit "gm"; st_author_id := "1" |} "1"%string).
  - reflexivity.
  - discriminate.
  - reflexivity.
Defined.

(** ** Starting the stream *)

Lemma startStream_body_flag env :
  preserves_unless_ok (fun w => isStreaming (this w))
    (setupStreamRules env ;;
     platform V2_searchStream (v2_searchStream env) ;;
     f <- get_this ;;
     put_this (set_isStreaming true f)).
Proof.
  apply JsFacts.preserves_unless_ok_bind; [apply preserves_setupStreamRules|]. intros _.
  apply JsFacts.preserves_unless_ok_bind; [apply tw_preserves_platform|]. intros _.
  intros w. left. exists tt. reflexivity.
Qed.


(** ** The market-update interval *)

(** X17.  [stopMarketUpdates] always leaves [marketUpdateInterval] null,
    even when the cleanup of the price monitor throws.
    [startMarketUpdates] stores the handle of a new interval when the price
    monitor starts; when it does not, the error is rethrown, no timer is
    armed and the fields are left as they were. *)
Theorem market_interval_lifecycle env tokenAddress interval w :
  marketUpdateInterval (this (snd (stopMarketUpdates env w))) = None
  /\ match snd (startMonitoring env (calls w) (now w) tokenAddress) with
     | Fulfilled _ =>
         fst (startMarketUpdates env tokenAddress interval w) = Ok tt
         /\ marketUpdateInterval (this (snd (startMarketUpdates env tokenAddress interval w)))
            = Some (timers w)
         /\ timers (snd (startMarketUpdates env tokenAddress interval w)) = S (timers w)
     | Rejected e =>
         fst (startMarketUpdates env tokenAddress interval w) = Throw e
         /\ this (snd (startMarketUpdates env tokenAddress interval w)) = this w
         /\ timers (snd (startMarketUpdates env tokenAddress interval w)) = timers w
     end.
Proof.
  split.
  - unfold stopMarketUpdates, bind, get_this, put_this, ret, platform.
    destruct (marketUpdateInterval (this w)) eqn:Hi; cbn;
      destruct (cleanup env _ _) as [dt [[]|e]]; cbn; auto.
  - destruct (startMonitoring env (calls w) (now w) tokenAddress) as [dt [[]|e]] eqn:Em;
      cbn [snd];
      unfold startMarketUpdates, try_catch, bind, platform, arm_timer, get_this, put_this,
        emit, throw;
      cbv beta; rewrite Em; cbn; auto.
Qed.

(** ** What the automatic tweets submit *)

Section Logs.

Context (P : Event -> Prop).

Lemma logs_ret A (a : A) : logs P (ret a).
Proof. intros w. exists []. cbn. rewrite app_nil_r. auto. Qed.

Lemma logs_throw A e : logs P (@throw World A e).
Proof. intros w. exists []. cbn. rewrite app_nil_r. auto. Qed.

Lemma logs_out_of_fuel A : logs P (@out_of_fuel World A).
Proof. intros w. exists []. cbn. rewrite app_nil_r. auto. Qed.

Lemma logs_lift A (r : Res A) : logs P (@lift World A r).
Proof. intros w. exists []. cbn. rewrite app_nil_r. auto. Qed.

Lemma logs_get_this : logs P get_this.
Proof. intros w. exists []. cbn. rewrite app_nil_r. auto. Qed.

Lemma logs_put_this f : logs P (put_this f).
Proof. intros w. exists []. cbn. rewrite app_nil_r. auto. Qed.

Lemma logs_Date_now : logs P Date_now.
Proof. intros w. exists []. cbn. rewrite app_nil_r. auto. Qed.

Lemma logs_emit ev : (forall t, P (ev t)) -> logs P (emit ev).
Proof. intros H w. exists [ev (now w)]. cbn. auto. Qed.

Lemma logs_platform A c (oracle : nat -> Z -> nat * Settled A) :
  (forall t, P (EvCall t c)) -> logs P (platform c oracle).
Proof.
  intros H w. exists [EvCall (now w) c]. unfold platform.
  destruct (oracle _ _). cbn. auto.
Qed.

Lemma logs_start_call A c (oracle : nat -> Z -> nat * Settled A) :
  (forall t, P (EvCall t c)) -> logs P (start_call c oracle).
Proof. intros H w. exists [EvCall (now w) c]. cbn. auto. Qed.

Lemma logs_elapse dt : logs P (elapse dt).
Proof. intros w. exists []. cbn. rewrite app_nil_r. auto. Qed.

Lemma logs_delay env ms : (forall t, P (EvSleep t ms)) -> logs P (delay env ms).
Proof. intros H w. exists [EvSleep (now w) ms]. cbn. auto. Qed.

Lemma logs_arm_timer ms : (forall t, P (EvTimer t ms)) -> logs P (arm_timer ms).
Proof. intros H w. exists [EvTimer (now w) ms]. cbn. auto. Qed.

Lemma logs_bind A B (m : M A) (k : A -> M B) :
  logs P m -> (forall a, logs P (k a)) -> logs P (bind m k).
Proof.
  intros Hm Hk w. unfold bind. destruct (Hm w) as (n1 & E1 & F1).
  destruct (m w) as [[a|e|] w1]; cbn [snd] in *; try solve [exists n1; auto].
  destruct (Hk a w1) as (n2 & E2 & F2). exists (n1 ++ n2).
  rewrite E2, E1, app_assoc. split; [reflexivity|]. apply Forall_app. auto.
Qed.

Lemma logs_try_catch A (m : M A) (h : Thrown -> M A) :
  logs P m -> (forall e, logs P (h e)) -> logs P (try_catch m h).
Proof.
  intros Hm Hh w. unfold try_catch. destruct (Hm w) as (n1 & E1 & F1).
  destruct (m w) as [[a|e|] w1]; cbn [snd] in *; try solve [exists n1; auto].
  destruct (Hh e w1) as (n2 & E2 & F2). exists (n1 ++ n2).
  rewrite E2, E1, app_assoc. split; [reflexivity|]. apply Forall_app. auto.
Qed.

Lemma logs_settle A (m : M A) : logs P m -> logs P (settle m).
Proof.
  intros Hm w. unfold settle. destruct (Hm w) as (n1 & E1 & F1).
  destruct (m w) as [r w1]. exists n1. auto.
Qed.

End Logs.

Lemma logs_weaken A (P Q : Event -> Prop) (m : M A) :
  (forall ev, P ev -> Q ev) -> logs P m -> logs Q m.
Proof.
  intros HPQ Hm w. destruct (Hm w) as (new & E & F). exists new.
  split; [assumption|]. eapply Forall_impl; eauto.
Qed.

Lemma logs_submitted A Q (m : M A) w :
  logs (submits_only Q) m -> Forall Q (submitted (added m w)).
Proof.
  intros Hm. destruct (Hm w) as (new & E & F).
  apply tw_added_appended in E. rewrite E. clear E.
  induction F as [|ev l Hev _ IH]; [constructor|].
  unfold submitted. cbn [flat_map]. apply Forall_app. split; [|exact IH].
  destruct ev as [| t [] | | |]; try constructor; auto.
Qed.

(** Walks down a method body; what is left are the submissions. *)
Ltac tw_logs_step :=
  match goal with
  | |- forall _, _ => intro
  | |- logs _ (bind _ _) => apply logs_bind
  | |- logs _ (try_catch _ _) => apply logs_try_catch
  | |- logs _ (settle _) => apply logs_settle
  | |- logs _ (ret _) => apply logs_ret
  | |- logs _ (throw _) => apply logs_throw
  | |- logs _ out_of_fuel => apply logs_out_of_fuel
  | |- logs _ (lift _) => apply logs_lift
  | |- logs _ get_this => apply logs_get_this
  | |- logs _ (put_this _) => apply logs_put_this
  | |- logs _ Date_now => apply logs_Date_now
  | |- logs _ (emit _) => apply logs_emit; intro; exact I
  | |- logs _ (delay _ _) => apply logs_delay; intro; exact I
  | |- logs _ (arm_timer _) => apply logs_arm_timer; intro; exact I
  | |- logs _ (platform (V2_tweet _) _) => apply logs_platform; intro; cbn [submits_only]
  | |- logs _ (platform _ _) => apply logs_platform; intro; exact I
  | |- logs _ (start_call _ _) => apply logs_start_call; intro; exact I
  | |- logs _ (elapse _) => apply logs_elapse
  | |- logs _ (if ?b then _ else _) => destruct b
  | |- logs _ (match ?x with _ => _ end) => destruct x
  | |- _ => solve [auto]
  end.

Ltac tw_logs_auto := repeat tw_logs_step.

Section Submissions.

Variable env : Env.
Variable cfg : Config.

Lemma logs_startUploads Q urls : logs (submits_only Q) (startUploads env urls).
Proof. induction urls as [|url rest IH]; cbn [startUploads]; tw_logs_auto. Qed.

Lemma logs_Promise_all Q ps : logs (submits_only Q) (Promise_all ps).
Proof.
  unfold Promise_all. destruct (first_rejection ps) as [[[url dt] e]|]; tw_logs_auto.
Qed.

Lemma logs_uploadMedia Q urls : logs (submits_only Q) (uploadMedia env urls).
Proof.
  unfold uploadMedia. tw_logs_auto;
    first [apply logs_startUploads | apply logs_Promise_all].
Qed.

Lemma logs_mediaIds_of Q options : logs (submits_only Q) (mediaIds_of env options).
Proof. unfold mediaIds_of. tw_logs_auto. apply logs_uploadMedia. Qed.

Lemma logs_tweet_loop content options fuel :
  forall attempt,
    logs (submits_only (fun p => text p = content
                                 /\ in_reply_to_tweet_id p = reply_target options))
         (tweet_loop env cfg content options fuel attempt).
Proof.
  induction fuel as [|fuel IH]; intros attempt; cbn [tweet_loop];
    tw_logs_auto; first [apply logs_mediaIds_of | split; reflexivity].
Qed.

Lemma logs_tweet content options :
  logs (submits_only (fun p => mockMode cfg = false
                               /\ text p = content
                               /\ in_reply_to_tweet_id p = reply_target options))
       (tweet env cfg content options).
Proof.
  unfold tweet. destruct (mockMode cfg) eqn:Hm; tw_logs_auto.
  eapply logs_weaken; [|apply logs_tweet_loop].
  intros [| t [] | | |]; cbn; tauto.
Qed.

Lemma logs_marketTweet token prompt :
  logs (submits_only (fun p => mockMode cfg = false /\ in_reply_to_tweet_id p = None))
       (marketTweet env cfg token prompt).
Proof.
  unfold marketTweet. tw_logs_auto.
  eapply logs_weaken; [|apply logs_tweet].
  intros [| t [] | | |]; cbn; tauto.
Qed.

Lemma logs_handleStreamData tweet_ :
  st_id tweet_ <> EmptyString ->
  logs (submits_only (fun p => mockMode cfg = false
                               /\ text p <> []
                               /\ in_reply_to_tweet_id p = Some (st_id tweet_)))
       (handleStreamData env cfg tweet_).
Proof.
  intros Hid. unfold handleStreamData. tw_logs_auto.
  eapply logs_weaken; [|apply logs_tweet].
  intros [| t [] | | |]; cbn; try tauto.
  unfold reply_target. cbn. destruct (st_id tweet_); [congruence|].
  cbn. intros (Hm & -> & ->). repeat split; [assumption|discriminate].
Qed.

End Submissions.

(** X18.  The tweets that [handleStreamData] submits for a stream item with
    a non-empty id are replies to that item, with a non-empty text; those of
    the market callbacks ([significantMovement] and [alertTriggered]
    listeners, the market-update tick, [publishMarketUpdate]) are never
    replies. *)
Theorem automatic_tweets_reply_target env cfg tweet_ token analysis condition price w :
  st_id tweet_ <> EmptyString ->
  Forall (fun p => text p <> [] /\ in_reply_to_tweet_id p = Some (st_id tweet_))
         (submitted (added (handleStreamData env cfg tweet_) w))
  /\ Forall (fun p => in_reply_to_tweet_id p = None)
       (submitted (added (onSignificantMovement env cfg token analysis) w)
        ++ submitted (added (onAlertTriggered env cfg token condition price) w)
        ++ submitted (added (marketUpdateTick env cfg token) w)
        ++ submitted (added (publishMarketUpdate env cfg token) w)).
Proof.
  intros Hid. split.
  - eapply Forall_impl; [|apply logs_submitted, (logs_handleStreamData env cfg tweet_ Hid)].
    cbv beta. tauto.
  - repeat rewrite Forall_app. repeat split.
    all: eapply Forall_impl;
      [|apply logs_submitted with (Q := fun p => mockMode cfg = false
                                               /\ in_reply_to_tweet_id p = None)].
    all: try (cbv beta; tauto).
    all: unfold onSignificantMovement, onAlertTriggered, marketUpdateTick,
           publishMarketUpdate; tw_logs_auto; apply logs_marketTweet.
Qed.

Lemma automatic_tweets_reply_target_witness :
  Forall (fun p => text p <> [] /\ in_reply_to_tweet_id p = Some "7"%string)
         (submitted (added (handleStreamData env_accepting default_config
                              {| st_id := "7"; st_text := lit "gm"; st_author_id := "9" |})
                           (new_world 0)))
  /\ Forall (fun p => in_reply_to_tweet_id p = None)
       (submitted (added (onSignificantMovement env_accepting default_config
                            "SOL" (lit "up")) (new_world 0))
        ++ submitted (added (onAlertTriggered env_accepting default_config
                               "SOL" (lit "above") (lit "1")) (new_world 0))
        ++ submitted (added (marketUpdateTick env_accepting default_config "SOL")
                            (new_world 0))
        ++ submitted (added (publishMarketUpdate env_accepting default_config "SOL")
                            (new_world 0))).
Proof.
  apply (automatic_tweets_reply_target env_accepting default_config
           {| st_id := "7"; st_text := lit "gm"; st_author_id := "9" |}
           "SOL"%string (lit "up") (lit "above") (lit "1") (new_world 0)).
  discriminate.
Defined.

(** X19.  In mock mode nothing is ever submitted to [v2.tweet] by [tweet]
    or by the callbacks that post through it: the stream listener, the
    price-monitor listeners, the market-update tick and
    [publishMarketUpdate]. *)
Theorem mock_mode_submits_nothing env cfg content options tweet_ token analysis condition
        price w :
  mockMode cfg = true ->
  submitted (added (tweet env cfg content options) w) = []
  /\ submitted (added (handleStreamData env cfg tweet_) w) = []
  /\ submitted (added (onSignificantMovement env cfg token analysis) w) = []
  /\ submitted (added (onAlertTriggered env cfg token condition price) w) = []
  /\ submitted (added (marketUpdateTick env cfg token) w) = []
  /\ submitted (added (publishMarketUpdate env cfg token) w) = [].
Proof.
  intros Hmock.
  assert (Hnil : forall A (m : M A),
             logs (submits_only (fun _ => mockMode cfg = false)) m ->
             submitted (added m w) = []).
  { intros A m Hm. pose proof (logs_submitted A _ m w Hm) as F.
    destruct (submitted (added m w)) as [|p l]; [reflexivity|].
    inversion F; congruence. }
  assert (Ht : forall c o, logs (submits_only (fun _ => mockMode cfg = false))
                             (tweet env cfg c o)).
  { intros c o. eapply logs_weaken; [|apply logs_tweet].
    intros [| t [] | | |]; cbn; tauto. }
  assert (Hmt : forall t p, logs (submits_only (fun _ => mockMode cfg = false))
                              (marketTweet env cfg t p)).
  { intros t p. unfold marketTweet. tw_logs_auto. }
  repeat split; apply Hnil; auto.
  all: unfold handleStreamData, onSignificantMovement, onAlertTriggered, marketUpdateTick,
         publishMarketUpdate; tw_logs_auto.
Qed.

Lemma mock_mode_submits_nothing_witness :
  submitted (added (tweet env_accepting mock_config (lit "#gm") no_options) (new_world 0)) = []
  /\ submitted (added (handleStreamData env_accepting mock_config
                         {| st_id := "7"; st_text := lit "gm"; st_author_id := "9" |})
                      (new_world 0)) = []
  /\ submitted (added (onSignificantMovement env_accepting mock_config "SOL" (lit "up"))
                      (new_world 0)) = []
  /\ submitted (added (onAlertTriggered env_accepting mock_config "SOL" (lit "above")
                         (lit "1")) (new_world 0)) = []
  /\ submitted (added (marketUpdateTick env_accepting mock_config "SOL") (new_world 0)) = []
  /\ submitted (added (publishMarketUpdate env_accepting mock_config "SOL") (new_world 0))
     = [].
Proof.
  apply (mock_mode_submits_nothing env_accepting mock_config (lit "#gm") no_options
           {| st_id := "7"; st_text := lit "gm"; st_author_id := "9" |}
           "SOL"%string (lit "up") (lit "above") (lit "1") (new_world 0)).
  reflexivity.
Defined.

(** ** Recovery of the stream *)

Section Timers.

Lemma timers_emit ev : preserves timers (emit ev).
Proof. intros w. reflexivity. Qed.

Lemma timers_get_this : preserves timers get_this.
Proof. intros w. reflexivity. Qed.

Lemma timers_put_this f : preserves timers (put_this f).
Proof. intros w. reflexivity. Qed.

Lemma timers_platform A c (oracle : nat -> Z -> nat * Settled A) :
  preserves timers (platform c oracle).
Proof. intros w. unfold platform. destruct (oracle _ _). reflexivity. Qed.

End Timers.

Ltac tw_timers_step :=
  match goal with
  | |- forall _, _ => intro
  | |- preserves _ (bind _ _) => apply JsFacts.preserves_bind
  | |- preserves _ (try_catch _ _) => apply JsFacts.preserves_try_catch
  | |- preserves _ (ret _) => apply JsFacts.preserves_ret
  | |- preserves _ (throw _) => apply JsFacts.preserves_throw
  | |- preserves _ (emit _) => apply timers_emit
  | |- preserves _ get_this => apply timers_get_this
  | |- preserves _ (put_this _) => apply timers_put_this
  | |- preserves _ (platform _ _) => apply timers_platform
  | |- preserves _ (if ?b then _ else _) => destruct b
  | |- preserves _ (match ?x with _ => _ end) => destruct x
  | |- _ => solve [auto]
  end.

Lemma timers_startStream env : preserves timers (startStream env).
Proof.
  unfold startStream, setupStreamRules, handleStreamSetupError. repeat tw_timers_step.
Qed.

(** X20.  A stream error stops the stream and arms one timer; the callback
    of that timer arms none, whether the restart it attempts succeeds or
    fails, and does nothing when the stream is running again.  A restart
    that fails is therefore not attempted again. *)
Theorem stream_restart_is_attempted_once env cfg error w w2 :
  isStreaming (this (snd (handleStreamError cfg error w))) = false
  /\ timers (snd (handleStreamError cfg error w)) = S (timers w)
  /\ timers (snd (streamRestartTimer env w2)) = timers w2
  /\ (isStreaming (this w2) = true -> streamRestartTimer env w2 = (Ok tt, w2)).
Proof.
  split; [reflexivity|]. split; [reflexivity|]. split.
  - assert (H : preserves timers (streamRestartTimer env)).
    { unfold streamRestartTimer. repeat tw_timers_step. apply timers_startStream. }
    apply H.
  - intros Hs. unfold streamRestartTimer, bind, get_this. rewrite Hs. reflexivity.
Qed.

End TwitterServiceMore.

(** * Properties of AgentTwitterClientService *)
Module AgentTwitterClientServiceFacts.

Import AgentTwitterClientService AgentScenarios.
Open Scope js_scope.

Lemma added_appended A (m : M A) w new :
  log (snd (m w)) = log w ++ new -> added m w = new.
Proof. intros H. unfold added. rewrite H. apply JsFacts.skipn_appended. Qed.

Lemma added_nothing A (m : M A) w :
  snd (m w) = w -> added m w = [].
Proof.
  intros H. apply added_appended. rewrite H. now rewrite app_nil_r.
Qed.

(** ** The facade operations, closed form *)

Lemma ensureInitialized_eq w :
  ensureInitialized w = if ready (this w) then (Ok tt, w) else (Throw not_initialized, w).
Proof.
  unfold ensureInitialized, ready, bind, get_this.
  destruct (isInitialized (this w)), (scraper (this w)); reflexivity.
Qed.

Lemma ready_scraper f : ready f = true -> exists s, scraper f = Some s.
Proof.
  unfold ready. destruct (isInitialized f), (scraper f); try discriminate; eauto.
Qed.

Lemma sendTweet_eq env content w :
  sendTweet env content w
  = if ready (this w)
    then (Ok (response_to (snd (sc_sendTweet env (calls w) (now w) content))),
          called (SendTweet content) (fst (sc_sendTweet env (calls w) (now w) content)) w)
    else (Ok (failed not_initialized), w).
Proof.
  unfold sendTweet, try_catch. unfold bind at 1. rewrite ensureInitialized_eq.
  destruct (ready (this w)) eqn:R; [|reflexivity].
  destruct (ready_scraper _ R) as [s Hs].
  unfold bind at 1, get_this. rewrite Hs.
  unfold bind at 1, platform, called.
  destruct (sc_sendTweet env (calls w) (now w) content) as [dt [[]|e]]; reflexivity.
Qed.

Lemma replyToTweet_eq env tweetId content username w :
  replyToTweet env tweetId content username w
  = sendTweet env (reply_text username content) w.
Proof.
  rewrite sendTweet_eq.
  unfold replyToTweet, try_catch. unfold bind at 1. rewrite ensureInitialized_eq.
  destruct (ready (this w)) eqn:R; [|reflexivity].
  destruct (ready_scraper _ R) as [s Hs].
  unfold bind at 1, get_this. rewrite Hs.
  fold (reply_text username content).
  unfold bind at 1, platform, called.
  destruct (sc_sendTweet env (calls w) (now w) (reply_text username content))
    as [dt [[]|e]]; reflexivity.
Qed.

Lemma likeTweet_eq env tweetId w :
  likeTweet env tweetId w
  = if ready (this w)
    then (Ok (response_to (snd (sc_likeTweet env (calls w) (now w) tweetId))),
          called (LikeTweet tweetId) (fst (sc_likeTweet env (calls w) (now w) tweetId)) w)
    else (Ok (failed not_initialized), w).
Proof.
  unfold likeTweet, try_catch. unfold bind at 1. rewrite ensureInitialized_eq.
  destruct (ready (this w)) eqn:R; [|reflexivity].
  destruct (ready_scraper _ R) as [s Hs].
  unfold bind at 1, get_this. rewrite Hs.
  unfold bind at 1, platform, called.
  destruct (sc_likeTweet env (calls w) (now w) tweetId) as [dt [[]|e]]; reflexivity.
Qed.

Lemma retweet_eq env tweetId w :
  retweet env tweetId w
  = if ready (this w)
    then (Ok (response_to (snd (sc_retweet env (calls w) (now w) tweetId))),
          called (Retweet tweetId) (fst (sc_retweet env (calls w) (now w) tweetId)) w)
    else (Ok (failed not_initialized), w).
Proof.
  unfold retweet, try_catch. unfold bind at 1. rewrite ensureInitialized_eq.
  destruct (ready (this w)) eqn:R; [|reflexivity].
  destruct (ready_scraper _ R) as [s Hs].
  unfold bind at 1, get_this. rewrite Hs.
  unfold bind at 1, platform, called.
  destruct (sc_retweet env (calls w) (now w) tweetId) as [dt [[]|e]]; reflexivity.
Qed.

Lemma getProfile_eq env username w :
  getProfile env username w
  = if ready (this w)
    then (match snd (sc_getProfile env (calls w) (now w) username) with
          | Fulfilled profile => Ok (profile_result profile)
          | Rejected e =>
              Throw (Error ("Failed to get profile: " ++ message_or_unknown e)%string)
          end,
          called (GetProfile username)
                 (fst (sc_getProfile env (calls w) (now w) username)) w)
    else (Throw not_initialized, w).
Proof.
  unfold getProfile. unfold bind at 1. rewrite ensureInitialized_eq.
  destruct (ready (this w)) eqn:R; [|reflexivity].
  destruct (ready_scraper _ R) as [s Hs].
  unfold try_catch, bind at 1, get_this. rewrite Hs.
  unfold bind at 1, platform, called, profile_result.
  destruct (sc_getProfile env (calls w) (now w) username) as [dt [p|e]]; reflexivity.
Qed.

(** ** The facade boundary *)

(** C4 (counterexample).  [getProfile] throws past the facade: on a service
    that is not initialized, and on an initialized one whose scraper rejects
    the lookup.  [sendTweet] drops the cause when the scraper rejects with a
    value that is no [Error]. *)
Lemma getProfile_throws :
  fst (getProfile env_accepting "alice" (new_world 0)) = Throw not_initialized
  /\ fst (getProfile env_rejecting "alice" (initialized env_rejecting 0))
     = Throw (Error "Failed to get profile: not found")
  /\ snd (sc_sendTweet env_rejecting 1 0 "gm") = Rejected NonError
  /\ fst (sendTweet env_rejecting "gm" (initialized env_rejecting 0))
     = Ok {| success := false; error := Some (Error "Unknown error") |}.
Proof.
  repeat split; vm_compute; reflexivity.
Qed.

(** C4 (as amended).  [sendTweet], [postTweet], [replyToTweet], [likeTweet]
    and [retweet] always return a response and never throw: success when the
    call on the scraper is fulfilled; otherwise a failure that carries the
    not-initialized error or, for a rejected call, the thrown value itself
    when it is an [Error] and [Error "Unknown error"] when it is not.
    [getProfile] returns the profile when the lookup is fulfilled and throws
    otherwise. *)
Theorem facade_results env w content tweetId username :
  fst (sendTweet env content w)
  = Ok (if ready (this w)
        then response_to (snd (sc_sendTweet env (calls w) (now w) content))
        else failed not_initialized)
  /\ fst (postTweet env content w)
     = Ok (if ready (this w)
           then response_to (snd (sc_sendTweet env (calls w) (now w) content))
           else failed not_initialized)
  /\ fst (replyToTweet env tweetId content username w)
     = Ok (if ready (this w)
           then response_to (snd (sc_sendTweet env (calls w) (now w)
                                    (reply_text username content)))
           else failed not_initialized)
  /\ fst (likeTweet env tweetId w)
     = Ok (if ready (this w)
           then response_to (snd (sc_likeTweet env (calls w) (now w) tweetId))
           else failed not_initialized)
  /\ fst (retweet env tweetId w)
     = Ok (if ready (this w)
           then response_to (snd (sc_retweet env (calls w) (now w) tweetId))
           else failed not_initialized)
  /\ fst (getProfile env username w)
     = if ready (this w)
       then match snd (sc_getProfile env (calls w) (now w) username) with
            | Fulfilled profile => Ok (profile_result profile)
            | Rejected e =>
                Throw (Error ("Failed to get profile: " ++ message_or_unknown e)%string)
            end
       else Throw not_initialized.
Proof.
  unfold postTweet.
  rewrite replyToTweet_eq, !sendTweet_eq, likeTweet_eq, retweet_eq, getProfile_eq.
  destruct (ready (this w)); repeat split; reflexivity.
Qed.

(** C8.  [replyToTweet] does not depend on [tweetId]: it does what
    [sendTweet] does on the text made of the mention of [username] (with an
    [@] put in front unless it has one), a space and [content]; the only call
    it issues, when the service is initialized, is that ordinary tweet. *)
Theorem replyToTweet_ignores_tweetId env tweetId content username w :
  replyToTweet env tweetId content username w
  = sendTweet env (if String.prefix "@" username
                   then (username ++ " " ++ content)%string
                   else ("@" ++ username ++ " " ++ content)%string) w
  /\ scraper_calls (added (replyToTweet env tweetId content username) w)
     = if ready (this w)
       then [SendTweet (if String.prefix "@" username
                        then (username ++ " " ++ content)%string
                        else ("@" ++ username ++ " " ++ content)%string)]
       else [].
Proof.
  fold (reply_text username content). split; [apply replyToTweet_eq|].
  unfold added. rewrite replyToTweet_eq, sendTweet_eq.
  destruct (ready (this w)); cbn [snd called log].
  - rewrite JsFacts.skipn_appended. reflexivity.
  - rewrite <- (app_nil_r (log w)) at 2. rewrite JsFacts.skipn_appended. reflexivity.
Qed.

(** ** What the methods leave alone in the fields *)
Section Fields.

Context {X : Type} (g : Fields -> X).

Lemma preserves_emit ev : preserves (fun w => g (this w)) (emit ev).
Proof. intros w. reflexivity. Qed.

Lemma preserves_Date_now : preserves (fun w => g (this w)) Date_now.
Proof. intros w. reflexivity. Qed.

Lemma preserves_get_this : preserves (fun w => g (this w)) get_this.
Proof. intros w. reflexivity. Qed.

Lemma preserves_get_pollers : preserves (fun w => g (this w)) get_pollers.
Proof. intros w. reflexivity. Qed.

Lemma preserves_put_pollers ps : preserves (fun w => g (this w)) (put_pollers ps).
Proof. intros w. reflexivity. Qed.

Lemma preserves_elapse dt : preserves (fun w => g (this w)) (elapse dt).
Proof. intros w. reflexivity. Qed.

Lemma preserves_arm_timer ms : preserves (fun w => g (this w)) (arm_timer ms).
Proof. intros w. reflexivity. Qed.

Lemma preserves_platform A c (oracle : nat -> Z -> nat * Settled A) :
  preserves (fun w => g (this w)) (platform c oracle).
Proof. intros w. unfold platform. destruct (oracle _ _). reflexivity. Qed.

Lemma preserves_handler_call env ev :
  preserves (fun w => g (this w)) (handler_call env ev).
Proof. intros w. unfold handler_call. destruct (handleTweetEvent _ _ _ _). reflexivity. Qed.

Lemma preserves_update (upd : Fields -> Fields) :
  (forall f, g (upd f) = g f) ->
  preserves (fun w => g (this w)) (f <- get_this ;; put_this (upd f)).
Proof. intros Hg w. cbn. apply Hg. Qed.

Lemma preserves_unless_ok_update_then A (upd : Fields -> Fields) (k : M A) :
  (forall f, g (upd f) = g f) ->
  preserves_unless_ok (fun w => g (this w)) k ->
  preserves_unless_ok (fun w => g (this w)) (f <- get_this ;; put_this (upd f) ;; k).
Proof.
  intros Hg Hk w. unfold bind at 1, get_this. unfold bind, put_this.
  destruct (Hk (set_this (upd (this w)) w)) as [H|H]; [left; exact H|].
  right. rewrite H. cbn. apply Hg.
Qed.

End Fields.

(** Walks down a method body: binds, handlers and branches. *)
Ltac fields_step :=
  match goal with
  | |- forall _, _ => intro
  | |- preserves _ (bind get_this (fun f => put_this _)) =>
      apply preserves_update; reflexivity
  | |- preserves _ (bind _ _) => apply JsFacts.preserves_bind
  | |- preserves _ (try_catch _ _) => apply JsFacts.preserves_try_catch
  | |- preserves _ (forget _) => apply JsFacts.preserves_forget
  | |- preserves _ (ret _) => apply JsFacts.preserves_ret
  | |- preserves _ (throw _) => apply JsFacts.preserves_throw
  | |- preserves _ (emit _) => apply preserves_emit
  | |- preserves _ Date_now => apply preserves_Date_now
  | |- preserves _ get_this => apply preserves_get_this
  | |- preserves _ get_pollers => apply preserves_get_pollers
  | |- preserves _ (put_pollers _) => apply preserves_put_pollers
  | |- preserves _ (elapse _) => apply preserves_elapse
  | |- preserves _ (arm_timer _) => apply preserves_arm_timer
  | |- preserves _ (platform _ _) => apply preserves_platform
  | |- preserves _ (handler_call _ _) => apply preserves_handler_call
  | |- preserves _ (if ?b then _ else _) => destruct b
  | |- preserves _ (match ?x with _ => _ end) => destruct x
  | |- _ => solve [auto]
  end.

Ltac fields_auto := repeat fields_step.

Section Methods.

Variable env : Env.
Variable credentials : Credentials.
Context {X : Type} (g : Fields -> X).

Lemma preserves_dispatch ev : preserves (fun w => g (this w)) (dispatch env ev).
Proof. unfold dispatch. fields_auto. Qed.

Lemma preserves_forAwait isMonitoring lastChecked gen :
  preserves (fun w => g (this w)) (forAwait env isMonitoring lastChecked gen).
Proof.
  induction gen as [|[dt step] rest IH]; cbn [forAwait]; fields_auto;
    apply preserves_dispatch.
Qed.

Lemma preserves_pollTick isMonitoring lastChecked :
  preserves (fun w => g (this w)) (pollTick env isMonitoring lastChecked).
Proof. unfold pollTick. fields_auto. apply preserves_forAwait. Qed.

Lemma preserves_fire h ps : preserves (fun w => g (this w)) (fire env h ps).
Proof.
  induction ps as [|p rest IH]; cbn [fire]; fields_auto. apply preserves_pollTick.
Qed.

Lemma preserves_pollIntervalFired h :
  preserves (fun w => g (this w)) (pollIntervalFired env h).
Proof. unfold pollIntervalFired. fields_auto. apply preserves_fire. Qed.

Lemma preserves_ensureInitialized : preserves (fun w => g (this w)) ensureInitialized.
Proof. unfold ensureInitialized. fields_auto. Qed.

Lemma preserves_sendTweet content : preserves (fun w => g (this w)) (sendTweet env content).
Proof. unfold sendTweet. fields_auto. apply preserves_ensureInitialized. Qed.

Lemma preserves_replyToTweet tweetId content username :
  preserves (fun w => g (this w)) (replyToTweet env tweetId content username).
Proof. unfold replyToTweet. fields_auto. apply preserves_ensureInitialized. Qed.

Lemma preserves_likeTweet tweetId : preserves (fun w => g (this w)) (likeTweet env tweetId).
Proof. unfold likeTweet. fields_auto. apply preserves_ensureInitialized. Qed.

Lemma preserves_retweet tweetId : preserves (fun w => g (this w)) (retweet env tweetId).
Proof. unfold retweet. fields_auto. apply preserves_ensureInitialized. Qed.

Lemma preserves_getProfile username :
  preserves (fun w => g (this w)) (getProfile env username).
Proof. unfold getProfile. fields_auto. apply preserves_ensureInitialized. Qed.

End Methods.

(** ** Every entry into the service returns *)

(** Walks down a method body: binds, handlers and branches. *)
Ltac returns_step :=
  match goal with
  | |- forall _, _ => intro
  | |- returns (bind _ _) => apply JsFacts.returns_bind
  | |- returns (try_catch _ _) => apply JsFacts.returns_try_catch
  | |- returns (forget _) => apply JsFacts.returns_forget
  | |- returns (ret _) => apply JsFacts.returns_ret
  | |- returns (throw _) => apply JsFacts.returns_throw
  | |- returns (platform _ _) =>
      let w := fresh "w" in
      intros w; unfold platform;
      match goal with |- context [let '(_, _) := ?o in _] =>
        destruct o as [? [?|?]]; discriminate end
  | |- returns (handler_call _ _) =>
      let w := fresh "w" in
      intros w; unfold handler_call;
      match goal with |- context [let '(_, _) := ?o in _] =>
        destruct o as [? [?|?]]; discriminate end
  | |- returns (if ?b then _ else _) => destruct b
  | |- returns (match ?x with _ => _ end) => destruct x
  | |- returns _ => solve [intros ?; discriminate | auto]
  end.

Ltac returns_auto := repeat returns_step.

Section Returns.

Variable env : Env.
Variable credentials : Credentials.

Lemma returns_forAwait isMonitoring lastChecked gen :
  returns (forAwait env isMonitoring lastChecked gen).
Proof.
  induction gen as [|[dt step] rest IH]; cbn [forAwait]; unfold dispatch; returns_auto.
Qed.

Lemma returns_pollTick isMonitoring lastChecked :
  returns (pollTick env isMonitoring lastChecked).
Proof. unfold pollTick. returns_auto. apply returns_forAwait. Qed.

Lemma returns_fire h ps : returns (fire env h ps).
Proof.
  induction ps as [|p rest IH]; cbn [fire]; returns_auto. apply returns_pollTick.
Qed.

(** No entry into the service is stopped by the budget of the model. *)
Lemma agent_invoke_returns e : returns (invoke env credentials e).
Proof.
  destruct e; cbn [invoke];
    unfold initialize, sendTweet, postTweet, sendTweet, replyToTweet, likeTweet, retweet,
      getProfile, startStream, pollIntervalFired, ensureInitialized;
    returns_auto; apply returns_fire.
Qed.

End Returns.

(** ** The initialization flag *)

Lemma startStream_flag : preserves (fun w => isInitialized (this w)) startStream.
Proof. unfold startStream. fields_auto. Qed.

(** [initialize] sets the flag only by returning normally. *)
Lemma initialize_flag env credentials :
  preserves_unless_ok (fun w => isInitialized (this w)) (initialize env credentials).
Proof.
  unfold initialize.
  apply JsFacts.preserves_unless_ok_try_catch; [|fields_auto].
  apply preserves_unless_ok_update_then; [reflexivity|].
  apply JsFacts.preserves_unless_ok_bind; [fields_auto|]. intros _.
  apply preserves_unless_ok_update_then; [reflexivity|].
  apply JsFacts.preserves_unless_ok_bind; [apply startStream_flag|]. intros _.
  intros w. left. exists tt. reflexivity.
Qed.

Lemma never_initialized_flag env credentials w :
  never_initialized env credentials w -> isInitialized (this w) = false.
Proof.
  induction 1 as [t0 | w e r w' _ IH Hinv Hinit]; [reflexivity|].
  rewrite <- IH.
  assert (Hw' : w' = snd (invoke env credentials e w)) by now rewrite Hinv.
  assert (Hr : r = fst (invoke env credentials e w)) by now rewrite Hinv.
  subst w'. destruct e; cbn [invoke] in *;
    try (apply (JsFacts.preserves_forget (fun w => isInitialized (this w)));
         first [ apply preserves_sendTweet | apply preserves_replyToTweet
               | apply preserves_likeTweet | apply preserves_retweet
               | apply preserves_getProfile ]).
  - destruct (initialize_flag env credentials w) as [[[] Hok]|Hkeep]; [|exact Hkeep].
    exfalso. apply Hinit; [reflexivity|]. now rewrite Hr.
  - apply startStream_flag.
  - apply (preserves_pollIntervalFired env isInitialized).
Qed.

(** C9.  As long as no call of [initialize] has completed successfully, each
    of [sendTweet], [postTweet], [replyToTweet], [likeTweet] and [retweet]
    returns [{ success: false }] with the not-initialized error and leaves
    the world as it is: no call reaches the platform. *)
Theorem uninitialized_operations_fail env credentials w content tweetId username :
  never_initialized env credentials w ->
  sendTweet env content w = (Ok (failed not_initialized), w)
  /\ postTweet env content w = (Ok (failed not_initialized), w)
  /\ replyToTweet env tweetId content username w = (Ok (failed not_initialized), w)
  /\ likeTweet env tweetId w = (Ok (failed not_initialized), w)
  /\ retweet env tweetId w = (Ok (failed not_initialized), w).
Proof.
  intros H. apply never_initialized_flag in H.
  assert (R : ready (this w) = false) by (unfold ready; now rewrite H).
  unfold postTweet.
  rewrite replyToTweet_eq, !sendTweet_eq, likeTweet_eq, retweet_eq, R.
  repeat split; reflexivity.
Qed.

Lemma uninitialized_operations_fail_witness :
  let w := snd (initialize env_locked_out credentials (new_world 0)) in
  sendTweet env_locked_out "gm" w = (Ok (failed not_initialized), w)
  /\ postTweet env_locked_out "gm" w = (Ok (failed not_initialized), w)
  /\ replyToTweet env_locked_out "1" "gm" "alice" w = (Ok (failed not_initialized), w)
  /\ likeTweet env_locked_out "1" w = (Ok (failed not_initialized), w)
  /\ retweet env_locked_out "1" w = (Ok (failed not_initialized), w).
Proof.
  apply (uninitialized_operations_fail env_locked_out credentials
           (snd (initialize env_locked_out credentials (new_world 0))) "gm" "1" "alice").
  apply (never_invoke env_locked_out credentials (new_world 0) E_initialize
           (fst (initialize env_locked_out credentials (new_world 0)))).
  - apply never_new.
  - apply surjective_pairing.
  - intros _. vm_compute. discriminate.
Defined.

(** ** The polling tick *)

Lemma dispatched_app l1 l2 : dispatched (l1 ++ l2) = dispatched l1 ++ dispatched l2.
Proof. apply flat_map_app. Qed.

Lemma fetched_app l1 l2 : fetched (l1 ++ l2) = fetched l1 ++ fetched l2.
Proof. apply flat_map_app. Qed.

(** What the loop over the generator adds to the log: the items it fetches
    and, for the newer ones, their dispatch. *)
Lemma forAwait_log env lastChecked gen :
  forall w,
    streamHandler (this w) <> None ->
    exists new,
      log (snd (forAwait env true lastChecked gen w)) = log w ++ new
      /\ dispatched new = map event_of (filter (newer lastChecked) (fetched new)).
Proof.
  induction gen as [|[dt step] rest IH]; intros w Hh.
  - exists []. cbn. now rewrite app_nil_r.
  - cbn [forAwait]. unfold bind at 1, elapse.
    destruct step as [tweet|e].
    2:{ exists []. cbn. now rewrite app_nil_r. }
    unfold bind at 1, emit. cbn [negb]. unfold bind at 1, Date_now.
    cbn [now set_now set_log log].
    set (ts := now w + Z.of_nat dt).
    destruct (Z.ltb_spec lastChecked ts) as [Hnew|Hold].
    + unfold bind at 1, dispatch, bind at 1, get_this. cbn [this set_log set_now].
      destruct (streamHandler (this w)) as [h|] eqn:Eh; [|congruence].
      unfold handler_call. cbn [calls now log this timers pollers set_log set_now].
      destruct (handleTweetEvent env (calls w) ts (tweetEvent_of tweet ts)) as [d [[]|e]];
        cbn [outcome].
      * match goal with |- context [forAwait _ _ _ _ ?w'] =>
          destruct (IH w') as (new & Hlog & Hd); [cbn; congruence|] end.
        exists (EvFetched ts tweet :: EvDispatch ts (tweetEvent_of tweet ts) :: new).
        split.
        { rewrite Hlog. unfold set_log, set_now. cbn [log]. rewrite <- ?app_assoc. reflexivity. }
        cbn. unfold newer at 1. cbn [snd].
        destruct (Z.ltb_spec lastChecked ts); [|lia].
        cbn. f_equal. exact Hd.
      * exists [EvFetched ts tweet; EvDispatch ts (tweetEvent_of tweet ts)].
        split; [unfold set_log, set_now; cbn [snd log]; rewrite <- app_assoc; reflexivity|].
        cbn. unfold newer. cbn [snd].
        destruct (Z.ltb_spec lastChecked ts); [reflexivity|lia].
    + unfold bind at 1, ret at 1.
      match goal with |- context [forAwait _ _ _ _ ?w'] =>
        destruct (IH w') as (new & Hlog & Hd); [cbn; congruence|] end.
      exists (EvFetched ts tweet :: new).
      split.
      { rewrite Hlog. unfold set_log, set_now. cbn [log]. rewrite <- ?app_assoc. reflexivity. }
      cbn. unfold newer at 1. cbn [snd].
      destruct (Z.ltb_spec lastChecked ts); [lia|]. exact Hd.
Qed.

(** Where the clock never runs behind [lastChecked], every fetched item
    counts as newer: the time of observation is the time of the poll, not
    the time the tweet was written. *)
Lemma forAwait_dispatches_all env lastChecked gen :
  forall w,
    streamHandler (this w) <> None ->
    lastChecked < now w ->
    exists new,
      log (snd (forAwait env true lastChecked gen w)) = log w ++ new
      /\ dispatched new = map event_of (fetched new).
Proof.
  induction gen as [|[dt step] rest IH]; intros w Hh Hnow.
  - exists []. cbn. now rewrite app_nil_r.
  - cbn [forAwait]. unfold bind at 1, elapse.
    destruct step as [tweet|e].
    2:{ exists []. cbn. now rewrite app_nil_r. }
    unfold bind at 1, emit. cbn [negb]. unfold bind at 1, Date_now.
    cbn [now set_now set_log log].
    set (ts := now w + Z.of_nat dt).
    destruct (Z.ltb_spec lastChecked ts) as [Hnew|Hold]; [|lia].
    unfold bind at 1, dispatch, bind at 1, get_this. cbn [this set_log set_now].
    destruct (streamHandler (this w)) as [h|] eqn:Eh; [|congruence].
    unfold handler_call. cbn [calls now log this timers pollers set_log set_now].
    destruct (handleTweetEvent env (calls w) ts (tweetEvent_of tweet ts)) as [d [[]|e]];
      cbn [outcome].
    + match goal with |- context [forAwait _ _ _ _ ?w'] =>
        destruct (IH w') as (new & Hlog & Hd); [cbn; congruence|cbn [now]; lia|] end.
      exists (EvFetched ts tweet :: EvDispatch ts (tweetEvent_of tweet ts) :: new).
      split.
      { rewrite Hlog. unfold set_log, set_now. cbn [log]. rewrite <- ?app_assoc.
        reflexivity. }
      cbn. f_equal. exact Hd.
    + exists [EvFetched ts tweet; EvDispatch ts (tweetEvent_of tweet ts)].
      split; [unfold set_log, set_now; cbn [snd log]; rewrite <- app_assoc; reflexivity|].
      reflexivity.
Qed.

Lemma pollTick_log env lastChecked w :
  streamHandler (this w) <> None ->
  exists new,
    log (snd (pollTick env true lastChecked w)) = log w ++ new
    /\ dispatched new = map event_of (filter (newer lastChecked) (fetched new)).
Proof.
  intros Hh. unfold pollTick. cbn [negb]. unfold try_catch.
  unfold bind at 1, get_this.
  destruct (scraper (this w)) as [s|].
  2:{ exists []. cbn. now rewrite app_nil_r. }
  unfold bind at 1, ret at 1. unfold bind at 1, platform. cbn [outcome].
  unfold bind at 1.
  match goal with |- context [forAwait _ _ _ ?gen ?w'] =>
    destruct (forAwait_log env lastChecked gen w') as (new & Hlog & Hd); [exact Hh|];
    destruct (forAwait env true lastChecked gen w') as [[[]|e|] w2]
  end; cbn [snd fst Date_now ret] in *;
    exists (EvCall (now w) (SearchTweets EmptyString 20) :: new);
    (split; [unfold Date_now, ret; cbn [snd]; rewrite Hlog; cbn [log];
             rewrite <- app_assoc; reflexivity | exact Hd]).
Qed.

(** C3 (the code at the failing input).  A service initialized at time
    1000 holds one polling interval with [lastChecked = 1000].  When the
    interval fires 30 s later and the search yields three items written at
    990, 1005 and 1020, all three are handed to the stream handler, the one
    written before [lastChecked] first, each stamped with the time it was
    observed; [lastChecked] becomes the time the tick ended, and the next
    tick hands over the same three items again. *)
Theorem pollTick_dispatches_older_item :
  let w := later 30000 (initialized env_accepting 1000) in
  let tick := pollIntervalFired env_accepting 0 in
  pollers w = [{| handle := 0; lastChecked := 1000; monitoring := true |}]
  /\ sc_searchTweets env_accepting (calls w) (now w)
     = [(0%nat, Yield tweet_a); (15%nat, Yield tweet_b); (15%nat, Yield tweet_c)]
  /\ map tw_timestamp [tweet_a; tweet_b; tweet_c]
     = [Some (1000 - 10); Some (1000 + 5); Some (1000 + 20)]
  /\ fst (tick w) = Ok tt
  /\ dispatched (added tick w)
     = [{| id := "a"; text := "first"; created_at := 31000 |};
        {| id := "b"; text := EmptyString; created_at := 31015 |};
        {| id := "c"; text := "third"; created_at := 31030 |}]
  /\ calls (snd (tick w)) = (calls w + 4)%nat
  /\ pollers (snd (tick w))
     = [{| handle := 0; lastChecked := 31030; monitoring := true |}]
  /\ dispatched (added tick (later 30000 (snd (tick w))))
     = [{| id := "a"; text := "first"; created_at := 61030 |};
        {| id := "b"; text := EmptyString; created_at := 61045 |};
        {| id := "c"; text := "third"; created_at := 61060 |}].
Proof.
  repeat split; vm_compute; reflexivity.
Qed.

End AgentTwitterClientServiceFacts.
(** * Further properties of AgentTwitterClientService *)
Module AgentTwitterClientServiceMore.

Import AgentTwitterClientService AgentScenarios AgentTwitterClientServiceFacts.
Open Scope js_scope.

(** ** Initialization *)

(** [initialize] in closed form, on the answer to the login. *)
Lemma initialize_eq env credentials w :
  initialize env credentials w
  = let f1 := set_scraper (Some ScraperInstance) (this w) in
    let c := Login (username credentials) (password credentials) (email credentials) in
    match sc_login env (calls w) (now w) credentials with
    | (dt, Fulfilled _) =>
        (Ok tt,
         {| now := now w + Z.of_nat dt; calls := S (calls w); timers := S (timers w);
            log := (log w ++ [EvCall (now w) c])
                   ++ [EvTimer (now w + Z.of_nat dt) 30000];
            this := set_isInitialized true
                      (set_monitoring (Some (timers w)) true
                         (set_streamHandler (Some StreamHandlerInstance) f1));
            pollers := pollers w ++ [{| handle := timers w;
                                        lastChecked := now w + Z.of_nat dt;
                                        monitoring := true |}] |})
    | (dt, Rejected e) =>
        (Throw (Error ("Twitter client initialization failed: "
                       ++ message_or_unknown e)%string),
         {| now := now w + Z.of_nat dt; calls := S (calls w); timers := timers w;
            log := log w ++ [EvCall (now w) c]; this := f1; pollers := pollers w |})
    end.
Proof.
  destruct (sc_login env (calls w) (now w) credentials) as [dt [[]|e]] eqn:El;
    unfold initialize, try_catch, bind, platform, startStream, get_this, put_this,
      Date_now, arm_timer, get_pollers, put_pollers, throw, ret, set_this;
    cbn [calls now]; rewrite El; reflexivity.
Qed.

(** X21.  [initialize] settles on the answer to the login.  When the login
    is fulfilled it returns with the service ready, the stream handler in
    place and one more polling interval than before, whose handle is the one
    kept in [monitoringInterval] and whose [lastChecked] is the time the
    login completed.  When it is rejected with [e], [initialize] throws
    [Error] with the message of [e] (or [Unknown error]) after the prefix,
    [isInitialized] and the intervals are as before, and the new scraper
    stays in the [scraper] field. *)
Theorem initialize_outcome env credentials w :
  match snd (sc_login env (calls w) (now w) credentials) with
  | Fulfilled _ =>
      fst (initialize env credentials w) = Ok tt
      /\ ready (this (snd (initialize env credentials w))) = true
      /\ streamHandler (this (snd (initialize env credentials w)))
         = Some StreamHandlerInstance
      /\ monitoringInterval (this (snd (initialize env credentials w))) = Some (timers w)
      /\ pollers (snd (initialize env credentials w))
         = pollers w
           ++ [{| handle := timers w;
                  lastChecked :=
                    now w + Z.of_nat (fst (sc_login env (calls w) (now w) credentials));
                  monitoring := true |}]
  | Rejected e =>
      fst (initialize env credentials w)
      = Throw (Error ("Twitter client initialization failed: "
                      ++ message_or_unknown e)%string)
      /\ isInitialized (this (snd (initialize env credentials w))) = isInitialized (this w)
      /\ scraper (this (snd (initialize env credentials w))) = Some ScraperInstance
      /\ streamHandler (this (snd (initialize env credentials w))) = streamHandler (this w)
      /\ pollers (snd (initialize env credentials w)) = pollers w
      /\ timers (snd (initialize env credentials w)) = timers w
  end.
Proof.
  rewrite initialize_eq.
  destruct (sc_login env (calls w) (now w) credentials) as [dt [[]|e]]; cbn; auto 10.
Qed.

(** ** Once ready, always ready *)

Lemma startStream_ready : preserves (fun w => ready (this w)) startStream.
Proof. unfold startStream. fields_auto. Qed.

(** X22.  A service that is ready stays ready whatever is called on it: no
    operation resets [isInitialized] or [scraper], and a later [initialize]
    that fails leaves the service ready, with the scraper whose login
    failed. *)
Theorem ready_is_permanent env credentials e w :
  ready (this w) = true ->
  ready (this (snd (invoke env credentials e w))) = true.
Proof.
  intros R.
  destruct e; cbn [invoke];
    try (rewrite (JsFacts.preserves_forget (fun w => ready (this w)));
         [exact R|];
         first [ apply preserves_sendTweet | apply preserves_replyToTweet
               | apply preserves_likeTweet | apply preserves_retweet
               | apply preserves_getProfile ]).
  - rewrite initialize_eq. unfold ready in *.
    destruct (sc_login env (calls w) (now w) credentials) as [dt [[]|err]]; cbn.
    + reflexivity.
    + destruct (isInitialized (this w)); [reflexivity|discriminate].
  - rewrite startStream_ready. exact R.
  - rewrite (preserves_pollIntervalFired env ready). exact R.
Qed.

Lemma ready_is_permanent_witness :
  ready (this (snd (invoke env_locked_out credentials E_initialize
                      (initialized env_accepting 0)))) = true.
Proof.
  apply (ready_is_permanent env_locked_out credentials E_initialize
           (initialized env_accepting 0)).
  reflexivity.
Defined.

(** ** The polling intervals *)

Section Pollers.

Lemma pollers_emit ev : preserves pollers (emit ev).
Proof. intros w. reflexivity. Qed.

Lemma pollers_Date_now : preserves pollers Date_now.
Proof. intros w. reflexivity. Qed.

Lemma pollers_get_this : preserves pollers get_this.
Proof. intros w. reflexivity. Qed.

Lemma pollers_elapse dt : preserves pollers (elapse dt).
Proof. intros w. reflexivity. Qed.

Lemma pollers_platform A c (oracle : nat -> Z -> nat * Settled A) :
  preserves pollers (platform c oracle).
Proof. intros w. unfold platform. destruct (oracle _ _). reflexivity. Qed.

Lemma pollers_handler_call env ev : preserves pollers (handler_call env ev).
Proof. intros w. unfold handler_call. destruct (handleTweetEvent _ _ _ _). reflexivity. Qed.

End Pollers.

Ltac pollers_step :=
  match goal with
  | |- forall _, _ => intro
  | |- preserves _ (bind _ _) => apply JsFacts.preserves_bind
  | |- preserves _ (try_catch _ _) => apply JsFacts.preserves_try_catch
  | |- preserves _ (forget _) => apply JsFacts.preserves_forget
  | |- preserves _ (ret _) => apply JsFacts.preserves_ret
  | |- preserves _ (throw _) => apply JsFacts.preserves_throw
  | |- preserves _ (emit _) => apply pollers_emit
  | |- preserves _ Date_now => apply pollers_Date_now
  | |- preserves _ get_this => apply pollers_get_this
  | |- preserves _ (elapse _) => apply pollers_elapse
  | |- preserves _ (platform _ _) => apply pollers_platform
  | |- preserves _ (handler_call _ _) => apply pollers_handler_call
  | |- preserves _ (if ?b then _ else _) => destruct b
  | |- preserves _ (match ?x with _ => _ end) => destruct x
  | |- _ => solve [auto]
  end.

Ltac pollers_auto := repeat pollers_step.

Lemma pollers_forAwait env isMonitoring lastChecked gen :
  preserves pollers (forAwait env isMonitoring lastChecked gen).
Proof.
  induction gen as [|[dt step] rest IH]; cbn [forAwait]; unfold dispatch; pollers_auto.
Qed.

Lemma pollers_pollTick env isMonitoring lastChecked :
  preserves pollers (pollTick env isMonitoring lastChecked).
Proof. unfold pollTick. pollers_auto. apply pollers_forAwait. Qed.

Lemma pollers_fire env h ps : preserves pollers (fire env h ps).
Proof.
  induction ps as [|p rest IH]; cbn [fire]; pollers_auto. apply pollers_pollTick.
Qed.

Lemma pollers_facade env credentials e :
  match e with
  | E_initialize | E_startStream | E_pollIntervalFired _ => True
  | _ => preserves pollers (invoke env credentials e)
  end.
Proof.
  destruct e; cbn [invoke]; try exact I;
    unfold postTweet, sendTweet, replyToTweet, likeTweet, retweet, getProfile,
      ensureInitialized; pollers_auto.
Qed.

(** The closure state that [fire] hands back keeps every interval and its
    [isMonitoring]. *)
Lemma fire_keeps env h ps :
  forall w ps', fst (fire env h ps w) = Ok ps' ->
                intervals ps' = intervals ps
                /\ map monitoring ps' = map monitoring ps.
Proof.
  induction ps as [|p rest IH]; intros w ps'; cbn [fire].
  - intros [= <-]. auto.
  - destruct (Nat.eqb (handle p) h).
    + unfold bind. destruct (pollTick env (monitoring p) (lastChecked p) w) as [[t|e|] w1];
        cbn; try discriminate. intros [= <-]. auto.
    + unfold bind. specialize (IH w).
      destruct (fire env h rest w) as [[rest'|e|] w1]; cbn in *; try discriminate.
      intros [= <-]. destruct (IH rest' eq_refl) as [Hi Hm]. cbn.
      unfold intervals in *. cbn. rewrite Hi, Hm. auto.
Qed.

Lemma invoke_intervals env credentials e w :
  exists extra,
    intervals (pollers (snd (invoke env credentials e w)))
    = intervals (pollers w) ++ extra
    /\ map monitoring (pollers (snd (invoke env credentials e w)))
       = map monitoring (pollers w) ++ map (fun _ => true) extra.
Proof.
  assert (Hsame : pollers (snd (invoke env credentials e w)) = pollers w ->
                  exists extra,
                    intervals (pollers (snd (invoke env credentials e w)))
                    = intervals (pollers w) ++ extra
                    /\ map monitoring (pollers (snd (invoke env credentials e w)))
                       = map monitoring (pollers w) ++ map (fun _ => true) extra).
  { intros ->. exists []. cbn. rewrite !app_nil_r. auto. }
  pose proof (pollers_facade env credentials e) as Hf.
  destruct e; try (apply Hsame; apply Hf); cbn [invoke] in *.
  - rewrite initialize_eq.
    destruct (sc_login env (calls w) (now w) credentials) as [dt [[]|err]]; cbn [snd pollers].
    + exists [timers w]. unfold intervals. rewrite !map_app. auto.
    + exists []. cbn. rewrite !app_nil_r. auto.
  - unfold startStream, bind, get_this, Date_now, arm_timer, get_pollers, put_pollers,
      put_this, throw, set_this, set_pollers.
    destruct (scraper (this w)), (streamHandler (this w)); cbn [snd pollers].
    all: first [ solve [exists [timers w]; unfold intervals; rewrite !map_app; auto]
               | exists []; cbn; rewrite !app_nil_r; auto ].
  - assert (HR : pollIntervalFired env h w
                 = match fire env h (pollers w) w with
                   | (Ok ps', w1) => (Ok tt, set_pollers ps' w1)
                   | (Throw err, w1) => (Throw err, w1)
                   | (OutOfFuel, w1) => (OutOfFuel, w1)
                   end).
    { unfold pollIntervalFired, bind, get_pollers, put_pollers.
      destruct (fire env h (pollers w) w) as [[ps'|err|] w1]; reflexivity. }
    rewrite HR. clear HR Hsame.
    pose proof (fire_keeps env h (pollers w) w) as Hk.
    pose proof (pollers_fire env h (pollers w) w) as Hp.
    destruct (fire env h (pollers w) w) as [[ps'|err|] w1]; cbn [fst snd] in *.
    + destruct (Hk ps' eq_refl) as [Hi Hm]. exists []. cbn. rewrite !app_nil_r. auto.
    + exists []. cbn. rewrite Hp, !app_nil_r. auto.
    + exists []. cbn. rewrite Hp, !app_nil_r. auto.
Qed.

(** X23.  Polling is never stopped.  In every state a new service can reach,
    every polling interval armed so far is still there with its
    [isMonitoring] true, and no entry removes an interval: [startStream], and
    with it every successful [initialize], adds one and clears none. *)
Theorem polling_never_stops env credentials w :
  reachable env credentials w ->
  Forall (fun p => monitoring p = true) (pollers w)
  /\ forall e, exists extra,
       intervals (pollers (snd (invoke env credentials e w)))
       = intervals (pollers w) ++ extra.
Proof.
  intros Hr. split.
  - induction Hr as [t0|w e _ IH]; [constructor|].
    destruct (invoke_intervals env credentials e w) as (extra & _ & Hm).
    assert (Hall : forall l, Forall (fun b => b = true) (map monitoring l)
                             <-> Forall (fun p => monitoring p = true) l).
    { intros l. rewrite Forall_map. reflexivity. }
    apply Hall. rewrite Hm. apply Forall_app. split; [apply Hall, IH|].
    apply Forall_map, Forall_forall. reflexivity.
  - intros e. destruct (invoke_intervals env credentials e w) as (extra & Hi & _).
    exists extra. exact Hi.
Qed.

Lemma polling_never_stops_witness :
  Forall (fun p => monitoring p = true)
         (pollers (snd (invoke env_accepting credentials E_initialize
                          (initialized env_accepting 0))))
  /\ forall e, exists extra,
       intervals (pollers (snd (invoke env_accepting credentials e
                                 (snd (invoke env_accepting credentials E_initialize
                                         (initialized env_accepting 0))))))
       = intervals (pollers (snd (invoke env_accepting credentials E_initialize
                                    (initialized env_accepting 0))))
         ++ extra.
Proof.
  apply (polling_never_stops env_accepting credentials
           (snd (invoke env_accepting credentials E_initialize
                   (initialized env_accepting 0)))).
  apply reachable_invoke.
  apply (reachable_invoke env_accepting credentials (new_world 0) E_initialize).
  apply reachable_new.
Defined.

(** ** The cursor of a polling interval *)

Section Clock.

Lemma advances_ret A (a : A) : advances (ret a).
Proof. intros w. cbn. lia. Qed.

Lemma advances_throw A e : advances (@throw World A e).
Proof. intros w. cbn. lia. Qed.

Lemma advances_emit ev : advances (emit ev).
Proof. intros w. cbn. lia. Qed.

Lemma advances_Date_now : advances Date_now.
Proof. intros w. cbn. lia. Qed.

Lemma advances_get_this : advances get_this.
Proof. intros w. cbn. lia. Qed.

Lemma advances_elapse dt : advances (elapse dt).
Proof. intros w. cbn. lia. Qed.

Lemma advances_platform A c (oracle : nat -> Z -> nat * Settled A) :
  advances (platform c oracle).
Proof. intros w. unfold platform. destruct (oracle _ _). cbn. lia. Qed.

Lemma advances_handler_call env ev : advances (handler_call env ev).
Proof. intros w. unfold handler_call. destruct (handleTweetEvent _ _ _ _). cbn. lia. Qed.

Lemma advances_bind A B (m : M A) (k : A -> M B) :
  advances m -> (forall a, advances (k a)) -> advances (bind m k).
Proof.
  intros Hm Hk w. unfold bind. specialize (Hm w).
  destruct (m w) as [[a|e|] w1]; cbn [snd] in *; try assumption.
  specialize (Hk a w1). lia.
Qed.

Lemma advances_try_catch A (m : M A) (h : Thrown -> M A) :
  advances m -> (forall e, advances (h e)) -> advances (try_catch m h).
Proof.
  intros Hm Hh w. unfold try_catch. specialize (Hm w).
  destruct (m w) as [[a|e|] w1]; cbn [snd] in *; try assumption.
  specialize (Hh e w1). lia.
Qed.

Lemma reads_clock_Date_now : reads_clock Date_now.
Proof. intros w t [= <-]. reflexivity. Qed.

Lemma reads_clock_bind A (m : M A) (k : A -> M Z) :
  (forall a, reads_clock (k a)) -> reads_clock (bind m k).
Proof.
  intros Hk w t. unfold bind. destruct (m w) as [[a|e|] w1]; cbn; try discriminate.
  apply Hk.
Qed.

End Clock.

Ltac advances_step :=
  match goal with
  | |- forall _, _ => intro
  | |- advances (bind _ _) => apply advances_bind
  | |- advances (try_catch _ _) => apply advances_try_catch
  | |- advances (ret _) => apply advances_ret
  | |- advances (throw _) => apply advances_throw
  | |- advances (emit _) => apply advances_emit
  | |- advances Date_now => apply advances_Date_now
  | |- advances get_this => apply advances_get_this
  | |- advances (elapse _) => apply advances_elapse
  | |- advances (platform _ _) => apply advances_platform
  | |- advances (handler_call _ _) => apply advances_handler_call
  | |- advances (if ?b then _ else _) => destruct b
  | |- advances (match ?x with _ => _ end) => destruct x
  | |- _ => solve [auto]
  end.

Lemma advances_forAwait env isMonitoring lastChecked gen :
  advances (forAwait env isMonitoring lastChecked gen).
Proof.
  induction gen as [|[dt step] rest IH]; cbn [forAwait]; unfold dispatch;
    repeat advances_step.
Qed.

Lemma advances_pollTick env isMonitoring lastChecked :
  advances (pollTick env isMonitoring lastChecked).
Proof. unfold pollTick. repeat advances_step. apply advances_forAwait. Qed.

(** The tick in closed form, on what the loop over the generator does. *)
Lemma pollTick_eq env lastChecked w :
  pollTick env true lastChecked w
  = match scraper (this w) with
    | None => (Ok lastChecked, w)
    | Some _ =>
        match forAwait env true lastChecked (sc_searchTweets env (calls w) (now w))
                (called (SearchTweets EmptyString 20) 0 w) with
        | (Ok _, w2) => (Ok (now w2), w2)
        | (Throw _, w2) => (Ok lastChecked, w2)
        | (OutOfFuel, w2) => (OutOfFuel, w2)
        end
    end.
Proof.
  unfold pollTick. cbn [negb]. unfold try_catch. unfold bind at 1, get_this.
  destruct (scraper (this w)) as [s|]; [|reflexivity].
  unfold bind at 1, ret at 1. unfold bind at 1, platform. cbn [outcome].
  unfold bind at 1. unfold called.
  replace (now w + Z.of_nat 0) with (now w + 0) by reflexivity.
  destruct (forAwait env true lastChecked _ _) as [[[]|e|] w2]; reflexivity.
Qed.

Lemma dispatch_fulfilled env ev w :
  handler_fulfils env ->
  fst (dispatch env ev w) = Ok tt /\ now w <= now (snd (dispatch env ev w)).
Proof.
  intros Hh. unfold dispatch, bind, get_this.
  destruct (streamHandler (this w)); [|cbn; split; [reflexivity|lia]].
  unfold handler_call. specialize (Hh (calls w) (now w) ev).
  destruct (handleTweetEvent env (calls w) (now w) ev) as [dt r]. cbn [snd] in Hh.
  subst r. cbn. split; [reflexivity|lia].
Qed.

(** One step of the loop on an item, monitoring on. *)
Lemma forAwait_yield env lastChecked dt tweet rest w :
  forAwait env true lastChecked ((dt, Yield tweet) :: rest) w
  = ((if lastChecked <? now w + Z.of_nat dt
      then dispatch env (tweetEvent_of tweet (now w + Z.of_nat dt))
      else ret tt) ;;
     forAwait env true lastChecked rest) (fetched_after dt tweet w).
Proof. reflexivity. Qed.

(** A generator that only yields, with a handler that fulfils: the loop
    runs to its end. *)
Lemma forAwait_fulfilled env lastChecked gen :
  yields_only gen ->
  handler_fulfils env ->
  forall w,
    fst (forAwait env true lastChecked gen w) = Ok tt
    /\ now w + duration gen <= now (snd (forAwait env true lastChecked gen w)).
Proof.
  intros Hy Hh. induction Hy as [|[dt step] rest [tweet Hs] _ IH]; intros w.
  - cbn. split; [reflexivity|lia].
  - cbn [snd] in Hs. subst step. rewrite forAwait_yield. unfold bind.
    assert (Hm : forall m : M unit,
               m = dispatch env (tweetEvent_of tweet (now w + Z.of_nat dt)) \/ m = ret tt ->
               fst (m (fetched_after dt tweet w)) = Ok tt
               /\ now w + Z.of_nat dt <= now (snd (m (fetched_after dt tweet w)))).
    { intros m [->| ->]; [apply (dispatch_fulfilled env _ (fetched_after dt tweet w) Hh)|].
      cbn. split; [reflexivity|lia]. }
    match goal with |- context [?f (fetched_after dt tweet w)] =>
      destruct (Hm f) as [Hok Hn]; [destruct (lastChecked <? _); auto|];
      destruct (f (fetched_after dt tweet w)) as [r w2] end.
    cbn [fst snd] in Hok, Hn. subst r.
    destruct (IH w2) as [-> Hn2]. split; [reflexivity|].
    unfold duration, list_sum in *. cbn [map fst fold_right]. rewrite Nat2Z.inj_add. lia.
Qed.

(** A generator that throws at some step: the loop throws, there or at an
    earlier handler call. *)
Lemma forAwait_gen_throws env lastChecked gen :
  throws_somewhere gen ->
  forall w, exists e, fst (forAwait env true lastChecked gen w) = Throw e.
Proof.
  induction gen as [|[dt step] rest IH]; intros Ht w.
  - inversion Ht.
  - destruct step as [tweet|e]; [|exists e; reflexivity].
    assert (Hrest : throws_somewhere rest).
    { inversion Ht as [? ? [e He]|]; [discriminate He|assumption]. }
    rewrite forAwait_yield. unfold bind.
    assert (Hm : forall m : M unit,
               m = dispatch env (tweetEvent_of tweet (now w + Z.of_nat dt)) \/ m = ret tt ->
               fst (m (fetched_after dt tweet w)) <> OutOfFuel).
    { intros m [->| ->]; [|discriminate].
      unfold dispatch, bind, get_this.
      destruct (streamHandler _); [|discriminate].
      unfold handler_call. destruct (handleTweetEvent _ _ _ _) as [d [[]|e]]; discriminate. }
    match goal with |- context [?f (fetched_after dt tweet w)] =>
      specialize (Hm f ltac:(destruct (lastChecked <? _); auto));
      destruct (f (fetched_after dt tweet w)) as [[[]|e|] w2] end.
    + apply IH. exact Hrest.
    + exists e. reflexivity.
    + cbn in Hm. congruence.
Qed.

(** A handler that rejects the first item, which is newer: the loop throws. *)
Lemma forAwait_handler_rejects env lastChecked dt tweet rest w :
  handler_rejects env ->
  streamHandler (this w) <> None ->
  lastChecked < now w + Z.of_nat dt ->
  exists e, fst (forAwait env true lastChecked ((dt, Yield tweet) :: rest) w) = Throw e.
Proof.
  intros Hr Hh Hnew. rewrite forAwait_yield.
  destruct (Z.ltb_spec lastChecked (now w + Z.of_nat dt)); [|lia].
  unfold bind at 1, dispatch, bind at 1, get_this. cbn [this fetched_after].
  destruct (streamHandler (this w)); [|congruence].
  unfold handler_call. cbn [calls now fetched_after].
  destruct (Hr (calls w) (now w + Z.of_nat dt)
              (tweetEvent_of tweet (now w + Z.of_nat dt))) as [e He].
  destruct (handleTweetEvent env _ _ _) as [d r]. cbn [snd] in He. subst r.
  exists e. reflexivity.
Qed.

(** A tick never throws, and does not move back a [lastChecked] that is not
    in the future. *)
Lemma pollTick_returns_cursor env isMonitoring lastChecked w :
  exists t,
    fst (pollTick env isMonitoring lastChecked w) = Ok t
    /\ (lastChecked <= now w -> lastChecked <= t).
Proof.
  destruct isMonitoring; [|exists lastChecked; cbn; auto with zarith].
  pose proof (advances_pollTick env true lastChecked w) as Hadv.
  pose proof (returns_pollTick env true lastChecked w) as Hret.
  rewrite pollTick_eq in *.
  destruct (scraper (this w)); [|exists lastChecked; cbn; auto with zarith].
  destruct (forAwait env true lastChecked _ _) as [[[]|e|] w2]; cbn [fst snd] in *.
  - exists (now w2). split; [reflexivity|lia].
  - exists lastChecked. split; [reflexivity|lia].
  - congruence.
Qed.

(** X24.  The callback of the polling interval never throws, and a
    [lastChecked] that is not in the future is never moved back.  With
    monitoring off the tick does nothing and [lastChecked] stays.  With
    monitoring on: when the search only yields items and the handler
    fulfils every call, [lastChecked] becomes the time at which the tick
    ended, no earlier than the start plus the time the search took; when the
    scraper is missing, the search throws, or the handler rejects the first
    item, which is newer, [lastChecked] stays as it was. *)
Theorem pollTick_cursor env isMonitoring lastChecked w :
  (exists t,
     fst (pollTick env isMonitoring lastChecked w) = Ok t
     /\ (lastChecked <= now w -> lastChecked <= t))
  /\ (isMonitoring = false ->
      pollTick env isMonitoring lastChecked w = (Ok lastChecked, w))
  /\ (isMonitoring = true ->
      scraper (this w) <> None ->
      yields_only (sc_searchTweets env (calls w) (now w)) ->
      handler_fulfils env ->
      fst (pollTick env isMonitoring lastChecked w)
      = Ok (now (snd (pollTick env isMonitoring lastChecked w)))
      /\ now w + duration (sc_searchTweets env (calls w) (now w))
         <= now (snd (pollTick env isMonitoring lastChecked w)))
  /\ (isMonitoring = true ->
      scraper (this w) = None
      \/ throws_somewhere (sc_searchTweets env (calls w) (now w))
      \/ (handler_rejects env
          /\ streamHandler (this w) <> None
          /\ exists dt tweet rest,
               sc_searchTweets env (calls w) (now w) = (dt, Yield tweet) :: rest
               /\ lastChecked < now w + Z.of_nat dt) ->
      fst (pollTick env isMonitoring lastChecked w) = Ok lastChecked).
Proof.
  split; [apply pollTick_returns_cursor|].
  split; [intros ->; reflexivity|].
  split.
  - intros -> Hs Hy Hh. rewrite pollTick_eq.
    destruct (scraper (this w)); [|congruence].
    destruct (forAwait_fulfilled env lastChecked _ Hy Hh
                (called (SearchTweets EmptyString 20) 0 w)) as [Hok Hnow].
    destruct (forAwait env true lastChecked _ _) as [r w2]. cbn [fst snd] in *.
    subst r. cbn [fst snd]. split; [reflexivity|].
    unfold called in Hnow. cbn [now] in Hnow. lia.
  - intros -> Hcase. rewrite pollTick_eq.
    destruct (scraper (this w)) eqn:Es; [|reflexivity].
    assert (Ht : exists e,
               fst (forAwait env true lastChecked (sc_searchTweets env (calls w) (now w))
                      (called (SearchTweets EmptyString 20) 0 w)) = Throw e).
    { destruct Hcase as [Hn|[Hthrow|(Hr & Hh & dt & tweet & rest & Hgen & Hnew)]].
      - discriminate Hn.
      - apply forAwait_gen_throws. exact Hthrow.
      - rewrite Hgen. apply forAwait_handler_rejects; try assumption.
        unfold called. cbn [now]. lia. }
    destruct Ht as [e He].
    destruct (forAwait env true lastChecked _ _) as [r w2]. cbn [fst] in He. subst r.
    reflexivity.
Qed.

(** After the interval has waited its 30 s: on a platform that answers, the
    tick ends at 31030 and leaves that time; when the search throws, and when
    the handler rejects, it leaves 1000. *)
Lemma pollTick_cursor_witness :
  (fst (pollTick env_accepting true 1000 (later 30000 (initialized env_accepting 1000)))
   = Ok (now (snd (pollTick env_accepting true 1000
                     (later 30000 (initialized env_accepting 1000)))))
   /\ now (later 30000 (initialized env_accepting 1000))
      + duration (sc_searchTweets env_accepting
                    (calls (later 30000 (initialized env_accepting 1000)))
                    (now (later 30000 (initialized env_accepting 1000))))
      <= now (snd (pollTick env_accepting true 1000
                     (later 30000 (initialized env_accepting 1000)))))
  /\ fst (pollTick env_rejecting true 1000 (later 30000 (initialized env_rejecting 1000)))
     = Ok 1000
  /\ fst (pollTick env_handler_failing true 1000
            (later 30000 (initialized env_handler_failing 1000)))
     = Ok 1000.
Proof.
  split; [|split].
  - apply (proj1 (proj2 (proj2 (pollTick_cursor env_accepting true 1000
                                  (later 30000 (initialized env_accepting 1000)))))).
    + reflexivity.
    + vm_compute. discriminate.
    + vm_compute. repeat constructor; eexists; reflexivity.
    + intros k t ev. reflexivity.
  - apply (proj2 (proj2 (proj2 (pollTick_cursor env_rejecting true 1000
                                  (later 30000 (initialized env_rejecting 1000)))))).
    + reflexivity.
    + right. left. vm_compute. constructor. eexists. reflexivity.
  - apply (proj2 (proj2 (proj2 (pollTick_cursor env_handler_failing true 1000
                                  (later 30000 (initialized env_handler_failing 1000)))))).
    + reflexivity.
    + right. right. split; [|split].
      * intros k t ev. eexists. reflexivity.
      * vm_compute. discriminate.
      * exists 0%nat, tweet_a, [(15%nat, Yield tweet_b); (15%nat, Yield tweet_c)].
        split; [reflexivity|]. vm_compute. reflexivity.
Defined.

End AgentTwitterClientServiceMore.
